(** * WhatsApp message automator: send-orchestration engine

    A shallow embedding of the JavaScript sources

    - [src/csvParser.js]        ([validateContacts], [getAvailableFields]),
    - [src/templateRenderer.js] ([renderTemplate], [extractPlaceholders],
      [validateTemplate]),
    - [src/retryLogic.js]       ([retryWithBackoff], [sleep], [RateLimiter]),
    - [src/stateTracker.js]     ([StateTracker], with [getStats] and
      [cleanup]),
    - [src/whatsappAutomation.js] (the transport, as far as the
      orchestrator observes it),
    - [src/index.js]            ([WhatsAppAutomationApp], [main]),

    followed by the properties of the specification that were checked
    against them, and by further properties of the same modules.

    Conventions of the embedding.

    - A JavaScript string is a [string]: the sequence of bytes of its UTF-8
      encoding.  [toLowerCase] and the class [\s] are modelled on ASCII.
    - A JavaScript number that measures time is a rational in [Q]; counters
      are [nat].
    - A plain object used as a dictionary is an association list whose keys
      are unique, in insertion order ([JsObject]).  Keys that read as array
      indices, which JavaScript lists first, are taken not to occur among
      column names; a fingerprint is too long to be one.
    - A [Set] is the list of its members in insertion order ([JsSet]).
    - [async] code runs strictly sequentially here ([await] everywhere), so a
      method is a state transformer on a [World] that may complete normally
      or throw: the monad [M].  A thrown exception never rolls the world
      back.
    - Calls to the winston logger neither influence control flow nor touch
      any state the properties speak about; they are left out, except for the
      one place where the logger may still be [null] ([shutdown]).
    - What the runtime decides is a script of the [World]: the time that
      passes unasked, when a timer fires, which calls of the transport and of
      the file system fail, and what a failed write leaves of the file. *)

From Stdlib Require Import ZArith QArith Qminmax Qabs List String Ascii Bool Lia Arith.
From Stdlib Require Import DecimalString Lqa Sorted Qround.
Import ListNotations.

Local Open Scope string_scope.
Local Open Scope list_scope.

(** ** Strings *)

Module Str.

Definition is_upper (c : ascii) : bool :=
  let n := nat_of_ascii c in (65 <=? n)%nat && (n <=? 90)%nat.

Definition lower (c : ascii) : ascii :=
  if is_upper c then ascii_of_nat (nat_of_ascii c + 32) else c.

(** [String.prototype.toLowerCase], on ASCII. *)
Fixpoint toLowerCase (s : string) : string :=
  match s with
  | EmptyString => EmptyString
  | String c s' => String (lower c) (toLowerCase s')
  end.

(** The regular-expression class [\s], on ASCII: TAB, LF, VT, FF, CR and
    the space. *)
Definition is_space (c : ascii) : bool :=
  let n := nat_of_ascii c in
  ((9 <=? n)%nat && (n <=? 13)%nat) || (n =? 32)%nat.

Definition is_digit (c : ascii) : bool :=
  let n := nat_of_ascii c in (48 <=? n)%nat && (n <=? 57)%nat.

(** [s.replace(/[...]/g, '')] for a character class given as a predicate. *)
Fixpoint strip (drop : ascii -> bool) (s : string) : string :=
  match s with
  | EmptyString => EmptyString
  | String c s' => if drop c then strip drop s' else String c (strip drop s')
  end.

Fixpoint forallb (p : ascii -> bool) (s : string) : bool :=
  match s with
  | EmptyString => true
  | String c s' => p c && forallb p s'
  end.

Definition startsWith (s : string) (c : ascii) : bool :=
  match s with
  | String c' _ => Ascii.eqb c' c
  | EmptyString => false
  end.

(** [s.trim() !== ''] *)
Definition nonblank (s : string) : bool := negb (forallb is_space s).

(** Truthiness of a string value: only [''] is falsy. *)
Definition truthy (s : string) : bool := negb (String.eqb s "").

(** Decimal rendering of a counter, as a template literal prints it. *)
Definition of_nat (n : nat) : string := NilZero.string_of_uint (Nat.to_uint n).

(** Decimal rendering of an integer, [Number.prototype.toString]. *)
Definition of_Z (z : Z) : string := NilZero.string_of_int (Z.to_int z).

End Str.

(** ** SHA-256 (FIPS 180-4), the digest behind [crypto.createHash('sha256')] *)

Module SHA256.
Local Open Scope Z_scope.

Definition wrap (x : Z) : Z := Z.land x 0xffffffff.
Definition add32 (x y : Z) : Z := wrap (x + y).
Definition rotr (n x : Z) : Z := Z.lor (Z.shiftr x n) (wrap (Z.shiftl x (32 - n))).
Definition xor3 (x y z : Z) : Z := Z.lxor (Z.lxor x y) z.

Definition Ch (x y z : Z) : Z := Z.lxor (Z.land x y) (Z.land (wrap (Z.lnot x)) z).
Definition Maj (x y z : Z) : Z := xor3 (Z.land x y) (Z.land x z) (Z.land y z).
Definition Sigma0 (x : Z) : Z := xor3 (rotr 2 x) (rotr 13 x) (rotr 22 x).
Definition Sigma1 (x : Z) : Z := xor3 (rotr 6 x) (rotr 11 x) (rotr 25 x).
Definition sigma0 (x : Z) : Z := xor3 (rotr 7 x) (rotr 18 x) (Z.shiftr x 3).
Definition sigma1 (x : Z) : Z := xor3 (rotr 17 x) (rotr 19 x) (Z.shiftr x 10).

Definition is_prime (n : nat) : bool :=
List.forallb (fun d => negb (Nat.eqb (Nat.modulo n d) 0)) (seq 2 (n - 2)).

(** The first [n] primes ([n <= 64]). *)
Definition primes (n : nat) : list Z :=
map Z.of_nat (firstn n (filter is_prime (seq 2 310))).

(** The integer cube root of [n < 2^105], bit by bit from the top. *)
Definition cbrt (n : Z) : Z :=
fold_left (fun x b => let y := Z.lor x (Z.shiftl 1 (Z.of_nat b)) in
                      if y * y * y <=? n then y else x)
          (rev (seq 0 35)) 0.

(** The round constants: the first 32 bits of the fractional parts of the
    cube roots of the first 64 primes. *)
Definition K : list Z := map (fun p => wrap (cbrt (Z.shiftl p 96))) (primes 64).

(** The initial hash value: the same of the square roots of the first 8
    primes. *)
Definition H0 : list Z := map (fun p => wrap (Z.sqrt (Z.shiftl p 64))) (primes 8).

Definition bytes_of (s : string) : list Z :=
  map (fun c => Z.of_N (N_of_ascii c)) (list_ascii_of_string s).

(** Big-endian bytes of [x], [n] of them. *)
Fixpoint be_bytes (n : nat) (x : Z) : list Z :=
  match n with
  | O => []
  | S n' => Z.land (Z.shiftr x (8 * Z.of_nat n')) 0xff :: be_bytes n' x
  end.

Definition pad (msg : list Z) : list Z :=
  let len := Z.of_nat (List.length msg) in
  let zeros := Z.to_nat ((55 - len) mod 64) in
  msg ++ [0x80] ++ repeat 0 zeros ++ be_bytes 8 (8 * len).

Fixpoint chunks {A : Type} (fuel size : nat) (l : list A) : list (list A) :=
  match fuel with
  | O => []
  | S fuel' =>
      match l with
      | [] => []
      | _ => firstn size l :: chunks fuel' size (skipn size l)
      end
  end.

Definition word_of (bs : list Z) : Z :=
  fold_left (fun acc b => Z.lor (Z.shiftl acc 8) b) bs 0.

(** The message schedule, most recent word first. *)
Fixpoint extend (n : nat) (w : list Z) : list Z :=
  match n with
  | O => w
  | S n' =>
      let x := add32 (add32 (sigma1 (nth 1 w 0)) (nth 6 w 0))
                     (add32 (sigma0 (nth 14 w 0)) (nth 15 w 0)) in
      extend n' (x :: w)
  end.

Definition schedule (block : list Z) : list Z := rev (extend 48 (rev block)).

Record Vars := mkVars { va : Z; vb : Z; vc : Z; vd : Z; ve : Z; vf : Z; vg : Z; vh : Z }.

Definition round (v : Vars) (kw : Z * Z) : Vars :=
  let t1 := add32 (add32 (add32 (vh v) (Sigma1 (ve v))) (Ch (ve v) (vf v) (vg v)))
                  (add32 (fst kw) (snd kw)) in
  let t2 := add32 (Sigma0 (va v)) (Maj (va v) (vb v) (vc v)) in
  mkVars (add32 t1 t2) (va v) (vb v) (vc v) (add32 (vd v) t1) (ve v) (vf v) (vg v).

Definition vars_of (h : list Z) : Vars :=
  mkVars (nth 0 h 0) (nth 1 h 0) (nth 2 h 0) (nth 3 h 0)
         (nth 4 h 0) (nth 5 h 0) (nth 6 h 0) (nth 7 h 0).

Definition list_of (v : Vars) : list Z :=
  [va v; vb v; vc v; vd v; ve v; vf v; vg v; vh v].

Definition compress (h : list Z) (block : list Z) : list Z :=
  let v := fold_left round (combine K (schedule block)) (vars_of h) in
  map (fun p => add32 (fst p) (snd p)) (combine h (list_of v)).

Definition digest (msg : list Z) : list Z :=
  let bytes := pad msg in
  let words := map word_of (chunks (List.length bytes) 4 bytes) in
  fold_left compress (chunks (List.length words) 16 words) H0.

Definition hex_digit (d : Z) : ascii :=
  if d <? 10 then ascii_of_N (Z.to_N (48 + d)) else ascii_of_N (Z.to_N (87 + d)).

Fixpoint hex_of (n : nat) (x : Z) : string :=
  match n with
  | O => EmptyString
  | S n' => String (hex_digit (Z.land (Z.shiftr x (4 * Z.of_nat n')) 0xf)) (hex_of n' x)
  end.

(** [createHash('sha256').update(s).digest('hex')] *)
Definition hex (s : string) : string :=
  String.concat "" (map (hex_of 8) (digest (bytes_of s))).

End SHA256.

(** ** Exceptions *)

(** A thrown [Error]; only its [message] is ever inspected. *)
Record Error := mkError { message : string }.

(** How an evaluation ends: normally with a value, or with a throw. *)
Inductive Result (A : Type) : Type :=
| Ok (a : A)
| Err (e : Error).
Arguments Ok {A} a.
Arguments Err {A} e.

Definition is_ok {A : Type} (r : Result A) : bool :=
  match r with Ok _ => true | Err _ => false end.

(** ** Plain objects used as dictionaries *)

Definition JsObject (V : Type) : Type := list (string * V).

Module Obj.

Section Ops.
Context {V : Type}.

(** [o[k]] *)
Fixpoint get (o : JsObject V) (k : string) : option V :=
  match o with
  | [] => None
  | (k', v) :: o' => if String.eqb k' k then Some v else get o' k
  end.

(** [k in o] *)
Definition has (o : JsObject V) (k : string) : bool :=
  match get o k with Some _ => true | None => false end.

(** [o[k] = v]: overwrite in place, or append a new property *)
Fixpoint set (o : JsObject V) (k : string) (v : V) : JsObject V :=
  match o with
  | [] => [(k, v)]
  | (k', v') :: o' =>
      if String.eqb k' k then (k', v) :: o' else (k', v') :: set o' k v
  end.

(** [delete o[k]] *)
Fixpoint delete (o : JsObject V) (k : string) : JsObject V :=
  match o with
  | [] => []
  | (k', v') :: o' =>
      if String.eqb k' k then delete o' k else (k', v') :: delete o' k
  end.

(** [Object.keys(o)] *)
Definition keys (o : JsObject V) : list string := map fst o.

(** [{...o, ...src}] *)
Definition spread (o src : JsObject V) : JsObject V :=
  fold_left (fun acc kv => set acc (fst kv) (snd kv)) src o.

(** An object has each key once. *)
Definition wf (o : JsObject V) : Prop := NoDup (keys o).

End Ops.

End Obj.

(** ** Sets ([Set]): the members, once each, in insertion order *)

Module JsSet.

Section Ops.
Context {A : Type}.
Variable same : A -> A -> bool.

(** [s.has(x)] *)
Definition has (s : list A) (x : A) : bool := existsb (same x) s.

(** [s.add(x)] *)
Definition add (s : list A) (x : A) : list A := if has s x then s else s ++ [x].

End Ops.

End JsSet.

(** ** Values *)

(** A cell of a CSV row after [cast: true]: text, or an integral number. *)
Inductive Field : Type :=
| FStr (s : string)
| FNum (z : Z).

(** A contact: the row as an object, column name to cell. *)
Definition Contact : Type := JsObject Field.

Definition field_truthy (v : Field) : bool :=
  match v with
  | FStr s => Str.truthy s
  | FNum z => negb (Z.eqb z 0)
  end.

Definition field_toString (v : Field) : string :=
  match v with
  | FStr s => s
  | FNum z => Str.of_Z z
  end.

(** Values that occur in ledger entries and as results of operations.  An
    ISO-8601 timestamp is kept as the instant it denotes, in milliseconds. *)
Inductive JsVal : Type :=
| VUndefined
| VStr (s : string)
| VNum (z : Z)
| VIso (t : Q)
| VObj (o : JsObject Field).

Definition Entry : Type := JsObject JsVal.

(** [StateTracker.state] *)
Record TrackerState := mkTrackerState {
  sentMessages : JsObject Entry;
  lastUpdated : option Q
}.

(** [stats] of [run] *)
Record Stats := mkStats { total : nat; sent : nat; skipped : nat; failed : nat }.

(** ** Configuration ([config.yaml]) *)

Record RetryConfig := mkRetryConfig {
  max_attempts : option nat;
  initial_delay_ms : option Q;
  max_delay_ms : option Q;
  backoff_multiplier : option Q
}.

(** A missing key and an empty string are both falsy and the code never
    tells them apart, so an optional text setting is a [string]. *)
Record Config := mkConfig {
  contacts_csv : string;
  message_template : string;
  state_file : string;
  rate_limit : Q;
  retry : option RetryConfig;
  image_path : string;
  image_caption : string;
  screenshots_enabled : bool
}.

(** ** The world *)

(** What is on disk at [config.state_file]. *)
Inductive FileData : Type :=
| Unreadable (e : Error)          (* [fs.readFile] throws [e] *)
| Malformed (e : Error)           (* [JSON.parse], or reading the parsed value, throws [e] *)
| Stored (st : TrackerState).     (* the text [JSON.stringify] wrote for [st] *)

(** A call received by the transport. *)
Inductive Call : Type :=
| CallInitialize
| CallSend (phone message image : string) (caption : option string)
| CallScreenshot (filename : string)
| CallClose.

(** The nullable fields of the application object and of the transport. *)
Record Refs := mkRefs {
  logger : bool;      (* [app.logger !== null] *)
  whatsapp : bool;    (* [app.whatsapp !== null] *)
  browser : bool      (* [whatsapp.browser], launched and connected *)
}.

(** What the program does to the outside, in the order it does it. *)
Inductive Event : Type :=
| Slept (ms : Q)        (* [sleep(ms)] was awaited *)
| Invoked               (* the scripted operation was invoked *)
| Called (c : Call).    (* the transport received [c] *)

(** Wall-clock time, in milliseconds.  [lags] is the time that passes,
    unasked, before each reading of the clock and on top of each sleep;
    [fires ms] is the time after which the runtime fires a timer set for
    [ms], which may be less than [ms]. *)
Record Timer := mkTimer {
  clock : Q;
  lags : list N;
  fires : Q -> N
}.

(** The browser-driven transport, as the orchestrator observes it. *)
Record Transport := mkTransport {
  launch : option Error;             (* what [initialize] meets *)
  deliveries : list (option Error)   (* what the next [sendMessage] calls meet *)
}.

(** How a call of [mkdir] or [writeFile] fails. *)
Inductive Fault : Type :=
| Refused (e : Error)        (* it throws [e] and has done nothing *)
| Torn (e parse : Error).    (* [writeFile] throws [e] after it opened the file
                                with flag ['w'], created and emptied: what it
                                leaves, nothing or a part of the text, is
                                rejected by [JSON.parse] with [parse] *)

(** The error a failing call throws. *)
Definition thrown (f : Fault) : Error :=
  match f with
  | Refused e => e
  | Torn e _ => e
  end.

(** The file system: the state file, and what the next [mkdir]/[writeFile]
    calls meet. *)
Record Fs := mkFs {
  file : option FileData;
  faults : list (option Fault)
}.

(** What the process is started with. *)
Record Inputs := mkInputs {
  config_yaml : Result Config;
  contacts_rows : Result (list Contact);
  template_text : Result string;
  dry_run_flag : bool                (* [process.argv.includes('--dry-run')] *)
}.

Record World := mkWorld {
  stats : Stats;
  tracker : TrackerState;
  lastMessageTime : Q;
  refs : Refs;
  timer : Timer;
  outcomes : list (Result JsVal);   (* what the next [invoke] calls meet *)
  transport : Transport;
  fs : Fs;
  inputs : Inputs;
  trace : list Event
}.

Definition set_stats (x : Stats) (w : World) : World :=
  mkWorld x (tracker w) (lastMessageTime w) (refs w) (timer w) (outcomes w) (transport w) (fs w) (inputs w) (trace w).
Definition set_tracker (x : TrackerState) (w : World) : World :=
  mkWorld (stats w) x (lastMessageTime w) (refs w) (timer w) (outcomes w) (transport w) (fs w) (inputs w) (trace w).
Definition set_lastMessageTime (x : Q) (w : World) : World :=
  mkWorld (stats w) (tracker w) x (refs w) (timer w) (outcomes w) (transport w) (fs w) (inputs w) (trace w).
Definition set_refs (x : Refs) (w : World) : World :=
  mkWorld (stats w) (tracker w) (lastMessageTime w) x (timer w) (outcomes w) (transport w) (fs w) (inputs w) (trace w).
Definition set_timer (x : Timer) (w : World) : World :=
  mkWorld (stats w) (tracker w) (lastMessageTime w) (refs w) x (outcomes w) (transport w) (fs w) (inputs w) (trace w).
Definition set_outcomes (x : list (Result JsVal)) (w : World) : World :=
  mkWorld (stats w) (tracker w) (lastMessageTime w) (refs w) (timer w) x (transport w) (fs w) (inputs w) (trace w).
Definition set_transport (x : Transport) (w : World) : World :=
  mkWorld (stats w) (tracker w) (lastMessageTime w) (refs w) (timer w) (outcomes w) x (fs w) (inputs w) (trace w).
Definition set_fs (x : Fs) (w : World) : World :=
  mkWorld (stats w) (tracker w) (lastMessageTime w) (refs w) (timer w) (outcomes w) (transport w) x (inputs w) (trace w).
Definition set_trace (x : list Event) (w : World) : World :=
  mkWorld (stats w) (tracker w) (lastMessageTime w) (refs w) (timer w) (outcomes w) (transport w) (fs w) (inputs w) x.

(** ** The monad of sequential, throwing, stateful code *)

Definition M (A : Type) : Type := World -> Result A * World.

Definition ret {A : Type} (a : A) : M A := fun w => (Ok a, w).

Definition throw {A : Type} (e : Error) : M A := fun w => (Err e, w).

Definition bind {A B : Type} (m : M A) (k : A -> M B) : M B :=
  fun w =>
    match m w with
    | (Ok a, w') => k a w'
    | (Err e, w') => (Err e, w')
    end.

(** [try { m } catch (error) { handler(error) }] *)
Definition try_catch {A : Type} (m : M A) (handler : Error -> M A) : M A :=
  fun w =>
    match m w with
    | (Ok a, w') => (Ok a, w')
    | (Err e, w') => handler e w'
    end.

Definition gets {A : Type} (f : World -> A) : M A := fun w => (Ok (f w), w).

Definition modify (f : World -> World) : M unit := fun w => (Ok tt, f w).

Definition lift {A : Type} (r : Result A) : M A := fun w => (r, w).

Declare Scope js_scope.
Delimit Scope js_scope with js.
Notation "x <- m ;; k" := (bind m (fun x => k))
  (at level 61, m at next level, right associativity) : js_scope.
Notation "m ;; k" := (bind m (fun _ => k))
  (at level 61, right associativity) : js_scope.
Local Open Scope js_scope.

(** The world an evaluation leaves, and its outcome. *)
Definition exec {A : Type} (m : M A) (w : World) : World := snd (m w).
Definition eval {A : Type} (m : M A) (w : World) : Result A := fst (m w).

(** ** Primitives of the runtime *)

Definition pop {A : Type} (l : list A) : option A * list A :=
  match l with
  | [] => (None, [])
  | x :: l' => (Some x, l')
  end.

(** Time passing by the next scheduled lag. *)
Definition elapse (t : Timer) : Timer :=
  match lags t with
  | [] => t
  | l :: rest => mkTimer (clock t + inject_Z (Z.of_N l)) rest (fires t)
  end.

(** An entry of the trace. *)
Definition emit (e : Event) : M unit := modify (fun w => set_trace (trace w ++ [e]) w).

(** [Date.now()], and the instant of [new Date()] *)
Definition now : M Q :=
  fun w => let t := elapse (timer w) in (Ok (clock t), set_timer t w).

(** [sleep(ms)]: [new Promise(resolve => setTimeout(resolve, ms))].  The
    caller resumes when the runtime fires the timer, and a lag later. *)
Definition sleep (ms : Q) : M unit :=
  emit (Slept ms) ;;
  modify (fun w =>
    let t := timer w in
    set_timer (elapse (mkTimer (clock t + inject_Z (Z.of_N (fires t ms))) (lags t) (fires t)))
              w).

(** The delay Node gives a timer set by [setTimeout(f, ms)]: one outside
    [1 .. 2^31 - 1] becomes 1, a fractional one is truncated. *)
Definition TIMEOUT_MAX : Z := 2147483647.

Definition nodeTimeout (ms : Q) : N :=
  if Qle_bool 1 ms && Qle_bool ms (inject_Z TIMEOUT_MAX) then Z.to_N (Qfloor ms) else 1%N.

(** One [fs.mkdir] or [fs.writeFile]: it meets the next scheduled fault, if
    any; [effect] is what it does to the file on success, [damage] what it
    has done to it when it fails. *)
Definition fs_mutation (effect : option FileData -> option FileData)
    (damage : Fault -> option FileData -> option FileData) : M unit :=
  fun w =>
    let d := fs w in
    match pop (faults d) with
    | (Some (Some f), rest) => (Err (thrown f), set_fs (mkFs (damage f (file d)) rest) w)
    | (_, rest) => (Ok tt, set_fs (mkFs (effect (file d)) rest) w)
    end.

(** [fs.mkdir(dir, { recursive: true })]: the file is not its concern. *)
Definition mkdir : M unit := fs_mutation (fun f => f) (fun _ f => f).

(** What a failed [writeFile] leaves of the file. *)
Definition torn (f : Fault) (old : option FileData) : option FileData :=
  match f with
  | Refused _ => old
  | Torn _ parse => Some (Malformed parse)
  end.

(** [fs.writeFile(stateFilePath, JSON.stringify(state, null, 2), 'utf-8')] *)
Definition writeFile (st : TrackerState) : M unit :=
  fs_mutation (fun _ => Some (Stored st)) torn.

(** An invocation of the scripted operation, which stands for an arbitrary
    fallible function handed to [retryWithBackoff]: it meets the next
    scheduled outcome; past the end of the script it returns [undefined]. *)
Definition invoke : M JsVal :=
  emit Invoked ;;
  fun w =>
    match pop (outcomes w) with
    | (Some r, rest) => (r, set_outcomes rest w)
    | (None, rest) => (Ok VUndefined, set_outcomes rest w)
    end.

Definition TypeError (what : string) : Error := mkError what.

(** ** retryLogic.js *)

Section Retry.
Context {A : Type}.
Variable fn : M A.
Variables (max_attempts : nat) (max_delay_ms backoff_multiplier : Q).

(** The [for] loop of [retryWithBackoff] from [attempt] on; [left] is the
    number of iterations it still has to go, [max_attempts - attempt + 1]. *)
Fixpoint attempts (left attempt : nat) (delay : Q) (lastError : option Error) : M A :=
  match left with
  | O =>
      match lastError with
      | Some e =>
          throw (mkError ("Operation failed after " ++ Str.of_nat max_attempts
                          ++ " attempts. Last error: " ++ message e))
      | None => throw (TypeError "Cannot read properties of undefined (reading 'message')")
      end
  | S left' =>
      try_catch fn
        (fun error =>
           if (attempt <? max_attempts)%nat then
             sleep delay ;;
             attempts left' (S attempt) (Qmin (delay * backoff_multiplier) max_delay_ms)
                      (Some error)
           else
             attempts left' (S attempt) delay (Some error))
  end.

End Retry.

Definition default {A : Type} (o : option A) (d : A) : A :=
  match o with Some x => x | None => d end.

(** [retryWithBackoff(fn, config, logger)]; destructuring an absent
    [config] throws. *)
Definition retryWithBackoff {A : Type} (fn : M A) (config : option RetryConfig) : M A :=
  match config with
  | None => throw (TypeError "Cannot destructure property 'max_attempts' of 'config' as it is undefined.")
  | Some c =>
      let max := default (max_attempts c) 3%nat in
      attempts fn max (default (max_delay_ms c) 10000) (default (backoff_multiplier c) 2)
               max 1%nat (default (initial_delay_ms c) 1000) None
  end.

Module RateLimiter.

Record t := mk { messagesPerSecond : Q; minDelayMs : Q }.

(** [new RateLimiter(messagesPerSecond, logger)] *)
Definition new (rate : Q) : M t :=
  modify (set_lastMessageTime 0) ;;
  ret (mk rate (1000 / rate)).

(** [wait()] *)
Definition wait (this : t) : M unit :=
  n <- now ;;
  last <- gets lastMessageTime ;;
  let timeSinceLastMessage := n - last in
  (if Qlt_le_dec timeSinceLastMessage (minDelayMs this)
   then sleep (minDelayMs this - timeSinceLastMessage)
   else ret tt) ;;
  n' <- now ;;
  modify (set_lastMessageTime n').

(** [reset()] *)
Definition reset : M unit := modify (set_lastMessageTime 0).

End RateLimiter.

(** [m.k]: [undefined] when [m] has no such property. *)
Definition member (m : Entry) (k : string) : JsVal := default (Obj.get m k) VUndefined.

(** [SameValueZero], by which a [Set] tells its members apart.  Objects are
    the same when they are one reference; those that reach an entry are
    parsed from the state file or built for one call, so that no two of them
    are. *)
Definition sameValueZero (a b : JsVal) : bool :=
  match a, b with
  | VUndefined, VUndefined => true
  | VStr s, VStr t => String.eqb s t
  | VNum x, VNum y => Z.eqb x y
  | VIso t, VIso u => Qeq_bool t u
  | _, _ => false
  end.

(** ** stateTracker.js *)

Module StateTracker.

(** The constructor's [this.state]. *)
Definition initial : TrackerState := mkTrackerState [] None.

Definition new : M unit := modify (set_tracker initial).

(** [`${phone}:${message}`], the text that is hashed *)
Definition content (phone message : string) : string := phone ++ ":" ++ message.

(** [generateHash(phone, message)] *)
Definition generateHash (phone message : string) : string :=
  SHA256.hex (content phone message).

(** [save()]; its [catch] logs and rethrows. *)
Definition save : M unit :=
  n <- now ;;
  modify (fun w => set_tracker (mkTrackerState (sentMessages (tracker w)) (Some n)) w) ;;
  mkdir ;;
  st <- gets tracker ;;
  writeFile st.

(** [load()]; its outer [catch] logs and rethrows. *)
Definition load : M unit :=
  f <- gets (fun w => file (fs w)) ;;
  match f with
  | None => mkdir ;; save
  | Some (Unreadable e) => throw e
  | Some (Malformed e) => throw e
  | Some (Stored st) => modify (set_tracker st)
  end.

(** [wasMessageSent(phone, message)] *)
Definition wasMessageSent (phone message : string) : M bool :=
  let hash := generateHash phone message in
  gets (fun w => Obj.has (sentMessages (tracker w)) hash).

(** [getMessageInfo(phone, message)]; an entry is an object, hence truthy. *)
Definition getMessageInfo (phone message : string) : M (option Entry) :=
  let hash := generateHash phone message in
  gets (fun w => Obj.get (sentMessages (tracker w)) hash).

(** [markAsSent(phone, message, metadata)] *)
Definition markAsSent (phone message : string) (metadata : JsObject JsVal) : M unit :=
  let hash := generateHash phone message in
  n <- now ;;
  modify (fun w =>
    let entry := Obj.spread [("phone", VStr phone); ("messageHash", VStr hash);
                             ("timestamp", VIso n)] metadata in
    set_tracker (mkTrackerState (Obj.set (sentMessages (tracker w)) hash entry)
                                (lastUpdated (tracker w))) w) ;;
  save.

(** The object [getStats()] returns. *)
Record Stats := mkStats {
  totalMessages : nat;
  uniqueContacts : nat;
  lastUpdated : option Q
}.

(** [getStats()] *)
Definition getStats : M Stats :=
  gets (fun w =>
    let 'mkTrackerState sentMessages updated := tracker w in
    let messages := map snd sentMessages in
    let uniquePhones :=
      fold_left (JsSet.add sameValueZero) (map (fun m => member m "phone") messages) [] in
    mkStats (List.length messages) (List.length uniquePhones) updated).

Section Cleanup.
(** The calendar and the date parser of the runtime: [daysBefore d n] is the
    instant [setDate(getDate() - n)] moves the date [d] to, in the local time
    zone; [parseDate s] is the instant of [new Date(s)], if [s] reads as a
    date. *)
Variable daysBefore : Q -> Z -> Q.
Variable parseDate : string -> option Q.

(** [new Date(v)]; [None] is the invalid date. *)
Definition dateOf (v : JsVal) : option Q :=
  match v with
  | VIso t => Some t
  | VStr s => parseDate s
  | VNum z => if (Z.abs z <=? 8640000000000000)%Z then Some (inject_Z z) else None
  | VUndefined => None
  | VObj _ => parseDate "[object Object]"
  end.

(** [messageDate >= cutoffDate]; an invalid date compares false. *)
Definition notBefore (cutoffDate : Q) (data : Entry) : bool :=
  match dateOf (member data "timestamp") with
  | Some messageDate => Qle_bool cutoffDate messageDate
  | None => false
  end.

(** [cleanup(days)] *)
Definition cleanup (days : option Z) : M nat :=
  n <- now ;;
  let cutoffDate := daysBefore n (default days 30%Z) in
  old <- gets (fun w => sentMessages (tracker w)) ;;
  let originalCount := List.length (Obj.keys old) in
  let newSentMessages :=
    fold_left (fun acc kv =>
                 if notBefore cutoffDate (snd kv) then Obj.set acc (fst kv) (snd kv) else acc)
              old [] in
  modify (fun w =>
    let 'mkTrackerState _ updated := tracker w in
    set_tracker (mkTrackerState newSentMessages updated) w) ;;
  let removedCount := (originalCount - List.length (Obj.keys newSentMessages))%nat in
  (if (0 <? removedCount)%nat then save else ret tt) ;;
  ret removedCount.

End Cleanup.

End StateTracker.

(** ** whatsappAutomation.js, as the orchestrator observes it *)

Module WhatsAppAutomation.

Definition record (c : Call) : M unit := emit (Called c).

Definition set_browser (b : bool) : M unit :=
  modify (fun w => set_refs (mkRefs (logger (refs w)) (whatsapp (refs w)) b) w).

(** [initialize()]: launches the browser and waits for WhatsApp Web. *)
Definition initialize : M unit :=
  record CallInitialize ;;
  l <- gets (fun w => launch (transport w)) ;;
  match l with
  | Some e => throw e
  | None => set_browser true
  end.

(** What driving the page comes to: the next scheduled delivery outcome. *)
Definition deliver : M unit :=
  fun w =>
    let t := transport w in
    match pop (deliveries t) with
    | (Some (Some e), rest) => (Err e, set_transport (mkTransport (launch t) rest) w)
    | (_, rest) => (Ok tt, set_transport (mkTransport (launch t) rest) w)
    end.

(** [sendMessage(phone, message, imagePath, imageCaption)]: without a page
    the first navigation throws. *)
Definition sendMessage (phone message image : string) (caption : option string) : M unit :=
  b <- gets (fun w => browser (refs w)) ;;
  if negb b then throw (TypeError "Cannot read properties of null (reading 'goto')")
  else
    record (CallSend phone message image caption) ;;
    deliver.

(** [takeScreenshot(filename)]: a no-op unless enabled; whatever fails
    inside is caught there.  The [screenshots] section of the configuration
    is taken to be present. *)
Definition takeScreenshot (config : Config) (filename : string) : M unit :=
  if screenshots_enabled config then record (CallScreenshot filename) else ret tt.

(** [close()] *)
Definition close : M unit :=
  b <- gets (fun w => browser (refs w)) ;;
  if b then record CallClose ;; set_browser false else ret tt.

(** [isRunning()] *)
Definition isRunning : M bool := gets (fun w => browser (refs w)).

End WhatsAppAutomation.

(** ** csvParser.js *)

Definition underscore : ascii := "_"%char.
Definition dash : ascii := "-"%char.

(** [key.toLowerCase().replace(/[_\s-]/g, '')] *)
Definition normalizeKey (key : string) : string :=
  Str.strip (fun c => Ascii.eqb c underscore || Str.is_space c || Ascii.eqb c dash)
            (Str.toLowerCase key).

Definition isPhoneKey (key : string) : bool :=
  let normalized := normalizeKey key in
  String.eqb normalized "phone" || String.eqb normalized "phonenumber".

(** [phone.replace(/[\s-()]/g, '')] *)
Definition separator (c : ascii) : bool :=
  Str.is_space c || Ascii.eqb c dash || Ascii.eqb c "("%char || Ascii.eqb c ")"%char.

Definition cleanPhone (phone : string) : string := Str.strip separator phone.

Record Invalid := mkInvalid { index : nat; contact : Contact; reason : string }.

(** The body of the [forEach] of [validateContacts]: the contact as it is
    pushed on [valid], or nothing when it goes to [invalid]. *)
Definition validateContact (c : Contact) : option Contact :=
  match List.find isPhoneKey (Obj.keys c) with
  | None => None
  | Some phoneField =>
      match Obj.get c phoneField with
      | None => None
      | Some v =>
          if field_truthy v then
            let c1 := if String.eqb phoneField "phone" then c
                      else Obj.delete (Obj.set c "phone" v) phoneField in
            let cleaned := cleanPhone (field_toString v) in
            let c2 := Obj.set c1 "phone" (FStr cleaned) in
            Some (if Str.startsWith cleaned "+"%char then c2
                  else Obj.set c2 "phone" (FStr ("+" ++ cleaned)))
          else None
      end
  end.

Fixpoint validateFrom (i : nat) (contacts : list Contact) : list Contact * list Invalid :=
  match contacts with
  | [] => ([], [])
  | c :: rest =>
      let (valid, invalid) := validateFrom (S i) rest in
      match validateContact c with
      | Some c' => (c' :: valid, invalid)
      | None => (valid, mkInvalid (i + 2) c "Missing phone number" :: invalid)
      end
  end.

(** [validateContacts(contacts)] *)
Definition validateContacts (contacts : list Contact) : list Contact * list Invalid :=
  validateFrom 0 contacts.

(** [contact.phone], as a template literal prints it. *)
Definition phoneOf (c : Contact) : string :=
  match Obj.get c "phone" with
  | Some v => field_toString v
  | None => "undefined"
  end.

(** [getAvailableFields(contacts)] *)
Definition getAvailableFields (contacts : list Contact) : list string :=
  match contacts with
  | [] => []
  | _ :: _ =>
      fold_left (fun fields contact => fold_left (JsSet.add String.eqb) (Obj.keys contact) fields)
                contacts []
  end.

(** ** templateRenderer.js *)

(** [p] is a prefix of [s], letter case aside. *)
Fixpoint prefix_ci (p s : string) : bool :=
  match p, s with
  | EmptyString, _ => true
  | String a p', String b s' => Ascii.eqb (Str.lower a) (Str.lower b) && prefix_ci p' s'
  | String _ _, EmptyString => false
  end.

(** [s.replace(new RegExp(pat, 'gi'), val)] for a pattern and a replacement
    that are read literally; [skip] characters of a match are still to be
    dropped. *)
Fixpoint replaceAll (pat val : string) (skip : nat) (s : string) : string :=
  match s with
  | EmptyString => EmptyString
  | String c s' =>
      match skip with
      | S k => replaceAll pat val k s'
      | O =>
          if prefix_ci pat s
          then val ++ replaceAll pat val (String.length pat - 1) s'
          else String c (replaceAll pat val 0 s')
      end
  end.

(** The three placeholder styles of one field, in the order of [patterns]. *)
Definition placeholders (field : string) : list string :=
  [("{{" ++ field ++ "}}")%string; ("{" ++ field ++ "}")%string; ("${" ++ field ++ "}")%string].

(** [renderTemplate(template, contact)].  The source builds its patterns
    with [new RegExp] from the raw field name and passes the raw value as
    replacement string; this definition is that function on field names
    made of word characters and on values free of [$], where name and value
    are read literally. *)
Definition renderTemplate (template : string) (contact : Contact) : Result string :=
  Ok (fold_left
        (fun rendered kv =>
           let value := if field_truthy (snd kv) then field_toString (snd kv) else "" in
           fold_left (fun r pat => replaceAll pat value 0 r) (placeholders (fst kv)) rendered)
        contact template).

(** The class [\w]: letters, digits and the underscore. *)
Definition isWordChar (c : ascii) : bool :=
  let n := nat_of_ascii c in
  ((48 <=? n)%nat && (n <=? 57)%nat) || ((65 <=? n)%nat && (n <=? 90)%nat)
  || ((97 <=? n)%nat && (n <=? 122)%nat) || (n =? 95)%nat.

(** The longest run of word characters [s] starts with, and what follows
    it. *)
Fixpoint wordRun (s : string) : string * string :=
  match s with
  | EmptyString => (EmptyString, EmptyString)
  | String c s' =>
      if isWordChar c
      then let (w, rest) := wordRun s' in (String c w, rest)
      else (EmptyString, s)
  end.

(** [s] without its prefix [p], if it starts with [p]. *)
Fixpoint dropPrefix (p s : string) : option string :=
  match p with
  | EmptyString => Some s
  | String a p' =>
      match s with
      | String b s' => if Ascii.eqb a b then dropPrefix p' s' else None
      | EmptyString => None
      end
  end.

(** A match of [opening(\w+)closing] at the very start of [s]: the group it
    captures and its length.  [\w+] is greedy, and giving characters back
    never helps it, as what follows is not a word character. *)
Definition matchAt (opening closing s : string) : option (string * nat) :=
  match dropPrefix opening s with
  | None => None
  | Some rest =>
      let (name, rest') := wordRun rest in
      if Str.truthy name then
        match dropPrefix closing rest' with
        | Some _ =>
            Some (name, (String.length opening + String.length name + String.length closing)%nat)
        | None => None
        end
      else None
  end.

(** The groups of the successive matches of the loop
    [while ((match = pattern.exec(template)) !== null)] for the global
    pattern [opening(\w+)closing]; [skip] characters of the last match are
    still to be passed. *)
Fixpoint execAll (opening closing : string) (skip : nat) (s : string) : list string :=
  match s with
  | EmptyString => []
  | String _ s' =>
      match skip with
      | S k => execAll opening closing k s'
      | O =>
          match matchAt opening closing s with
          | Some (name, len) => name :: execAll opening closing (len - 1) s'
          | None => execAll opening closing 0 s'
          end
      end
  end.

(** [patterns] of [extractPlaceholders], each as what stands before and
    after its group. *)
Definition patterns : list (string * string) := [("{{", "}}"); ("{", "}"); ("${", "}")].

(** [extractPlaceholders(template)] *)
Definition extractPlaceholders (template : string) : list string :=
  fold_left (fun set pattern =>
               fold_left (JsSet.add String.eqb)
                         (execAll (fst pattern) (snd pattern) 0 template) set)
            patterns [].

(** [availableFields.includes(p)] *)
Definition includes (l : list string) (p : string) : bool := existsb (String.eqb p) l.

Module Validation.
(** The object [validateTemplate] returns. *)
Record t := mk { valid : bool; placeholders : list string; missingFields : list string }.
End Validation.

(** [validateTemplate(template, availableFields)] *)
Definition validateTemplate (template : string) (availableFields : list string) : Validation.t :=
  let placeholders := extractPlaceholders template in
  let missingFields := filter (fun p => negb (includes availableFields p)) placeholders in
  Validation.mk (Nat.eqb (List.length missingFields) 0) placeholders missingFields.

(** ** index.js *)

Module App.

(** The fields of the application object that [initialize] settles for
    the rest of the run. *)
Record t := mk { config : Config; dryRun : bool; rateLimiter : RateLimiter.t }.

Definition set_logger (b : bool) : M unit :=
  modify (fun w => set_refs (mkRefs b (whatsapp (refs w)) (browser (refs w))) w).

Definition set_whatsapp (b : bool) : M unit :=
  modify (fun w => set_refs (mkRefs (logger (refs w)) b (browser (refs w))) w).

(** [loadConfig()] *)
Definition loadConfig : M Config :=
  r <- gets (fun w => config_yaml (inputs w)) ;;
  match r with
  | Ok c => ret c
  | Err e => throw (mkError ("Failed to load config from ./config.yaml: " ++ message e))
  end.

(** [initialize()] *)
Definition initialize : M t :=
  config <- loadConfig ;;
  set_logger true ;;
  dryRun <- gets (fun w => dry_run_flag (inputs w)) ;;
  StateTracker.new ;;
  StateTracker.load ;;
  rateLimiter <- RateLimiter.new (rate_limit config) ;;
  (if negb dryRun then set_whatsapp true else ret tt) ;;
  ret (mk config dryRun rateLimiter).

(** [parseContactsCSV(path)] *)
Definition parseContactsCSV : M (list Contact) :=
  r <- gets (fun w => contacts_rows (inputs w)) ;;
  match r with
  | Ok rows => ret rows
  | Err e => throw (mkError ("Failed to parse CSV: " ++ message e))
  end.

(** [loadTemplate(path)] *)
Definition loadTemplate (path : string) : M string :=
  r <- gets (fun w => template_text (inputs w)) ;;
  match r with
  | Ok text => ret text
  | Err e => throw (mkError ("Failed to load template from " ++ path ++ ": " ++ message e))
  end.

Definition sent_incr : M unit :=
  modify (fun w => let s := stats w in
                   set_stats (mkStats (total s) (S (sent s)) (skipped s) (failed s)) w).
Definition skipped_incr : M unit :=
  modify (fun w => let s := stats w in
                   set_stats (mkStats (total s) (sent s) (S (skipped s)) (failed s)) w).
Definition failed_incr : M unit :=
  modify (fun w => let s := stats w in
                   set_stats (mkStats (total s) (sent s) (skipped s) (S (failed s))) w).

(** [this.whatsapp.m(...)]: a call through the possibly [null] field. *)
Definition on_whatsapp {A : Type} (m : M A) : M A :=
  wa <- gets (fun w => whatsapp (refs w)) ;;
  if wa then m else throw (TypeError "Cannot read properties of null").

Section Run.
(** The template engine in use; [renderTemplate] is one. *)
Variable render : string -> Contact -> Result string.
Variable this : t.

(** The live send of the [try] block: rate limiting, the caption, and the
    transport call under [retryWithBackoff]. *)
Definition send (contact : Contact) (message : string) : M unit :=
  RateLimiter.wait (rateLimiter this) ;;
  renderedCaption <-
    (if Str.truthy (image_caption (config this))
     then c <- lift (render (image_caption (config this)) contact) ;; ret (Some c)
     else ret None) ;;
  retryWithBackoff
    (on_whatsapp
       (WhatsAppAutomation.sendMessage (phoneOf contact) message
          (image_path (config this)) renderedCaption))
    (retry (config this)).

(** The [try] block of the loop body. *)
Definition attempt (template : string) (contact : Contact) : M unit :=
  let phone := phoneOf contact in
  message <- lift (render template contact) ;;
  alreadySent <- StateTracker.wasMessageSent phone message ;;
  if alreadySent then
    StateTracker.getMessageInfo phone message ;;
    skipped_incr
  else if dryRun this then
    sent_incr
  else
    send contact message ;;
    StateTracker.markAsSent phone message [("contact", VObj contact)] ;;
    sent_incr.

(** Its [catch] block. *)
Definition recover (contact : Contact) (error : Error) : M unit :=
  failed_incr ;;
  wa <- gets (fun w => whatsapp (refs w)) ;;
  if wa && negb (dryRun this)
  then WhatsAppAutomation.takeScreenshot (config this) ("error_" ++ phoneOf contact)
  else ret tt.

(** The body of the [for] loop of [run], for one contact. *)
Definition processContact (template : string) (contact : Contact) : M unit :=
  try_catch (attempt template contact) (recover contact).

(** The [for] loop of [run]. *)
Fixpoint processContacts (template : string) (valid : list Contact) : M unit :=
  match valid with
  | [] => ret tt
  | contact :: rest =>
      processContact template contact ;;
      processContacts template rest
  end.

(** [const stats = {...}] and the [for] loop of [run] *)
Definition processAll (template : string) (valid : list Contact) : M unit :=
  modify (set_stats (mkStats (List.length valid) 0 0 0)) ;;
  processContacts template valid.

(** [run()]; its outer [catch] logs and rethrows. *)
Definition run : M unit :=
  contacts <- parseContactsCSV ;;
  let valid := fst (validateContacts contacts) in
  match valid with
  | [] => ret tt
  | _ :: _ =>
      template <-
        (if Str.truthy (message_template (config this))
            && Str.nonblank (message_template (config this))
         then loadTemplate (message_template (config this))
         else ret "") ;;
      (if negb (dryRun this) then on_whatsapp WhatsAppAutomation.initialize else ret tt) ;;
      processAll template valid
  end.

End Run.

(** [shutdown()] *)
Definition shutdown : M unit :=
  lg <- gets (fun w => logger (refs w)) ;;
  if negb lg then throw (TypeError "Cannot read properties of null (reading 'info')")
  else
    wa <- gets (fun w => whatsapp (refs w)) ;;
    running <- WhatsAppAutomation.isRunning ;;
    if wa && running then WhatsAppAutomation.close else ret tt.

(** How the process ends: [process.exit(code)], or a rejection of
    [main()] that nothing handles. *)
Inductive Termination : Type :=
| Exit (code : nat)
| UnhandledRejection (e : Error).

(** [new WhatsAppAutomationApp()]: every field is [null]. *)
Definition new : M unit := modify (set_refs (mkRefs false false false)).

(** [main()] *)
Definition main (render : string -> Contact -> Result string) (w : World)
  : Termination * World :=
  match (new ;; app <- initialize ;; run render app ;; shutdown) w with
  | (Ok _, w') => (Exit 0, w')
  | (Err _, w') =>
      match shutdown w' with
      | (Ok _, w'') => (Exit 1, w'')
      | (Err e, w'') => (UnhandledRejection e, w'')
      end
  end.

End App.

(** * Vocabulary of the properties *)

(** [m] leaves the observation [f] of the world as it found it, whether it
    returns or throws. *)
Definition preserves {X A : Type} (f : World -> X) (m : M A) : Prop :=
  forall w, f (exec m w) = f w.

(** [m] only ever moves the world along [R]. *)
Definition respects {A : Type} (R : World -> World -> Prop) (m : M A) : Prop :=
  forall w, R w (exec m w).

(** The entries of the in-memory ledger. *)
Definition ledger (w : World) : JsObject Entry := sentMessages (tracker w).

(** The ledger of [w'] has every fingerprint of the ledger of [w]. *)
Definition extends (w w' : World) : Prop :=
  forall k, Obj.has (ledger w) k = true -> Obj.has (ledger w') k = true.

(** The entry [markAsSent] writes when the clock reads [n]. *)
Definition entryOf (phone message : string) (n : Q) (metadata : JsObject JsVal) : Entry :=
  Obj.spread [("phone", VStr phone);
              ("messageHash", VStr (StateTracker.generateHash phone message));
              ("timestamp", VIso n)] metadata.

(** An operation of the ledger's send-path interface. *)
Inductive LedgerOp : Type :=
| WasMessageSent (phone message : string)
| GetMessageInfo (phone message : string)
| MarkAsSent (phone message : string) (metadata : JsObject JsVal).

(** The world after the caller has issued [op], whether it returned or threw. *)
Definition perform (w : World) (op : LedgerOp) : World :=
  match op with
  | WasMessageSent phone message => exec (StateTracker.wasMessageSent phone message) w
  | GetMessageInfo phone message => exec (StateTracker.getMessageInfo phone message) w
  | MarkAsSent phone message metadata =>
      exec (StateTracker.markAsSent phone message metadata) w
  end.

(** The operations that only consult the ledger. *)
Definition readOnly (op : LedgerOp) : Prop :=
  match op with
  | MarkAsSent _ _ _ => False
  | _ => True
  end.

(** The state file holds an entry under [hash]. *)
Definition persisted (w : World) (hash : string) : bool :=
  match file (fs w) with
  | Some (Stored st) => Obj.has (sentMessages st) hash
  | _ => false
  end.

(** The next [n] calls of [mkdir] and [writeFile] meet no fault. *)
Definition faultless (n : nat) (w : World) : Prop :=
  forall e, ~ In (Some e) (firstn n (faults (fs w))).

(** Everything in the world but the counters of the run: the ledger, the
    pacing gate, the application's references, the clock, the scripts still
    to be met, the disk, and the trace of sleeps and transport calls. *)
Definition surroundings (w : World) :=
  (tracker w, lastMessageTime w, refs w, timer w, outcomes w, transport w, fs w,
   inputs w, trace w).

(** The three ways a contact is counted. *)
Definition countSent (s : Stats) : Stats := mkStats (total s) (S (sent s)) (skipped s) (failed s).
Definition countSkipped (s : Stats) : Stats := mkStats (total s) (sent s) (S (skipped s)) (failed s).
Definition countFailed (s : Stats) : Stats := mkStats (total s) (sent s) (skipped s) (S (failed s)).

(** On return [m] has counted the contact as [post] says; on a throw it has
    not counted it. *)
Definition counts (post : Stats -> Stats) (m : M unit) : Prop :=
  forall w,
    match m w with
    | (Ok _, w') => stats w' = post (stats w)
    | (Err _, w') => stats w' = stats w
    end.

(** The world once [invoke] has met its outcome. *)
Definition invoked (w : World) : World :=
  set_outcomes (snd (pop (outcomes w))) (set_trace (trace w ++ [Invoked]) w).

(** The world once [sleep ms] has returned. *)
Definition slept (ms : Q) (w : World) : World := exec (sleep ms) w.

(** The delays of the specification: [k] of them, the first one [d], each
    next one [min(delay * backoff_multiplier, max_delay_ms)]. *)
Fixpoint backoffFrom (c : RetryConfig) (d : Q) (k : nat) : list Q :=
  match k with
  | O => []
  | S k' =>
      d :: backoffFrom c (Qmin (d * default (backoff_multiplier c) 2)
                               (default (max_delay_ms c) 10000)) k'
  end.

(** Invocations with a sleep between each two, and none after the last. *)
Fixpoint interleave (ds : list Q) : list Event :=
  match ds with
  | [] => [Invoked]
  | d :: ds' => Invoked :: Slept d :: interleave ds'
  end.

(** The failures a script starts with. *)
Fixpoint leadingErrors (rs : list (Result JsVal)) : list Error :=
  match rs with
  | Err e :: rs' => e :: leadingErrors rs'
  | _ => []
  end.

(** The value of the first success of a script. *)
Fixpoint firstSuccess (rs : list (Result JsVal)) : JsVal :=
  match rs with
  | [] => VUndefined
  | Ok v :: _ => v
  | Err _ :: rs' => firstSuccess rs'
  end.

(** The aggregate error after [n] failed attempts, the last one with [e]. *)
Definition exhausted (n : nat) (e : Error) : Error :=
  mkError ("Operation failed after " ++ Str.of_nat n ++ " attempts. Last error: " ++ message e).

(** What [wait] finds: the time since the recorded last call. *)
Definition sinceLast (w : World) : Q := clock (elapse (timer w)) - lastMessageTime w.

(** Timers set for a delay of at most [upTo] fire at most [slack] early. *)
Definition firesWithin (slack upTo : Q) (fires : Q -> N) : Prop :=
  forall ms : Q,
    (0 < ms)%Q -> (ms <= upTo)%Q -> (ms - slack <= inject_Z (Z.of_N (fires ms)))%Q.

(** [n] consecutive calls of [wait]. *)
Definition waits (this : RateLimiter.t) (n : nat) (w : World) : World :=
  Nat.iter n (exec (RateLimiter.wait this)) w.

(** International format: a [+], then digits only. *)
Definition international (s : string) : bool :=
  match s with
  | String c rest => Ascii.eqb c "+"%char && Str.forallb Str.is_digit rest
  | EmptyString => false
  end.

(** What [validateContacts] makes of the text of a phone cell. *)
Definition normalizePhone (raw : string) : string :=
  let cleaned := cleanPhone raw in
  if Str.startsWith cleaned "+"%char then cleaned else "+" ++ cleaned.

(** The contacts that pass, in order. *)
Definition passing (contacts : list Contact) : list Contact :=
  flat_map (fun c => match validateContact c with Some c' => [c'] | None => [] end) contacts.

(** The separator of [generateHash]. *)
Definition colon : ascii := ":"%char.

(** No character of [s] is the separator. *)
Definition colonFree (s : string) : bool := Str.forallb (fun c => negb (Ascii.eqb c colon)) s.

(** ** Rows of the contacts file *)

(** [validateContacts] puts the row on [invalid]. *)
Definition rejected (c : Contact) : bool :=
  match validateContact c with Some _ => false | None => true end.

(** The row has no phone-like column besides [phone] and the first one. *)
Definition phoneColumnSettled (c : Contact) : Prop :=
  forall k, In k (Obj.keys c) -> isPhoneKey k = true ->
            k = "phone" \/ List.find isPhoneKey (Obj.keys c) = Some k.

(** ** Templates *)

(** [x] occurs in [t]. *)
Definition occursIn (x t : string) : Prop :=
  exists pre post : string, t = (pre ++ x ++ post)%string.

(** What [\w+] matches in full: a word. *)
Definition isWord (s : string) : bool := Str.truthy s && Str.forallb isWordChar s.

Definition openBrace : ascii := "{"%char.

(** No opening brace in [s]. *)
Definition noOpen (s : string) : bool := Str.forallb (fun c => negb (Ascii.eqb c openBrace)) s.

(** What follows a word is not a word character. *)
Definition ends (r : string) : Prop :=
  match r with String c _ => isWordChar c = false | EmptyString => True end.

(** The first [n] characters of [s] hold no opening brace. *)
Fixpoint clearOfOpen (n : nat) (s : string) : Prop :=
  match n, s with
  | S k, String c s' => c <> openBrace /\ clearOfOpen k s'
  | _, _ => True
  end.

(** [pat] matches somewhere in [s], letter case aside. *)
Fixpoint occursCI (pat s : string) : bool :=
  prefix_ci pat s
  || match s with
     | String _ s' => occursCI pat s'
     | EmptyString => false
     end.

(** [text] holds a placeholder of [field], in one of the three styles. *)
Definition mentions (text field : string) : bool :=
  existsb (fun p => occursCI p text) (placeholders field).

(** What is put in the place of a field: [contact[field] || '']. *)
Definition shown (v : Field) : string := if field_truthy v then field_toString v else "".

Definition dollar : ascii := "$"%char.

(** The contacts on which field names and values are read literally: names
    are words, values hold no [$]. *)
Definition literal (contact : Contact) : bool :=
  List.forallb (fun kv => isWord (fst kv)
                          && Str.forallb (fun c => negb (Ascii.eqb c dollar)) (shown (snd kv)))
               contact.




(** One field of the contact, through its three patterns. *)
Definition substitute (rendered : string) (kv : string * Field) : string :=
  fold_left (fun r pat => replaceAll pat (shown (snd kv)) 0 r) (placeholders (fst kv)) rendered.

(** ** Calls of the transport *)

Definition isSend (e : Event) : bool :=
  match e with
  | Called (CallSend _ _ _ _) => true
  | _ => false
  end.

(** The number of [sendMessage] calls the transport has received. *)
Definition sendCalls (w : World) : nat := List.length (filter isSend (trace w)).

(** [m] makes at most [n] calls of [sendMessage]. *)
Definition sendsAtMost {A : Type} (n : nat) (m : M A) : Prop :=
  forall w, (sendCalls (exec m w) <= sendCalls w + n)%nat.

(** The attempts a retry configuration allows; without one, the call
    throws before the first. *)
Definition attemptsAllowed (config : option RetryConfig) : nat :=
  match config with
  | Some c => default (max_attempts c) 3%nat
  | None => 0%nat
  end.

(** The last thing the transport was asked is to send [message] to [phone]. *)
Definition lastCallSends (phone message : string) (w : World) : Prop :=
  exists earlier image caption,
    trace w = earlier ++ [Called (CallSend phone message image caption)].

(** What happens between the launch of the browser and its closing: sleeps,
    sends and screenshots. *)
Definition withinSession (e : Event) : Prop :=
  match e with
  | Called CallInitialize | Called CallClose => False
  | _ => True
  end.

(** [m] only adds events that satisfy [P] to the trace. *)
Definition adds {A : Type} (P : Event -> Prop) (m : M A) : Prop :=
  forall w, exists more, trace (exec m w) = trace w ++ more /\ Forall P more.

(** ** The ledger and its file *)

(** The number of fingerprints in the ledger. *)
Definition tracked (w : World) : nat := List.length (Obj.keys (ledger w)).

(** The entries [cleanup] keeps when it reads the clock in [w]. *)
Definition survivors (daysBefore : Q -> Z -> Q) (parseDate : string -> option Q)
    (days : option Z) (w : World) : JsObject Entry :=
  filter (fun kv => StateTracker.notBefore parseDate
                      (daysBefore (clock (elapse (timer w))) (default days 30%Z)) (snd kv))
         (ledger w).

(** The first fault among the next [n] calls of [mkdir] and [writeFile]. *)
Fixpoint firstFault (n : nat) (l : list (option Fault)) : option Fault :=
  match n, l with
  | S _, Some f :: _ => Some f
  | S k, None :: l' => firstFault k l'
  | _, _ => None
  end.

(** * Worlds and inputs of the examples *)

(** The configuration of the README: one message per second, three
    attempts, delays from one second up to ten, doubling. *)
Definition exampleConfig : Config :=
  mkConfig "contacts.csv" "template.txt" "data/state.json" 1
           (Some (mkRetryConfig (Some 3%nat) (Some 1000) (Some 10000) (Some 2)))
           "" "" false.

(** A world to run examples in: nothing on disk, no faults, a transport that
    launches and delivers, the clock at an arbitrary instant, timers as Node
    schedules them. *)
Definition freshWorld : World :=
  mkWorld (mkStats 0 0 0 0) StateTracker.initial 0
          (mkRefs false false false)
          (mkTimer 1700000000000 [] nodeTimeout)
          []
          (mkTransport None [])
          (mkFs None [])
          (mkInputs (Ok exampleConfig) (Ok []) (Ok "Hello {{name}}") false)
          [].

(** A failure of the network. *)
Definition boom : Error := mkError "net::ERR_CONNECTION_RESET".

(** The retry policy of the specification's retry bound. *)
Definition examplePolicy : RetryConfig :=
  mkRetryConfig (Some 3%nat) (Some 1000) (Some 10000) (Some 2).

(** An operation that fails whenever it is tried. *)
Definition alwaysFailing : World := set_outcomes [Err boom; Err boom; Err boom] freshWorld.

(** A row whose phone is written with dots. *)
Definition dottedRow : Contact := [("name", FStr "Ann"); ("Phone", FStr "555.123.4567")].

(** Two valid contacts. *)
Definition ann : Contact := [("name", FStr "Ann"); ("phone", FStr "+15551230001")].
Definition bob : Contact := [("name", FStr "Bob"); ("phone", FStr "+15551230002")].

(** The application after [initialize], in a dry run and in a live one. *)
Definition dryApp : App.t := App.mk exampleConfig true (RateLimiter.mk 1 (1000 / 1)).
Definition liveApp : App.t := App.mk exampleConfig false (RateLimiter.mk 1 (1000 / 1)).

(** A world in which the application is initialized for a live run: the
    logger, the transport and its browser are there. *)
Definition liveWorld : World := set_refs (mkRefs true true true) freshWorld.

(** A failure of the disk. *)
Definition diskFull : Error := mkError "ENOSPC: no space left on device".

(** What [JSON.parse] says of a text that ends too soon. *)
Definition cutShort : Error := mkError "Unexpected end of JSON input".

(** The first write to the state file fails, later ones succeed. *)
Definition flakyDisk : World :=
  set_fs (mkFs None [None; Some (Torn diskFull cutShort)]) liveWorld.

(** The world a live run over Ann and Bob leaves on that disk. *)
Definition afterFlakyRun : World :=
  exec (App.processAll renderTemplate liveApp "Hello {{name}}" [ann; bob]) flakyDisk.

(** A later process: the memory of the tracker is new, the disk is kept. *)
Definition laterProcess : World := set_tracker StateTracker.initial afterFlakyRun.

(** The rows of a contacts file: a number for a phone, a phone written with
    separators, and a row without a phone. *)
Definition exampleRows : list Contact :=
  [ [("Name", FStr "Ann"); ("Phone", FNum 15551230001)];
    [("Name", FStr "Bob"); ("Phone Number", FStr "+1 (555) 123-0002")];
    [("Name", FStr "Cy"); ("Email", FStr "cy@example.org")] ].

(** The world a process starts in: no state file yet, the rows above, and
    the given mode and delivery outcomes. *)
Definition processStart (dry : bool) (deliveries : list (option Error)) : World :=
  mkWorld (mkStats 0 0 0 0) StateTracker.initial 0 (mkRefs false false false)
          (mkTimer 1700000000000 [] nodeTimeout) [] (mkTransport None deliveries) (mkFs None [])
          (mkInputs (Ok exampleConfig) (Ok exampleRows) (Ok "Hello {{name}}") dry) [].

(** The same start, over a state file that is not JSON. *)
Definition corruptStart : World :=
  set_fs (mkFs (Some (Malformed (mkError "Unexpected token } in JSON at position 17"))) [])
         (processStart false []).

(** A configuration that allows no attempt. *)
Definition noAttemptConfig : Config :=
  mkConfig "contacts.csv" "template.txt" "data/state.json" 1
           (Some (mkRetryConfig (Some 0%nat) None None None))
           "" "" false.

Definition noAttemptApp : App.t := App.mk noAttemptConfig false (RateLimiter.mk 1 (1000 / 1)).

(** A transport on which three deliveries in a row fail. *)
Definition deadLine : World :=
  set_transport (mkTransport None [Some boom; Some boom; Some boom]) liveWorld.

(** A disk on which the directory of the state file cannot be made. *)
Definition noMkdir : Error := mkError "EROFS: read-only file system, mkdir 'data'".

Definition readOnlyDisk : World :=
  set_fs (mkFs None [Some (Refused noMkdir)]) (processStart false []).

(** A process started next to no [config.yaml]. *)
Definition noConfigStart : World :=
  mkWorld (mkStats 0 0 0 0) StateTracker.initial 0 (mkRefs false false false)
          (mkTimer 1700000000000 [] nodeTimeout) [] (mkTransport None []) (mkFs None [])
          (mkInputs (Err (mkError "ENOENT: no such file or directory, open './config.yaml'"))
                    (Ok exampleRows) (Ok "Hello {{name}}") false) [].

(** A process started on a contacts file that does not parse. *)
Definition badCsvStart : World :=
  mkWorld (mkStats 0 0 0 0) StateTracker.initial 0 (mkRefs false false false)
          (mkTimer 1700000000000 [] nodeTimeout) [] (mkTransport None []) (mkFs None [])
          (mkInputs (Ok exampleConfig) (Err (mkError "Invalid Record Length"))
                    (Ok "Hello {{name}}") false) [].

(** The calendar of a zone without clock changes, and a parser that reads no
    string as a date. *)
Definition plainDaysBefore (d : Q) (n : Z) : Q := d - inject_Z (n * 86400000).
Definition noDate (s : string) : option Q := None.

(** A ledger with an entry from the epoch and one from now. *)
Definition agedLedger : World :=
  set_tracker
    (mkTrackerState
       [("aa", [("phone", VStr "+15551230001"); ("messageHash", VStr "aa");
                ("timestamp", VIso 0)]);
        ("bb", [("phone", VStr "+15551230002"); ("messageHash", VStr "bb");
                ("timestamp", VIso 1700000000000)])]
       None)
    freshWorld.

(** * Properties *)

(** ** Dictionaries *)

Section ObjTheory.
Context {V : Type}.
Implicit Types (o : JsObject V) (k : string) (v : V).

Lemma get_set_eq o k v : Obj.get (Obj.set o k v) k = Some v.
Proof.
  induction o as [|[k' v'] o IH]; simpl.
  - now rewrite String.eqb_refl.
  - destruct (String.eqb k' k) eqn:E; simpl; now rewrite E.
Qed.

Lemma get_set_ne o k k' v : k <> k' -> Obj.get (Obj.set o k v) k' = Obj.get o k'.
Proof.
  intros Hne. induction o as [|[k0 v0] o IH]; simpl.
  - destruct (String.eqb_spec k k'); congruence.
  - destruct (String.eqb_spec k0 k) as [->|]; simpl.
    + destruct (String.eqb_spec k k'); congruence.
    + now rewrite IH.
Qed.

Lemma has_set o k k' v :
  Obj.has (Obj.set o k v) k' = String.eqb k k' || Obj.has o k'.
Proof.
  unfold Obj.has. destruct (String.eqb_spec k k') as [->|Hne].
  - now rewrite get_set_eq.
  - now rewrite get_set_ne.
Qed.

Lemma has_In o k : Obj.has o k = true <-> In k (Obj.keys o).
Proof.
  unfold Obj.has. induction o as [|[k' v'] o IH]; simpl.
  - split; [discriminate | tauto].
  - destruct (String.eqb_spec k' k) as [->|Hne].
    + split; auto.
    + rewrite IH. split; [auto | intros [?|?]; congruence].
Qed.

(** Assignment appends a key only when it is new. *)
Lemma keys_set o k v :
  Obj.keys (Obj.set o k v) = if Obj.has o k then Obj.keys o else Obj.keys o ++ [k].
Proof.
  unfold Obj.has, Obj.keys. induction o as [|[k' v'] o IH]; simpl; [reflexivity|].
  destruct (String.eqb_spec k' k) as [->|Hne]; simpl; [reflexivity|].
  rewrite IH. now destruct (Obj.get o k).
Qed.

Lemma wf_set o k v : Obj.wf o -> Obj.wf (Obj.set o k v).
Proof.
  unfold Obj.wf. intros Hwf. rewrite keys_set.
  destruct (Obj.has o k) eqn:E; [assumption|].
  apply NoDup_app; [assumption | repeat constructor; simpl; tauto |].
  intros x Hx [<-|[]]. apply has_In in Hx. congruence.
Qed.

Lemma count_keys_set o k v :
  Obj.wf o -> count_occ string_dec (Obj.keys (Obj.set o k v)) k = 1%nat.
Proof.
  intros Hwf. apply NoDup_count_occ'.
  - now apply wf_set.
  - apply has_In. rewrite has_set, String.eqb_refl. reflexivity.
Qed.

End ObjTheory.

(** ** Evaluation of monadic code *)

Lemma exec_bind {A B : Type} (m : M A) (k : A -> M B) (w : World) :
  exec (bind m k) w =
  match eval m w with
  | Ok a => exec (k a) (exec m w)
  | Err _ => exec m w
  end.
Proof. unfold exec, eval, bind. now destruct (m w) as [[a|e] w']. Qed.

Lemma eval_bind {A B : Type} (m : M A) (k : A -> M B) (w : World) :
  eval (bind m k) w =
  match eval m w with
  | Ok a => eval (k a) (exec m w)
  | Err e => Err e
  end.
Proof. unfold exec, eval, bind. now destruct (m w) as [[a|e] w']. Qed.

Section Frame.
Context {X : Type} (f : World -> X).

Lemma preserves_ret {A} (a : A) : preserves f (ret a).
Proof. now intros w. Qed.

Lemma preserves_throw {A} e : preserves f (@throw A e).
Proof. now intros w. Qed.

Lemma preserves_gets {A} (g : World -> A) : preserves f (gets g).
Proof. now intros w. Qed.

Lemma preserves_lift {A} (r : Result A) : preserves f (lift r).
Proof. now intros w. Qed.

Lemma preserves_modify (g : World -> World) :
  (forall w, f (g w) = f w) -> preserves f (modify g).
Proof. intros H w. apply H. Qed.

Lemma preserves_bind {A B} (m : M A) (k : A -> M B) :
  preserves f m -> (forall a, preserves f (k a)) -> preserves f (bind m k).
Proof.
  intros Hm Hk w. rewrite exec_bind.
  destruct (eval m w); [rewrite Hk|]; apply Hm.
Qed.

Lemma preserves_try_catch {A} (m : M A) (h : Error -> M A) :
  preserves f m -> (forall e, preserves f (h e)) -> preserves f (try_catch m h).
Proof.
  intros Hm Hh w. specialize (Hm w). specialize (Hh).
  unfold exec, try_catch in *.
  destruct (m w) as [[a|e] w']; simpl in *; [assumption|].
  specialize (Hh e w'). unfold exec in Hh. congruence.
Qed.

End Frame.

Create HintDb frame.

(** Frame conditions of compound code, from those of its parts. *)
Ltac frame :=
  repeat first
    [ solve [auto with frame]
    | match goal with
      | |- preserves _ (ret _) => apply preserves_ret
      | |- preserves _ (throw _) => apply preserves_throw
      | |- preserves _ (gets _) => apply preserves_gets
      | |- preserves _ (lift _) => apply preserves_lift
      | |- preserves _ (modify _) => apply preserves_modify; intro; reflexivity
      | |- preserves _ (bind _ _) => apply preserves_bind; [|intro]
      | |- preserves _ (try_catch _ _) => apply preserves_try_catch; [|intro]
      | |- preserves _ (if ?b then _ else _) => destruct b
      | |- preserves _ (match ?x with _ => _ end) => destruct x
      end ].

(** The primitives of the runtime touch one component of the world each. *)
Ltac prim :=
  let w := fresh "w" in
  intro w; unfold exec;
  cbv [now sleep emit bind fs_mutation mkdir writeFile invoke pop
       WhatsAppAutomation.deliver WhatsAppAutomation.record WhatsAppAutomation.set_browser
       App.set_logger App.set_whatsapp App.sent_incr App.skipped_incr App.failed_incr
       StateTracker.new RateLimiter.reset modify gets ret throw];
  repeat match goal with
         | |- context [match ?x with _ => _ end] => destruct x
         end;
  reflexivity.

#[export] Hint Extern 1 (preserves _ now) => prim : frame.
#[export] Hint Extern 1 (preserves _ (sleep _)) => prim : frame.
#[export] Hint Extern 1 (preserves _ (fs_mutation _ _)) => prim : frame.
#[export] Hint Extern 1 (preserves _ mkdir) => prim : frame.
#[export] Hint Extern 1 (preserves _ (writeFile _)) => prim : frame.
#[export] Hint Extern 1 (preserves _ invoke) => prim : frame.
#[export] Hint Extern 1 (preserves _ (WhatsAppAutomation.record _)) => prim : frame.
#[export] Hint Extern 1 (preserves _ WhatsAppAutomation.deliver) => prim : frame.
#[export] Hint Extern 1 (preserves _ (WhatsAppAutomation.set_browser _)) => prim : frame.
#[export] Hint Extern 1 (preserves _ (App.set_logger _)) => prim : frame.
#[export] Hint Extern 1 (preserves _ (App.set_whatsapp _)) => prim : frame.
#[export] Hint Extern 1 (preserves _ App.sent_incr) => prim : frame.
#[export] Hint Extern 1 (preserves _ App.skipped_incr) => prim : frame.
#[export] Hint Extern 1 (preserves _ App.failed_incr) => prim : frame.

(** ** The ledger *)

#[local] Arguments StateTracker.generateHash : simpl never.

Lemma save_ledger : preserves ledger StateTracker.save.
Proof. unfold StateTracker.save, ledger. frame. Qed.
#[export] Hint Resolve save_ledger : frame.

(** [markAsSent] assigns the entry in memory, whatever becomes of the write
    that follows. *)
Lemma markAsSent_ledger phone message metadata w :
  ledger (exec (StateTracker.markAsSent phone message metadata) w)
  = Obj.set (ledger w) (StateTracker.generateHash phone message)
            (entryOf phone message (clock (elapse (timer w))) metadata).
Proof.
  unfold StateTracker.markAsSent.
  rewrite exec_bind. cbn [eval now fst].
  rewrite exec_bind. cbn [eval modify fst].
  rewrite save_ledger. reflexivity.
Qed.

Lemma wasMessageSent_exec phone message w :
  exec (StateTracker.wasMessageSent phone message) w = w.
Proof. reflexivity. Qed.

Lemma getMessageInfo_exec phone message w :
  exec (StateTracker.getMessageInfo phone message) w = w.
Proof. reflexivity. Qed.

Lemma perform_wf w op : Obj.wf (ledger w) -> Obj.wf (ledger (perform w op)).
Proof.
  destruct op; simpl; auto.
  rewrite markAsSent_ledger. apply wf_set.
Qed.

Lemma perform_keeps w op k :
  Obj.has (ledger w) k = true -> Obj.has (ledger (perform w op)) k = true.
Proof.
  destruct op; simpl; auto.
  rewrite markAsSent_ledger, has_set. intros ->. apply orb_true_r.
Qed.

(** C5. Marking the same (phone, message) twice, with whatever metadata,
    leaves exactly one ledger entry under its fingerprint, the second call
    overwriting the first without adding a key; and after any sequence of
    [wasMessageSent], [getMessageInfo] and [markAsSent] calls every
    fingerprint still occurs once, and every fingerprint present before is
    still present. *)
Theorem markAsSent_idempotent_append_only :
  forall w : World,
    Obj.wf (ledger w) ->
    (forall phone message metadata1 metadata2,
        let hash := StateTracker.generateHash phone message in
        let w1 := exec (StateTracker.markAsSent phone message metadata1) w in
        let w2 := exec (StateTracker.markAsSent phone message metadata2) w1 in
        count_occ string_dec (Obj.keys (ledger w2)) hash = 1%nat
        /\ Obj.keys (ledger w2) = Obj.keys (ledger w1)
        /\ Obj.get (ledger w2) hash
           = Some (entryOf phone message (clock (elapse (timer w1))) metadata2))
    /\ (forall ops : list LedgerOp,
           let w' := fold_left perform ops w in
           NoDup (Obj.keys (ledger w'))
           /\ forall k, Obj.has (ledger w) k = true -> Obj.has (ledger w') k = true).
Proof.
  intros w Hwf. split.
  - intros phone message metadata1 metadata2 hash w1 w2. subst w1 w2.
    rewrite !markAsSent_ledger. fold hash. repeat split.
    + apply count_keys_set, wf_set, Hwf.
    + rewrite (keys_set (Obj.set _ _ _)), has_set, String.eqb_refl. reflexivity.
    + apply get_set_eq.
  - intros ops. revert w Hwf.
    induction ops as [|op ops IH]; intros w Hwf; simpl.
    + split; auto.
    + destruct (IH (perform w op) (perform_wf w op Hwf)) as [Hnd Hkeep].
      split; [exact Hnd|]. intros k Hk. apply Hkeep, perform_keeps, Hk.
Qed.

Lemma markAsSent_idempotent_append_only_witness :
  Obj.wf (ledger freshWorld)
  /\ count_occ string_dec
       (Obj.keys (ledger (exec (StateTracker.markAsSent "+15551234567" "Hello Ann" [])
                           (exec (StateTracker.markAsSent "+15551234567" "Hello Ann" [])
                              freshWorld))))
       (StateTracker.generateHash "+15551234567" "Hello Ann") = 1%nat.
Proof.
  assert (H : Obj.wf (ledger freshWorld)) by constructor.
  split; [exact H|].
  apply (proj1 (markAsSent_idempotent_append_only freshWorld H)
           "+15551234567" "Hello Ann" [] []).
Defined.

(** ** Retry with backoff *)

Lemma attempts_step {A : Type} (fn : M A) max maxDelay multiplier left attempt delay lastError :
  attempts fn max maxDelay multiplier (S left) attempt delay lastError
  = try_catch fn
      (fun error =>
         if (attempt <? max)%nat
         then sleep delay ;;
              attempts fn max maxDelay multiplier left (S attempt)
                       (Qmin (delay * multiplier) maxDelay) (Some error)
         else attempts fn max maxDelay multiplier left (S attempt) delay (Some error)).
Proof. reflexivity. Qed.

Lemma invoke_run w :
  invoke w = (match outcomes w with r :: _ => r | [] => Ok VUndefined end, invoked w).
Proof.
  unfold invoke, invoked, emit, bind, modify. cbn [outcomes set_trace].
  now destruct (outcomes w).
Qed.

Lemma sleep_run ms w : sleep ms w = (Ok tt, slept ms w).
Proof. reflexivity. Qed.

Section RetryTheory.
Variable c : RetryConfig.

Let max : nat := default (max_attempts c) 3%nat.
Let maxDelay : Q := default (max_delay_ms c) 10000.
Let multiplier : Q := default (backoff_multiplier c) 2.

Lemma attempts_invoke :
  forall (left attempt : nat) (delay : Q) (lastError : option Error) (w : World),
    (attempt + left = max)%nat ->
    let m := attempts invoke max maxDelay multiplier (S left) attempt delay lastError in
    let errs := leadingErrors (outcomes w) in
    trace (exec m w) = trace w ++ interleave (backoffFrom c delay (Nat.min (List.length errs) left))
    /\ outcomes (exec m w) = skipn (Nat.min (S (List.length errs)) (S left)) (outcomes w)
    /\ eval m w = if (List.length errs <=? left)%nat
                  then Ok (firstSuccess (outcomes w))
                  else Err (exhausted max (nth left errs (mkError ""))).
Proof.
  induction left as [|left IH]; intros attempt delay lastError w Hmax m errs;
    subst m errs; rewrite attempts_step; unfold exec, eval, try_catch;
    rewrite invoke_run.
  - replace attempt with max by lia. rewrite Nat.ltb_irrefl.
    destruct (outcomes w) as [|[v|e] rs] eqn:Hrs; cbn; rewrite ?Hrs; auto.
  - assert (Hlt : (attempt <? max)%nat = true) by (apply Nat.ltb_lt; lia).
    rewrite Hlt.
    destruct (outcomes w) as [|[v|e] rs] eqn:Hrs.
    + cbn. rewrite Hrs. auto.
    + cbn. rewrite Hrs. auto.
    + unfold bind. rewrite sleep_run.
      specialize (IH (S attempt) (Qmin (delay * multiplier) maxDelay) (Some e)
                     (slept delay (invoked w)) ltac:(lia)).
      cbv zeta in IH. unfold exec, eval in IH.
      replace (outcomes (slept delay (invoked w))) with rs in IH
        by (cbn; now rewrite Hrs).
      replace (trace (slept delay (invoked w))) with (trace w ++ [Invoked; Slept delay]) in IH
        by (cbn; now rewrite <- app_assoc).
      destruct IH as (Ht & Ho & He). rewrite Ht, Ho, He.
      cbn [leadingErrors List.length Nat.min backoffFrom interleave skipn nth Nat.leb].
      rewrite <- app_assoc. cbn [app]. auto.
Qed.

End RetryTheory.

Lemma leadingErrors_app es rs :
  leadingErrors (map Err es ++ rs) = es ++ leadingErrors rs.
Proof. induction es as [|e es IH]; simpl; [reflexivity | now rewrite IH]. Qed.

Lemma firstSuccess_app es rs : firstSuccess (map Err es ++ rs) = firstSuccess rs.
Proof. induction es as [|e es IH]; simpl; auto. Qed.

Lemma skipn_map_app {A B : Type} (f : A -> B) (l : list A) (rest : list B) :
  skipn (List.length l) (map f l ++ rest) = rest.
Proof. induction l as [|x l IH]; simpl; auto. Qed.

(** C2. With [max_attempts >= 1], [retryWithBackoff] invokes the operation at
    most [max_attempts] times and sleeps only between two invocations, for
    the delays [initial_delay_ms], [min(delay * backoff_multiplier,
    max_delay_ms)], ...; the first success is returned at once, nothing more
    being invoked; when every attempt fails the aggregate error names
    [max_attempts] and carries the message of the last failure. *)
Theorem retryWithBackoff_bounded_backoff :
  forall (c : RetryConfig) (w : World),
    let max := default (max_attempts c) 3%nat in
    let initial := default (initial_delay_ms c) 1000 in
    let m := retryWithBackoff invoke (Some c) in
    (1 <= max)%nat ->
    (exists k, (k < max)%nat
               /\ trace (exec m w) = trace w ++ interleave (backoffFrom c initial k))
    /\ (forall es v rest,
           outcomes w = map Err es ++ Ok v :: rest ->
           (List.length es < max)%nat ->
           eval m w = Ok v
           /\ trace (exec m w)
              = trace w ++ interleave (backoffFrom c initial (List.length es))
           /\ outcomes (exec m w) = rest)
    /\ (forall es e rest,
           outcomes w = map Err (es ++ [e]) ++ rest ->
           (List.length es + 1 = max)%nat ->
           eval m w = Err (exhausted max e)
           /\ trace (exec m w)
              = trace w ++ interleave (backoffFrom c initial (max - 1))
           /\ outcomes (exec m w) = rest).
Proof.
  intros c w max initial m Hmax.
  destruct max as [|left] eqn:Emax; [lia|].
  pose proof (attempts_invoke c left 1 initial None w) as H.
  cbv zeta in H. fold max in H. rewrite Emax in H.
  specialize (H ltac:(lia)).
  assert (Hm : m = attempts invoke (S left) (default (max_delay_ms c) 10000)
                     (default (backoff_multiplier c) 2) (S left) 1 initial None).
  { unfold m, retryWithBackoff. fold max. now rewrite Emax. }
  rewrite <- Hm in H. destruct H as (Ht & Ho & He).
  split; [|split].
  - eexists. split; [|exact Ht]. lia.
  - intros es v rest Hrs Hlen. rewrite Hrs in *.
    rewrite leadingErrors_app, firstSuccess_app in *. cbn [leadingErrors firstSuccess] in *.
    rewrite app_nil_r in *.
    replace (Nat.min (List.length es) left) with (List.length es) in Ht by lia.
    replace (Nat.min (S (List.length es)) (S left)) with (S (List.length es)) in Ho by lia.
    replace (List.length es <=? left)%nat with true in He
      by (symmetry; apply Nat.leb_le; lia).
    repeat split; auto.
    rewrite Ho. change (Ok v :: rest) with ([Ok v] ++ rest). rewrite app_assoc.
    replace (S (List.length es)) with (List.length (map (@Err JsVal) es ++ [Ok v]))
      by (rewrite length_app, length_map; simpl; lia).
    clear. generalize (map (@Err JsVal) es ++ [Ok v]). intros l.
    induction l; simpl; auto.
  - intros es e rest Hrs Hlen. rewrite Hrs in *.
    rewrite leadingErrors_app in *.
    assert (Hl : List.length es = left) by lia.
    replace (Nat.min (List.length ((es ++ [e]) ++ leadingErrors rest)) left) with left in Ht
      by (rewrite !length_app; simpl; lia).
    replace (Nat.min (S (List.length ((es ++ [e]) ++ leadingErrors rest))) (S left))
      with (List.length (es ++ [e])) in Ho by (rewrite !length_app; simpl; lia).
    replace (List.length ((es ++ [e]) ++ leadingErrors rest) <=? left)%nat with false in He
      by (symmetry; apply Nat.leb_gt; rewrite !length_app; simpl; lia).
    rewrite <- app_assoc, app_nth2, Hl, Nat.sub_diag in He by lia. cbn [app nth] in He.
    rewrite skipn_map_app in Ho.
    replace (S left - 1)%nat with left by lia. auto.
Qed.

Lemma retryWithBackoff_bounded_backoff_witness :
  (1 <= 3)%nat
  /\ eval (retryWithBackoff invoke (Some examplePolicy)) alwaysFailing
     = Err (mkError "Operation failed after 3 attempts. Last error: net::ERR_CONNECTION_RESET")
  /\ trace (exec (retryWithBackoff invoke (Some examplePolicy)) alwaysFailing)
     = [Invoked; Slept 1000; Invoked; Slept 2000; Invoked].
Proof.
  assert (H : (1 <= 3)%nat) by lia.
  split; [exact H|].
  destruct (proj2 (proj2 (retryWithBackoff_bounded_backoff examplePolicy alwaysFailing H))
              [boom; boom] boom [] eq_refl eq_refl) as (He & Ht & _).
  split; [exact He | exact Ht].
Defined.

(** With a single attempt allowed nothing is slept and the failure surfaces
    at once, wrapped. *)
Example retryWithBackoff_single_attempt :
  let policy := mkRetryConfig (Some 1%nat) (Some 1000) (Some 10000) (Some 2) in
  eval (retryWithBackoff invoke (Some policy)) alwaysFailing
  = Err (mkError "Operation failed after 1 attempts. Last error: net::ERR_CONNECTION_RESET")
  /\ trace (exec (retryWithBackoff invoke (Some policy)) alwaysFailing) = [Invoked].
Proof. split; reflexivity. Qed.

(** ** The pacing gate *)

Lemma elapse_monotone t : (clock t <= clock (elapse t))%Q.
Proof.
  unfold elapse. destruct (lags t) as [|l rest]; cbn [clock].
  - apply Qle_refl.
  - rewrite <- (Qplus_0_r (clock t)) at 1. apply Qplus_le_r.
    change 0%Q with (inject_Z 0). rewrite <- Zle_Qle. apply N2Z.is_nonneg.
Qed.

Lemma elapse_fires t : fires (elapse t) = fires t.
Proof. unfold elapse. now destruct (lags t). Qed.

Lemma duration_nonneg (n : N) : (0 <= inject_Z (Z.of_N n))%Q.
Proof. change 0%Q with (inject_Z 0). rewrite <- Zle_Qle. apply N2Z.is_nonneg. Qed.

(** The clock once [sleep ms] has returned: further by what the timer
    took, or more. *)
Lemma sleep_clock ms w :
  (clock (timer w) + inject_Z (Z.of_N (fires (timer w) ms))
   <= clock (timer (exec (sleep ms) w)))%Q.
Proof. cbn. eapply Qle_trans; [|apply elapse_monotone]. cbn [clock]. apply Qle_refl. Qed.

Lemma spacing_after_sleep (a b q m s f q0 q1 : Q) :
  (b <= a -> a <= q -> q - b < m ->
   (0 < m - (q - b) -> m - (q - b) <= m -> m - (q - b) - s <= f) ->
   q + f <= q0 -> q0 <= q1 -> b + m - s <= q1)%Q.
Proof. intros Hb Ha Hlt Hf H0 H1. assert (m - (q - b) - s <= f)%Q by (apply Hf; lra). lra. Qed.

Lemma spacing_without_sleep (b q m s q1 : Q) :
  (0 <= s -> m <= q - b -> q <= q1 -> b + m - s <= q1)%Q.
Proof. intros. lra. Qed.

Lemma moves_on_after_sleep (a q f q0 q1 : Q) :
  (a <= q -> 0 <= f -> q + f <= q0 -> q0 <= q1 -> a <= q1)%Q.
Proof. intros. lra. Qed.

Lemma spacing_first (a m c : Q) : (a <= c -> a + 0 * m <= c)%Q.
Proof. intros. lra. Qed.

Lemma spacing_next (a m n c1 c2 : Q) :
  (a + n * m <= c1 -> c1 + m <= c2 -> a + (n + 1) * m <= c2)%Q.
Proof. intros. lra. Qed.

Lemma spacing_total (a m c : Q) : (a + m <= c -> m <= c - a)%Q.
Proof. intros. lra. Qed.

(** Node's timers fire less than a millisecond early, as long as the delay
    is one they take as it is. *)
Lemma nodeTimeout_within upTo :
  (upTo <= inject_Z TIMEOUT_MAX)%Q -> firesWithin 1 upTo nodeTimeout.
Proof.
  intros Hup ms Hpos Hle. unfold nodeTimeout.
  destruct (Qle_bool 1 ms) eqn:H1; cbn [andb].
  - assert (Hmax : Qle_bool ms (inject_Z TIMEOUT_MAX) = true)
      by (apply Qle_bool_iff; eapply Qle_trans; eassumption).
    rewrite Hmax. apply Qle_bool_iff in H1.
    assert (Hfl : (0 <= Qfloor ms)%Z).
    { apply Qfloor_resp_le in H1. change (Qfloor 1) with 1%Z in H1. lia. }
    rewrite Z2N.id by exact Hfl.
    pose proof (Qlt_floor ms) as Hlt. rewrite inject_Z_plus in Hlt.
    change (inject_Z 1) with 1%Q in Hlt. lra.
  - assert (Hlt : (ms < 1)%Q).
    { apply Qnot_le_lt. intros Hc. apply Qle_bool_iff in Hc. congruence. }
    change (inject_Z (Z.of_N 1)) with 1%Q. lra.
Qed.

Section Pacing.
Variable this : RateLimiter.t.
Let minDelay : Q := RateLimiter.minDelayMs this.

Lemma wait_returns w : eval (RateLimiter.wait this) w = Ok tt.
Proof.
  unfold RateLimiter.wait, eval, bind, now, gets, modify, sleep, emit. cbn.
  destruct (Qlt_le_dec _ _); reflexivity.
Qed.

Lemma wait_suspends w :
  (sinceLast w < minDelay)%Q ->
  trace (exec (RateLimiter.wait this) w) = trace w ++ [Slept (minDelay - sinceLast w)].
Proof.
  intros Hlt. unfold RateLimiter.wait, exec, bind, now, gets, modify, sleep, emit. cbn.
  fold (sinceLast w). fold minDelay.
  destruct (Qlt_le_dec _ _) as [_|Hle]; [reflexivity|].
  exfalso. apply (Qlt_not_le _ _ Hlt Hle).
Qed.

Lemma wait_passes w :
  (minDelay <= sinceLast w)%Q ->
  trace (exec (RateLimiter.wait this) w) = trace w.
Proof.
  intros Hle. unfold RateLimiter.wait, exec, bind, now, gets, modify, sleep, emit. cbn.
  fold (sinceLast w). fold minDelay.
  destruct (Qlt_le_dec _ _) as [Hlt|_]; [|reflexivity].
  exfalso. apply (Qlt_not_le _ _ Hlt Hle).
Qed.

Lemma wait_records w :
  lastMessageTime (exec (RateLimiter.wait this) w)
  = clock (timer (exec (RateLimiter.wait this) w)).
Proof.
  unfold RateLimiter.wait, exec, bind, now, gets, modify, sleep, emit. cbn.
  destruct (Qlt_le_dec _ _); reflexivity.
Qed.

Lemma wait_fires w :
  fires (timer (exec (RateLimiter.wait this) w)) = fires (timer w).
Proof.
  unfold RateLimiter.wait, exec, bind, now, gets, modify, sleep, emit. cbn.
  destruct (Qlt_le_dec _ _); cbn; now rewrite !elapse_fires.
Qed.

(** A call never returns before it was made. *)
Lemma wait_moves_on w :
  (clock (timer w) <= clock (timer (exec (RateLimiter.wait this) w)))%Q.
Proof.
  pose proof (elapse_monotone (timer w)) as H1.
  unfold RateLimiter.wait, exec, bind, now, gets, modify. cbn.
  destruct (Qlt_le_dec _ _) as [Hlt|Hle].
  - rewrite sleep_run. cbn [snd fst].
    pose proof (sleep_clock (RateLimiter.minDelayMs this
                             - (clock (elapse (timer w)) - lastMessageTime w))
                  (set_timer (elapse (timer w)) w)) as H2.
    cbn [timer set_timer] in H2. unfold slept.
    match type of H2 with
    | (_ <= clock (timer ?x))%Q =>
        pose proof (elapse_monotone (timer x)) as H3;
        cbn [timer set_timer lastMessageTime set_lastMessageTime];
        exact (moves_on_after_sleep _ _ _ _ _ H1 (duration_nonneg _) H2 H3)
    end.
  - cbn [snd fst timer set_timer lastMessageTime set_lastMessageTime].
    eapply Qle_trans; [exact H1 | apply elapse_monotone].
Qed.

(** On timers that fire at most [slack] early, a call made no earlier than
    the recorded last call returns no sooner than [minDelayMs - slack]
    after it. *)
Lemma wait_spacing slack w :
  (0 <= slack)%Q ->
  firesWithin slack minDelay (fires (timer w)) ->
  (lastMessageTime w <= clock (timer w))%Q ->
  (lastMessageTime w + minDelay - slack <= clock (timer (exec (RateLimiter.wait this) w)))%Q.
Proof.
  intros Hslack Hfires Hlast.
  pose proof (elapse_monotone (timer w)) as H1.
  unfold RateLimiter.wait, exec, bind, now, gets, modify. cbn.
  fold minDelay.
  destruct (Qlt_le_dec _ _) as [Hlt|Hle].
  - rewrite sleep_run. cbn [snd fst].
    pose proof (sleep_clock (minDelay - (clock (elapse (timer w)) - lastMessageTime w))
                  (set_timer (elapse (timer w)) w)) as H2.
    cbn [timer set_timer] in H2. rewrite elapse_fires in H2. unfold slept.
    match type of H2 with
    | (_ <= clock (timer ?x))%Q =>
        pose proof (elapse_monotone (timer x)) as H3;
        cbn [timer set_timer lastMessageTime set_lastMessageTime];
        refine (spacing_after_sleep _ _ _ _ _ _ _ _ Hlast H1 Hlt _ H2 H3)
    end.
    intros Hpos Hle. apply Hfires; assumption.
  - cbn [snd fst timer set_timer lastMessageTime set_lastMessageTime].
    pose proof (elapse_monotone (elapse (timer w))) as H3.
    exact (spacing_without_sleep _ _ _ _ _ Hslack Hle H3).
Qed.

Lemma waits_fires n w : fires (timer (waits this n w)) = fires (timer w).
Proof.
  induction n as [|n IH]; [reflexivity|].
  change (waits this (S n) w) with (exec (RateLimiter.wait this) (waits this n w)).
  now rewrite wait_fires.
Qed.

Lemma waits_spacing slack n w :
  (0 <= slack)%Q ->
  firesWithin slack minDelay (fires (timer w)) ->
  (clock (timer w) + inject_Z (Z.of_nat n) * (minDelay - slack)
   <= clock (timer (waits this (S n) w)))%Q
  /\ lastMessageTime (waits this (S n) w) = clock (timer (waits this (S n) w)).
Proof.
  intros Hslack Hfires. induction n as [|n [IH1 IH2]].
  - split; [|apply wait_records]. apply spacing_first, wait_moves_on.
  - split; [|apply wait_records].
    change (waits this (S (S n)) w) with (exec (RateLimiter.wait this) (waits this (S n) w)).
    assert (H : (lastMessageTime (waits this (S n) w) + minDelay - slack
                 <= clock (timer (exec (RateLimiter.wait this) (waits this (S n) w))))%Q).
    { apply wait_spacing; [exact Hslack | now rewrite waits_fires |].
      rewrite IH2. apply Qle_refl. }
    rewrite IH2 in H. rewrite Nat2Z.inj_succ. unfold Z.succ. rewrite inject_Z_plus.
    apply (spacing_next _ _ _ _ _ IH1).
    eapply Qle_trans; [|exact H].
    generalize (clock (timer (waits this (S n) w))). intros; lra.
Qed.

End Pacing.

(** C7, as the code has it.  A pacing gate built for [R] messages per
    second asks for a sleep of exactly what is missing to [1000 / R] ms when
    less than that has passed since the recorded last call and does not
    sleep otherwise; either way it records the time at which it returns.
    How far apart the calls then are is up to the timers: when those set
    for a delay of at most [1000 / R] ms fire no more than [slack] ms
    early, [N] consecutive calls take at least [(N - 1) * (1000 / R - slack)]
    ms from the first call to the last return. *)
Theorem pacing_gate_spacing :
  forall (R : Q) (w : World),
    (0 < R)%Q ->
    let this := RateLimiter.mk R (1000 / R) in
    let w' := exec (RateLimiter.wait this) w in
    eval (RateLimiter.new R) w = Ok this
    /\ eval (RateLimiter.wait this) w = Ok tt
    /\ ((sinceLast w < 1000 / R)%Q ->
        trace w' = trace w ++ [Slept (1000 / R - sinceLast w)])
    /\ ((1000 / R <= sinceLast w)%Q -> trace w' = trace w)
    /\ lastMessageTime w' = clock (timer w')
    /\ forall slack : Q,
         (0 <= slack)%Q ->
         firesWithin slack (1000 / R) (fires (timer w)) ->
         forall N : nat,
           (inject_Z (Z.of_nat (N - 1)) * (1000 / R - slack)
            <= clock (timer (waits this N w)) - clock (timer w))%Q.
Proof.
  intros R w _ this w'. repeat split.
  - apply wait_returns.
  - apply (wait_suspends this).
  - apply (wait_passes this).
  - apply wait_records.
  - intros slack Hslack Hfires [|n].
    + change (waits this 0 w) with w. change (inject_Z (Z.of_nat (0 - 1))) with 0%Q.
      generalize (1000 / R - slack)%Q (clock (timer w)). intros; lra.
    + replace (S n - 1)%nat with n by lia.
      destruct (waits_spacing this slack n w Hslack Hfires) as [H _].
      cbn [RateLimiter.minDelayMs this] in H.
      apply spacing_total, H.
Qed.

(** C7, as stated, fails.  At three messages per second the gate asks for
    sleeps of a third of a second; Node truncates the delay of each timer
    to 333 ms, and four calls in a row are through after 999 ms, not 1000. *)
Lemma pacing_gate_truncated_delay :
  let this := RateLimiter.mk 3 (1000 / 3) in
  eval (RateLimiter.new 3) freshWorld = Ok this
  /\ trace (waits this 4 freshWorld) = [Slept (1000 / 3); Slept (1000 / 3); Slept (1000 / 3)]
  /\ (clock (timer (waits this 4 freshWorld)) - clock (timer freshWorld) == 999)%Q
  /\ ~ (inject_Z (Z.of_nat (4 - 1)) * (1000 / 3)
        <= clock (timer (waits this 4 freshWorld)) - clock (timer freshWorld))%Q.
Proof.
  cbv zeta. split; [reflexivity|]. split; [vm_compute; reflexivity|].
  split; [vm_compute; reflexivity|].
  intros H. vm_compute in H. apply H. reflexivity.
Qed.

Lemma pacing_gate_spacing_witness :
  (0 < 3)%Q
  /\ (inject_Z 3 * (1000 / 3 - 1)
      <= clock (timer (waits (RateLimiter.mk 3 (1000 / 3)) 4 freshWorld))
         - clock (timer freshWorld))%Q.
Proof.
  assert (H : (0 < 3)%Q) by reflexivity.
  split; [exact H|].
  refine (proj2 (proj2 (proj2 (proj2 (proj2 (pacing_gate_spacing 3 freshWorld H)))))
            1%Q _ _ 4%nat).
  - discriminate.
  - apply nodeTimeout_within. discriminate.
Defined.

(** Three calls at one message per second, on a clock that only moves
    while the caller sleeps: the first passes, the others sleep a second. *)
Example pacing_three_calls :
  trace (waits (RateLimiter.mk 1 (1000 / 1)) 3 freshWorld) = [Slept 1000; Slept 1000].
Proof. vm_compute. reflexivity. Qed.

(** ** Contact validation *)

Lemma strip_clean drop s : Str.forallb (fun c => negb (drop c)) (Str.strip drop s) = true.
Proof.
  induction s as [|c s IH]; simpl; [reflexivity|].
  destruct (drop c) eqn:E; simpl; [assumption|]. now rewrite E.
Qed.

Lemma normalizePhone_plus raw : Str.startsWith (normalizePhone raw) "+"%char = true.
Proof.
  unfold normalizePhone. destruct (Str.startsWith (cleanPhone raw) "+"%char) eqn:E; auto.
Qed.

Lemma normalizePhone_clean raw :
  Str.forallb (fun c => negb (separator c)) (normalizePhone raw) = true.
Proof.
  unfold normalizePhone, cleanPhone.
  destruct (Str.startsWith _ _); [apply strip_clean|].
  simpl. apply strip_clean.
Qed.

Lemma normalizePhone_international raw :
  international (normalizePhone raw) = true
  <-> international (cleanPhone raw) = true
      \/ Str.forallb Str.is_digit (cleanPhone raw) = true.
Proof.
  unfold normalizePhone. destruct (cleanPhone raw) as [|c rest] eqn:E; simpl.
  - split; auto.
  - destruct (Ascii.eqb_spec c "+"%char) as [->|Hne]; simpl.
    + split; [auto|]. intros [H|H]; [exact H | discriminate].
    + destruct (Ascii.eqb_spec c "+"%char) as [|_]; [contradiction|]. simpl.
      split; [auto|]. intros [H|H]; [discriminate | exact H].
Qed.

Lemma validateContact_phone c0 c :
  validateContact c0 = Some c ->
  exists key v,
    List.find isPhoneKey (Obj.keys c0) = Some key
    /\ Obj.get c0 key = Some v
    /\ field_truthy v = true
    /\ Obj.get c "phone" = Some (FStr (normalizePhone (field_toString v))).
Proof.
  unfold validateContact, normalizePhone.
  destruct (List.find isPhoneKey (Obj.keys c0)) as [key|]; [|discriminate].
  destruct (Obj.get c0 key) as [v|] eqn:Hg; [|discriminate].
  destruct (field_truthy v) eqn:Ht; [|discriminate].
  intros [= <-]. exists key, v. repeat split; auto.
  destruct (Str.startsWith (cleanPhone (field_toString v)) "+"%char); apply get_set_eq.
Qed.

Lemma validateFrom_valid i contacts : fst (validateFrom i contacts) = passing contacts.
Proof.
  revert i. induction contacts as [|c0 rest IH]; intros i; simpl; [reflexivity|].
  specialize (IH (S i)). destruct (validateFrom (S i) rest) as [valid invalid].
  simpl in IH. destruct (validateContact c0); simpl; now rewrite IH.
Qed.

Lemma validateFrom_invalid i contacts k c0 :
  nth_error contacts k = Some c0 ->
  validateContact c0 = None ->
  In (mkInvalid (i + k + 2) c0 "Missing phone number") (snd (validateFrom i contacts)).
Proof.
  revert i k. induction contacts as [|c rest IH]; intros i k Hk Hc0.
  - destruct k; discriminate.
  - simpl. specialize (IH (S i)).
    destruct (validateFrom (S i) rest) as [valid invalid]. simpl in IH.
    destruct k as [|k]; simpl in Hk.
    + injection Hk as ->. rewrite Hc0. simpl. left. f_equal. lia.
    + specialize (IH k Hk Hc0).
      replace (i + S k + 2)%nat with (S i + k + 2)%nat by lia.
      destruct (validateContact c); simpl; auto.
Qed.

(** C8, as the code has it.  A contact on the valid list has a text [phone]
    that starts with [+] and holds no white space, dash or parenthesis; it
    is a [+] and digits only exactly when the cell, once those separators
    are stripped, was digits with at most a [+] in front.  A contact without
    a locatable phone column, or whose phone cell is empty or zero, is
    reported as invalid, with the row number and a reason, and is not on the
    valid list. *)
Theorem validateContacts_normalizes_phone :
  forall contacts : list Contact,
    let valid := fst (validateContacts contacts) in
    let invalid := snd (validateContacts contacts) in
    valid = passing contacts
    /\ (forall c, In c valid ->
          exists c0 key v,
            In c0 contacts
            /\ List.find isPhoneKey (Obj.keys c0) = Some key
            /\ Obj.get c0 key = Some v
            /\ Obj.get c "phone" = Some (FStr (normalizePhone (field_toString v)))
            /\ Str.startsWith (phoneOf c) "+"%char = true
            /\ Str.forallb (fun ch => negb (separator ch)) (phoneOf c) = true
            /\ (international (phoneOf c) = true
                <-> international (cleanPhone (field_toString v)) = true
                    \/ Str.forallb Str.is_digit (cleanPhone (field_toString v)) = true))
    /\ (forall k c0,
          nth_error contacts k = Some c0 ->
          List.find isPhoneKey (Obj.keys c0) = None ->
          In (mkInvalid (k + 2) c0 "Missing phone number") invalid
          /\ validateContact c0 = None)
    /\ (forall k c0 key v,
          nth_error contacts k = Some c0 ->
          List.find isPhoneKey (Obj.keys c0) = Some key ->
          Obj.get c0 key = Some v ->
          field_truthy v = false ->
          In (mkInvalid (k + 2) c0 "Missing phone number") invalid
          /\ validateContact c0 = None).
Proof.
  intros contacts valid invalid. subst valid invalid. unfold validateContacts.
  split; [apply validateFrom_valid|]. split; [|split].
  - intros c. rewrite validateFrom_valid. unfold passing. rewrite in_flat_map.
    intros (c0 & Hin & Hc). destruct (validateContact c0) as [c'|] eqn:Hv; [|contradiction].
    destruct Hc as [<-|[]].
    destruct (validateContact_phone _ _ Hv) as (key & v & Hk & Hg & _ & Hp).
    exists c0, key, v. unfold phoneOf. rewrite Hp. cbn [field_toString].
    repeat split; auto using normalizePhone_plus, normalizePhone_clean;
      apply normalizePhone_international.
  - intros k c0 Hk Hnone.
    assert (Hv : validateContact c0 = None) by (unfold validateContact; now rewrite Hnone).
    split; [|exact Hv]. apply (validateFrom_invalid 0 contacts k c0 Hk Hv).
  - intros k c0 key v Hk Hkey Hget Hfalsy.
    assert (Hv : validateContact c0 = None)
      by (unfold validateContact; now rewrite Hkey, Hget, Hfalsy).
    split; [|exact Hv]. apply (validateFrom_invalid 0 contacts k c0 Hk Hv).
Qed.

(** C8, as the specification has it, fails: the dots stay. *)
Lemma validateContacts_keeps_non_digits :
  fst (validateContacts [dottedRow]) = [[("name", FStr "Ann"); ("phone", FStr "+555.123.4567")]]
  /\ international (phoneOf [("name", FStr "Ann"); ("phone", FStr "+555.123.4567")]) = false.
Proof. split; reflexivity. Qed.

Lemma validateContacts_normalizes_phone_example :
  fst (validateContacts [[("Phone Number", FStr "1 (555) 123-4567")]])
  = [[("phone", FStr "+15551234567")]]
  /\ international "+15551234567" = true.
Proof. split; reflexivity. Qed.

(** ** Fingerprints *)

Lemma international_colonFree s : international s = true -> colonFree s = true.
Proof.
  destruct s as [|c rest]; [discriminate|]. unfold international, colonFree. simpl.
  destruct (Ascii.eqb_spec c "+"%char) as [->|]; [|discriminate]. simpl.
  induction rest as [|d rest IH]; simpl; [reflexivity|].
  destruct (Str.is_digit d) eqn:Ed; [|discriminate]. simpl. intros H.
  rewrite (IH H), andb_true_r.
  destruct (Ascii.eqb_spec d colon) as [->|]; [discriminate | reflexivity].
Qed.

(** The separator delimits a phone that does not contain it. *)
Lemma content_injective p1 :
  forall p2 m1 m2,
    colonFree p1 = true -> colonFree p2 = true ->
    StateTracker.content p1 m1 = StateTracker.content p2 m2 ->
    p1 = p2 /\ m1 = m2.
Proof.
  unfold StateTracker.content, colonFree.
  induction p1 as [|a p1 IH]; intros [|b p2] m1 m2 H1 H2 E; simpl in *.
  - injection E as ->. auto.
  - injection E as <- _. now rewrite Ascii.eqb_refl in H2.
  - injection E as -> _. now rewrite Ascii.eqb_refl in H1.
  - injection E as -> E.
    apply andb_prop in H1 as [_ H1]. apply andb_prop in H2 as [_ H2].
    destruct (IH p2 m1 m2 H1 H2 E) as [-> ->]. auto.
Qed.

Lemma perform_readOnly w op : readOnly op -> perform w op = w.
Proof. destruct op; simpl; tauto. Qed.

(** C4, as the code has it.  The fingerprint is the SHA-256 digest, in hex,
    of [phone ++ ":" ++ message]; equal pairs have equal fingerprints, and
    [wasMessageSent] answers the same however often it or [getMessageInfo]
    is called in between; pairs that differ have different hashed texts
    whenever the phones hold no colon, as phones in international format
    do. *)
Theorem fingerprint_deterministic_separated :
  forall (p1 m1 p2 m2 : string),
    StateTracker.generateHash p1 m1 = SHA256.hex (p1 ++ ":" ++ m1)
    /\ (p1 = p2 -> m1 = m2 -> StateTracker.generateHash p1 m1 = StateTracker.generateHash p2 m2)
    /\ (forall (w : World) (ops : list LedgerOp),
          Forall readOnly ops ->
          eval (StateTracker.wasMessageSent p1 m1) (fold_left perform ops w)
          = eval (StateTracker.wasMessageSent p1 m1) w)
    /\ (colonFree p1 = true -> colonFree p2 = true ->
        (p1, m1) <> (p2, m2) ->
        StateTracker.content p1 m1 <> StateTracker.content p2 m2)
    /\ (international p1 = true -> colonFree p1 = true).
Proof.
  intros p1 m1 p2 m2.
  split; [reflexivity|]. split; [|split; [|split]].
  - now intros -> ->.
  - intros w ops Hops. revert w.
    induction Hops as [|op ops Hop _ IH]; intros w; simpl; [reflexivity|].
    now rewrite IH, perform_readOnly.
  - intros H1 H2 Hne E. apply Hne.
    now destruct (content_injective p1 p2 m1 m2 H1 H2 E) as [-> ->].
  - apply international_colonFree.
Qed.

(** C4, as the specification has it, fails: a colon may stand in a phone
    that [validateContacts] lets through and in a message, and then moving
    the boundary gives the same hashed text and the same fingerprint. *)
Lemma fingerprint_boundary_collision :
  fst (validateContacts [[("phone", FStr "1:2")]]) = [[("phone", FStr "+1:2")]]
  /\ ("+1", "2:3") <> ("+1:2", "3")
  /\ StateTracker.content "+1" "2:3" = StateTracker.content "+1:2" "3"
  /\ StateTracker.generateHash "+1" "2:3" = StateTracker.generateHash "+1:2" "3".
Proof.
  split; [reflexivity|]. split; [discriminate|]. split; [reflexivity|].
  unfold StateTracker.generateHash. apply (f_equal SHA256.hex). reflexivity.
Qed.

(** ** The orchestrator *)

Lemma attempts_preserves {X A : Type} (f : World -> X) (fn : M A) max maxDelay multiplier :
  preserves f fn -> (forall ms, preserves f (sleep ms)) ->
  forall left attempt delay lastError,
    preserves f (attempts fn max maxDelay multiplier left attempt delay lastError).
Proof.
  intros Hfn Hsleep. induction left as [|left IH]; intros attempt delay lastError.
  - simpl. destruct lastError; apply preserves_throw.
  - rewrite attempts_step. apply preserves_try_catch; [exact Hfn|]. intros e.
    destruct (attempt <? max)%nat; [apply preserves_bind; [apply Hsleep|intros _]|]; apply IH.
Qed.

Lemma retryWithBackoff_preserves {X A : Type} (f : World -> X) (fn : M A) config :
  preserves f fn -> (forall ms, preserves f (sleep ms)) ->
  preserves f (retryWithBackoff fn config).
Proof.
  intros Hfn Hsleep. destruct config as [c|]; simpl;
    [now apply attempts_preserves | apply preserves_throw].
Qed.

Lemma sendMessage_stats phone message image caption :
  preserves stats (WhatsAppAutomation.sendMessage phone message image caption).
Proof. unfold WhatsAppAutomation.sendMessage. frame. Qed.

Lemma wait_stats this : preserves stats (RateLimiter.wait this).
Proof. unfold RateLimiter.wait. frame. Qed.

Lemma save_stats : preserves stats StateTracker.save.
Proof. unfold StateTracker.save. frame. Qed.
#[export] Hint Resolve save_stats : frame.

Lemma markAsSent_stats phone message metadata :
  preserves stats (StateTracker.markAsSent phone message metadata).
Proof. unfold StateTracker.markAsSent. frame. Qed.

Lemma takeScreenshot_stats config filename :
  preserves stats (WhatsAppAutomation.takeScreenshot config filename).
Proof. unfold WhatsAppAutomation.takeScreenshot. frame. Qed.

#[export] Hint Resolve sendMessage_stats wait_stats markAsSent_stats
  takeScreenshot_stats : frame.

Lemma counts_bind {A : Type} post (m : M A) (k : A -> M unit) :
  preserves stats m -> (forall a, counts post (k a)) -> counts post (bind m k).
Proof.
  intros Hm Hk w. specialize (Hm w). unfold exec, bind in *.
  destruct (m w) as [[a|e] w1]; simpl in Hm; [|exact Hm].
  specialize (Hk a w1). destruct (k a w1) as [[u|e] w2]; congruence.
Qed.

Section OrchestratorTheory.
Variable render : string -> Contact -> Result string.
Variable this : App.t.

Lemma send_stats contact message : preserves stats (App.send render this contact message).
Proof.
  unfold App.send. frame.
  apply retryWithBackoff_preserves; [unfold App.on_whatsapp; frame | intro; frame].
Qed.

Lemma attempt_counts template contact w :
  match App.attempt render this template contact w with
  | (Ok _, w') => stats w' = countSent (stats w) \/ stats w' = countSkipped (stats w)
  | (Err _, w') => stats w' = stats w
  end.
Proof.
  unfold App.attempt. unfold bind at 1, lift at 1.
  destruct (render template contact) as [message|e]; [|reflexivity].
  unfold bind at 1. cbn [StateTracker.wasMessageSent gets].
  destruct (Obj.has _ _).
  - right. reflexivity.
  - destruct (App.dryRun this); [left; reflexivity|].
    match goal with |- match ?m w with _ => _ end => assert (H : counts countSent m) end.
    { repeat (apply counts_bind; [ frame | intro ]).
      - apply send_stats.
      - intros w0. reflexivity. }
    specialize (H w).
    match goal with |- match ?x with _ => _ end => destruct x as [[u|e] w'] end; auto.
Qed.

Lemma recover_counts contact error w :
  eval (App.recover this contact error) w = Ok tt
  /\ stats (exec (App.recover this contact error) w) = countFailed (stats w).
Proof.
  unfold App.recover, eval, exec, bind, App.failed_incr, modify, gets. cbn.
  destruct (whatsapp (refs w) && negb (App.dryRun this)); [|auto].
  unfold WhatsAppAutomation.takeScreenshot.
  destruct (screenshots_enabled (App.config this)); auto.
Qed.

(** One contact: the body returns, having counted it exactly once. *)
Lemma processContact_counts template contact w :
  let w' := exec (App.processContact render this template contact) w in
  eval (App.processContact render this template contact) w = Ok tt
  /\ (stats w' = countSent (stats w)
      \/ stats w' = countSkipped (stats w)
      \/ stats w' = countFailed (stats w)).
Proof.
  pose proof (attempt_counts template contact w) as H.
  unfold App.processContact, exec, eval, try_catch.
  destruct (App.attempt render this template contact w) as [[[]|e] w1]; simpl.
  - tauto.
  - destruct (recover_counts contact e w1) as [He Hs]. unfold eval, exec in *.
    destruct (App.recover this contact e w1) as [r w2]; simpl in *.
    split; [exact He|]. right. right. congruence.
Qed.

Lemma processContacts_tally template valid :
  forall w,
    let w' := exec (App.processContacts render this template valid) w in
    eval (App.processContacts render this template valid) w = Ok tt
    /\ total (stats w') = total (stats w)
    /\ (sent (stats w') + skipped (stats w') + failed (stats w')
        = sent (stats w) + skipped (stats w) + failed (stats w) + List.length valid)%nat.
Proof.
  induction valid as [|contact rest IH]; intros w w'; subst w'.
  - cbn. repeat split; lia.
  - cbn [App.processContacts]. rewrite exec_bind, eval_bind.
    destruct (processContact_counts template contact w) as [He Hs]. rewrite He.
    destruct (IH (exec (App.processContact render this template contact) w)) as (He' & Ht & Hn).
    split; [exact He'|]. rewrite Ht, Hn. cbn [List.length].
    destruct Hs as [Hs|[Hs|Hs]]; rewrite Hs; cbn; split; lia.
Qed.

Lemma processAll_tally template valid w :
  let s := stats (exec (App.processAll render this template valid) w) in
  eval (App.processAll render this template valid) w = Ok tt
  /\ total s = List.length valid
  /\ total s = (sent s + skipped s + failed s)%nat.
Proof.
  unfold App.processAll. cbv zeta. rewrite exec_bind, eval_bind. cbn [eval modify fst exec snd].
  destruct (processContacts_tally template valid
              (set_stats (mkStats (List.length valid) 0 0 0) w)) as (He & Ht & Hn).
  cbn [stats set_stats total sent skipped failed] in *.
  split; [exact He|]. split; [exact Ht|]. lia.
Qed.

(** When [run] returns and there was a valid contact, it returns from the
    loop. *)
Lemma run_reaches_loop w rows :
  contacts_rows (inputs w) = Ok rows ->
  fst (validateContacts rows) <> [] ->
  eval (App.run render this) w = Ok tt ->
  exists template w0,
    exec (App.run render this) w
    = exec (App.processAll render this template (fst (validateContacts rows))) w0.
Proof.
  intros Hrows Hvalid. unfold App.run, App.parseContactsCSV, exec, eval.
  unfold bind, gets. rewrite Hrows. unfold ret. cbv beta iota.
  destruct (fst (validateContacts rows)) as [|c0 rest]; [congruence|].
  match goal with |- context [let (_, _) := ?m w in _] => destruct (m w) as [[template|e] w1] end;
    [|discriminate].
  match goal with |- context [let (_, _) := ?m w1 in _] => destruct (m w1) as [[[]|e] w2] end;
    [|discriminate].
  intros _. eauto.
Qed.

End OrchestratorTheory.

(** C1. The loop of [run] always runs to its end, and there [total] is the
    number of valid contacts and equals [sent + skipped + failed]; each
    contact is counted exactly once, as sent (really or in a dry run), as
    skipped or as failed.  This is what [run] ends with whenever it returns
    and there was a valid contact. *)
Theorem run_statistics_invariant :
  forall (render : string -> Contact -> Result string) (this : App.t)
         (template : string) (valid : list Contact) (w : World),
    let s := stats (exec (App.processAll render this template valid) w) in
    eval (App.processAll render this template valid) w = Ok tt
    /\ total s = List.length valid
    /\ total s = (sent s + skipped s + failed s)%nat
    /\ (forall contact w0,
          let w1 := exec (App.processContact render this template contact) w0 in
          eval (App.processContact render this template contact) w0 = Ok tt
          /\ (stats w1 = countSent (stats w0)
              \/ stats w1 = countSkipped (stats w0)
              \/ stats w1 = countFailed (stats w0)))
    /\ (forall rows,
          contacts_rows (inputs w) = Ok rows ->
          fst (validateContacts rows) <> [] ->
          eval (App.run render this) w = Ok tt ->
          let s' := stats (exec (App.run render this) w) in
          total s' = List.length (fst (validateContacts rows))
          /\ total s' = (sent s' + skipped s' + failed s')%nat).
Proof.
  intros render this template valid w s.
  destruct (processAll_tally render this template valid w) as (He & Ht & Hn).
  split; [exact He|]. split; [exact Ht|]. split; [exact Hn|]. split.
  - intros contact w0. apply processContact_counts.
  - intros rows Hrows Hvalid Hrun.
    destruct (run_reaches_loop render this w rows Hrows Hvalid Hrun) as (t & w0 & ->).
    destruct (processAll_tally render this t (fst (validateContacts rows)) w0) as (_ & H1 & H2).
    auto.
Qed.

(** ** Dry runs *)

Section DryRun.
Variable render : string -> Contact -> Result string.
Variable this : App.t.
Hypothesis dry : App.dryRun this = true.

Lemma processContact_dry template contact :
  preserves surroundings (App.processContact render this template contact).
Proof.
  unfold App.processContact. apply preserves_try_catch.
  - unfold App.attempt, StateTracker.wasMessageSent, StateTracker.getMessageInfo.
    rewrite dry. cbv zeta. frame.
  - intros error. unfold App.recover. rewrite dry. cbn [negb].
    apply preserves_bind; [frame | intros _].
    apply preserves_bind; [frame | intros wa].
    rewrite andb_false_r. frame.
Qed.

Lemma processContacts_dry template valid :
  preserves surroundings (App.processContacts render this template valid).
Proof.
  induction valid as [|contact rest IH]; cbn [App.processContacts]; [frame|].
  apply preserves_bind; [apply processContact_dry | intros _; exact IH].
Qed.

Lemma processAll_dry template valid :
  preserves surroundings (App.processAll render this template valid).
Proof.
  unfold App.processAll. apply preserves_bind; [frame | intros _; apply processContacts_dry].
Qed.

Lemma run_dry : preserves surroundings (App.run render this).
Proof.
  unfold App.run, App.parseContactsCSV, App.loadTemplate. rewrite dry. cbn [negb].
  frame; apply processAll_dry.
Qed.

(** In a dry run a contact that renders and is not in the ledger is counted
    as sent. *)
Lemma processContact_dry_sent template contact message w :
  render template contact = Ok message ->
  Obj.has (ledger w) (StateTracker.generateHash (phoneOf contact) message) = false ->
  stats (exec (App.processContact render this template contact) w) = countSent (stats w).
Proof.
  intros Hr Hnew.
  unfold App.processContact, App.attempt, exec, try_catch, bind, lift,
    StateTracker.wasMessageSent, gets.
  rewrite Hr. unfold ledger in Hnew. rewrite Hnew, dry. reflexivity.
Qed.

Lemma processContacts_dry_sent template valid :
  forall w,
    (forall contact, In contact valid ->
       exists message,
         render template contact = Ok message
         /\ Obj.has (ledger w) (StateTracker.generateHash (phoneOf contact) message) = false) ->
    stats (exec (App.processContacts render this template valid) w)
    = mkStats (total (stats w)) (sent (stats w) + List.length valid)
              (skipped (stats w)) (failed (stats w)).
Proof.
  induction valid as [|contact rest IH]; intros w Hall.
  - cbn. destruct (stats w); cbn. f_equal. lia.
  - cbn [App.processContacts]. rewrite exec_bind.
    destruct (processContact_counts render this template contact w) as [-> _].
    destruct (Hall contact (or_introl eq_refl)) as (message & Hr & Hnew).
    pose proof (processContact_dry_sent template contact message w Hr Hnew) as Hs.
    pose proof (processContact_dry template contact w) as Hframe.
    set (w1 := exec (App.processContact render this template contact) w) in *.
    rewrite IH.
    + rewrite Hs. cbn. f_equal. lia.
    + intros c Hc. destruct (Hall c (or_intror Hc)) as (m & Hm & Hn).
      exists m. split; [exact Hm|]. unfold ledger in *.
      replace (tracker w1) with (tracker w); [exact Hn|].
      unfold surroundings in Hframe. congruence.
Qed.

End DryRun.

(** What a computation returns, when it returns, is what its last step
    returns. *)
Lemma eval_bind_ok {A B : Type} (m : M A) (k : A -> M B) (Q : B -> Prop) :
  (forall a w v, eval (k a) w = Ok v -> Q v) ->
  forall w v, eval (bind m k) w = Ok v -> Q v.
Proof.
  intros Hk w v. rewrite eval_bind. destruct (eval m w); [apply Hk | discriminate].
Qed.

Lemma load_whatsapp_trace :
  preserves (fun w => (whatsapp (refs w), trace w)) StateTracker.load.
Proof. unfold StateTracker.load, StateTracker.save. frame. Qed.

Lemma initialize_dry w0 :
  dry_run_flag (inputs w0) = true ->
  whatsapp (refs (exec App.initialize w0)) = whatsapp (refs w0)
  /\ trace (exec App.initialize w0) = trace w0
  /\ forall app, eval App.initialize w0 = Ok app -> App.dryRun app = true.
Proof.
  intros Hflag. unfold App.initialize, exec, eval.
  unfold bind at 1 3 5. unfold App.loadConfig, bind, gets at 1 3 5.
  destruct (config_yaml (inputs w0)) as [config|e]; [|repeat split; discriminate].
  cbv [ret App.set_logger modify gets]. cbv beta iota. cbn [inputs set_refs]. rewrite Hflag.
  cbn [negb]. cbv [StateTracker.new modify]. cbv beta iota.
  match goal with |- context [StateTracker.load ?w] => set (w1 := w) end.
  pose proof (load_whatsapp_trace w1) as Hload. unfold exec in Hload.
  destruct (StateTracker.load w1) as [[[]|e] w2]; cbn [snd] in Hload;
    injection Hload as Hwa Htr; cbn in Hwa, Htr.
  - cbv [RateLimiter.new bind modify ret]. cbn.
    repeat split; auto. now intros app [= <-].
  - cbn. repeat split; auto. discriminate.
Qed.

(** C3. In a dry run the orchestrator changes nothing but its counters: the
    trace gains no transport call and no sleep, the ledger in memory and
    the file on disk stay as they are, and so does the last-call time of the
    pacing gate; [initialize] does not construct the transport.  Each valid
    contact whose message is not in the ledger is counted as sent, so that
    [n] such contacts give [{total: n, sent: n, skipped: 0, failed: 0}]. *)
Theorem dry_run_changes_only_counters :
  forall (render : string -> Contact -> Result string) (this : App.t),
    App.dryRun this = true ->
    (forall w, surroundings (exec (App.run render this) w) = surroundings w)
    /\ (forall template valid w,
          let w' := exec (App.processAll render this template valid) w in
          surroundings w' = surroundings w
          /\ ((forall contact, In contact valid ->
                 exists message,
                   render template contact = Ok message
                   /\ Obj.has (ledger w)
                        (StateTracker.generateHash (phoneOf contact) message) = false) ->
              stats w' = mkStats (List.length valid) (List.length valid) 0 0))
    /\ (forall w0,
          dry_run_flag (inputs w0) = true ->
          whatsapp (refs (exec App.initialize w0)) = whatsapp (refs w0)
          /\ trace (exec App.initialize w0) = trace w0
          /\ forall app, eval App.initialize w0 = Ok app -> App.dryRun app = true).
Proof.
  intros render this dry. split; [|split].
  - apply run_dry, dry.
  - intros template valid w w'. split; [apply processAll_dry, dry|].
    intros Hall. subst w'. unfold App.processAll. rewrite exec_bind. cbn [eval modify fst exec snd].
    rewrite (processContacts_dry_sent render this dry); [reflexivity | exact Hall].
  - apply initialize_dry.
Qed.

Lemma dry_run_changes_only_counters_witness :
  App.dryRun dryApp = true
  /\ stats (exec (App.processAll renderTemplate dryApp "Hello {{name}}" [ann; bob]) freshWorld)
     = mkStats 2 2 0 0
  /\ surroundings (exec (App.processAll renderTemplate dryApp "Hello {{name}}" [ann; bob])
                     freshWorld)
     = surroundings freshWorld.
Proof.
  assert (H : App.dryRun dryApp = true) by reflexivity.
  split; [exact H|].
  destruct (proj1 (proj2 (dry_run_changes_only_counters renderTemplate dryApp H))
              "Hello {{name}}" [ann; bob] freshWorld) as [Hframe Hstats].
  split; [|exact Hframe].
  apply Hstats. intros contact [<-|[<-|[]]]; eexists; split; reflexivity.
Defined.

(** ** Runs against the ledger *)

Lemma extends_refl w : extends w w.
Proof. intros k H. exact H. Qed.

Lemma extends_trans w1 w2 w3 : extends w1 w2 -> extends w2 w3 -> extends w1 w3.
Proof. intros H12 H23 k H. apply H23, H12, H. Qed.

Lemma respects_bind {A B : Type} (m : M A) (k : A -> M B) :
  respects extends m -> (forall a, respects extends (k a)) -> respects extends (bind m k).
Proof.
  intros Hm Hk w. rewrite exec_bind.
  destruct (eval m w); [eapply extends_trans; [apply Hm | apply Hk] | apply Hm].
Qed.

Lemma respects_try_catch {A : Type} (m : M A) (h : Error -> M A) :
  respects extends m -> (forall e, respects extends (h e)) -> respects extends (try_catch m h).
Proof.
  intros Hm Hh w. specialize (Hm w). unfold exec, try_catch in *.
  destruct (m w) as [[a|e] w1]; simpl in *; [exact Hm|].
  eapply extends_trans; [exact Hm|]. apply (Hh e w1).
Qed.

Lemma preserves_extends {A : Type} (m : M A) : preserves ledger m -> respects extends m.
Proof. intros H w k. now rewrite H. Qed.

Lemma markAsSent_extends phone message metadata :
  respects extends (StateTracker.markAsSent phone message metadata).
Proof.
  intros w k H. rewrite markAsSent_ledger, has_set, H. apply orb_true_r.
Qed.

Lemma bind_run {A B : Type} (m : M A) (k : A -> M B) w :
  bind m k w = match eval m w with
               | Ok a => k a (exec m w)
               | Err e => (Err e, exec m w)
               end.
Proof. unfold bind, eval, exec. now destruct (m w) as [[a|e] w1]. Qed.

Lemma bind_ok_inv {A B : Type} (m : M A) (k : A -> M B) w b w' :
  bind m k w = (Ok b, w') ->
  exists a w1, m w = (Ok a, w1) /\ k a w1 = (Ok b, w').
Proof.
  unfold bind. destruct (m w) as [[a|e] w1]; [eauto | discriminate].
Qed.

Lemma countSent_not_skipped s s' : s' = countSent s -> s' = countSkipped s -> False.
Proof. intros -> [= H _]. lia. Qed.

Lemma countSent_not_failed s s' : s' = countSent s -> s' = countFailed s -> False.
Proof. intros -> [= H _]. lia. Qed.

Section Ledgered.
Variable render : string -> Contact -> Result string.
Variable this : App.t.

Lemma send_ledger contact message : preserves ledger (App.send render this contact message).
Proof.
  unfold App.send, RateLimiter.wait. frame.
  apply retryWithBackoff_preserves;
    [unfold App.on_whatsapp, WhatsAppAutomation.sendMessage; frame | intro; frame].
Qed.

Lemma recover_ledger contact error : preserves ledger (App.recover this contact error).
Proof. unfold App.recover, WhatsAppAutomation.takeScreenshot. frame. Qed.

Lemma processContact_extends template contact :
  respects extends (App.processContact render this template contact).
Proof.
  unfold App.processContact. apply respects_try_catch.
  - unfold App.attempt. cbv zeta.
    apply respects_bind; [apply preserves_extends; frame | intros message].
    apply respects_bind; [apply preserves_extends; unfold StateTracker.wasMessageSent; frame|].
    intros [|].
    + apply preserves_extends. unfold StateTracker.getMessageInfo. frame.
    + destruct (App.dryRun this); [apply preserves_extends; frame|].
      apply respects_bind; [apply preserves_extends, send_ledger | intros _].
      apply respects_bind; [apply markAsSent_extends | intros _].
      apply preserves_extends. frame.
  - intros error. apply preserves_extends, recover_ledger.
Qed.

Lemma processContacts_extends template valid :
  respects extends (App.processContacts render this template valid).
Proof.
  induction valid as [|contact rest IH]; cbn [App.processContacts].
  - intros w. apply extends_refl.
  - apply respects_bind; [apply processContact_extends | intros _; exact IH].
Qed.

(** A contact that a live run counts as sent was rendered, and its
    fingerprint is in the ledger from then on. *)
Lemma processContact_sent_recorded template contact w :
  App.dryRun this = false ->
  stats (exec (App.processContact render this template contact) w) = countSent (stats w) ->
  exists message,
    render template contact = Ok message
    /\ Obj.has (ledger (exec (App.processContact render this template contact) w))
         (StateTracker.generateHash (phoneOf contact) message) = true.
Proof.
  intros Hlive. pose proof (attempt_counts render this template contact w) as Hc.
  unfold App.processContact, exec, try_catch.
  destruct (App.attempt render this template contact w) as [[[]|e] w1] eqn:Ha; cbn [snd].
  - intros Hs. clear Hc. unfold App.attempt in Ha. cbv zeta in Ha.
    apply bind_ok_inv in Ha as (message & w0 & Hr & Ha).
    unfold lift in Hr. injection Hr as Hr <-. exists message. split; [exact Hr|].
    apply bind_ok_inv in Ha as (already & w0 & Hh & Ha).
    unfold StateTracker.wasMessageSent, gets in Hh. injection Hh as Hh <-.
    destruct already.
    + unfold bind, StateTracker.getMessageInfo, gets, App.skipped_incr, modify in Ha.
      injection Ha as <-. exact Hh.
    + rewrite Hlive in Ha.
      apply bind_ok_inv in Ha as ([] & w2 & _ & Ha).
      apply bind_ok_inv in Ha as ([] & w3 & Hm & Ha).
      injection Ha as <-. change (Obj.has (ledger w3) (StateTracker.generateHash (phoneOf contact) message) = true).
      replace w3 with (exec (StateTracker.markAsSent (phoneOf contact) message
                               [("contact", VObj contact)]) w2)
        by (unfold exec; now rewrite Hm).
      rewrite markAsSent_ledger, has_set, String.eqb_refl. reflexivity.
  - intros Hs. exfalso.
    destruct (recover_counts this contact e w1) as [_ Hf]. unfold exec in Hf.
    rewrite Hc in Hf. exact (countSent_not_failed _ _ Hs Hf).
Qed.

Lemma processContacts_sent_bound template valid :
  forall w,
    (sent (stats (exec (App.processContacts render this template valid) w))
     <= sent (stats w) + List.length valid)%nat.
Proof.
  induction valid as [|contact rest IH]; intros w.
  - cbn. lia.
  - cbn [App.processContacts]. rewrite exec_bind.
    destruct (processContact_counts render this template contact w) as [-> Hs].
    specialize (IH (exec (App.processContact render this template contact) w)).
    cbn [List.length]. destruct Hs as [Hs|[Hs|Hs]]; rewrite Hs in IH; cbn in IH; lia.
Qed.

(** After a live run that counted every contact as sent, the message of
    every contact is in the ledger. *)
Lemma all_sent_recorded template valid :
  App.dryRun this = false ->
  forall w,
    let w' := exec (App.processContacts render this template valid) w in
    sent (stats w') = (sent (stats w) + List.length valid)%nat ->
    forall contact, In contact valid ->
      exists message,
        render template contact = Ok message
        /\ Obj.has (ledger w') (StateTracker.generateHash (phoneOf contact) message) = true.
Proof.
  intros Hlive. induction valid as [|c rest IH]; intros w w' Hall contact Hin; [destruct Hin|].
  subst w'. cbn [App.processContacts] in *. rewrite exec_bind in *.
  destruct (processContact_counts render this template c w) as [He Hs].
  rewrite He in *.
  set (w1 := exec (App.processContact render this template c) w) in *.
  pose proof (processContacts_sent_bound template rest w1) as Hb.
  cbn [List.length] in Hall.
  assert (Hc : stats w1 = countSent (stats w)).
  { destruct Hs as [Hs|[Hs|Hs]]; [exact Hs| |]; rewrite Hs in Hb; cbn in Hb; lia. }
  destruct Hin as [<-|Hin].
  - destruct (processContact_sent_recorded template c w Hlive Hc) as (message & Hr & Hh).
    exists message. split; [exact Hr|]. apply (processContacts_extends template rest w1), Hh.
  - apply (IH w1); [|exact Hin]. rewrite Hall, Hc. cbn. lia.
Qed.

(** A contact whose message is in the ledger is skipped, and nothing but the
    counter changes. *)
Lemma processContact_skips template contact message w :
  render template contact = Ok message ->
  Obj.has (ledger w) (StateTracker.generateHash (phoneOf contact) message) = true ->
  App.processContact render this template contact w
  = (Ok tt, set_stats (countSkipped (stats w)) w).
Proof.
  intros Hr Hh.
  unfold App.processContact, App.attempt, try_catch, bind, lift,
    StateTracker.wasMessageSent, gets.
  rewrite Hr. unfold ledger in Hh. rewrite Hh. reflexivity.
Qed.

Lemma processContacts_skips template valid :
  forall w,
    (forall contact, In contact valid ->
       exists message,
         render template contact = Ok message
         /\ Obj.has (ledger w) (StateTracker.generateHash (phoneOf contact) message) = true) ->
    let w' := exec (App.processContacts render this template valid) w in
    surroundings w' = surroundings w
    /\ stats w' = mkStats (total (stats w)) (sent (stats w))
                          (skipped (stats w) + List.length valid) (failed (stats w)).
Proof.
  induction valid as [|c rest IH]; intros w Hall w'; subst w'.
  - cbn. split; [reflexivity|]. destruct (stats w); cbn. f_equal. lia.
  - cbn [App.processContacts]. rewrite exec_bind.
    destruct (Hall c (or_introl eq_refl)) as (message & Hr & Hh).
    pose proof (processContact_skips template c message w Hr Hh) as Hpc.
    assert (He : eval (App.processContact render this template c) w = Ok tt)
      by (unfold eval; now rewrite Hpc).
    assert (Hx : exec (App.processContact render this template c) w
                 = set_stats (countSkipped (stats w)) w)
      by (unfold exec; now rewrite Hpc).
    rewrite He, Hx.
    destruct (IH (set_stats (countSkipped (stats w)) w)) as [Hf Hs].
    { intros c' Hc'. apply Hall. now right. }
    cbv zeta in Hf, Hs. rewrite Hf, Hs. split; [reflexivity|]. cbn. f_equal. lia.
Qed.

End Ledgered.

(** A [save] that returns has written the state it leaves in memory. *)
Lemma save_persists w w' :
  StateTracker.save w = (Ok tt, w') -> file (fs w') = Some (Stored (tracker w')).
Proof.
  unfold StateTracker.save, bind, now, modify, mkdir, writeFile, fs_mutation, gets.
  cbn [fs set_tracker set_timer set_fs faults file tracker].
  destruct (pop (faults (fs w))) as [[[e|]|] rest1]; try discriminate;
    cbn [fs set_fs set_tracker set_timer faults file tracker];
    destruct (pop rest1) as [[[e|]|] rest2]; try discriminate;
    intros [= <-]; reflexivity.
Qed.

Lemma markAsSent_persists phone message metadata w w' :
  StateTracker.markAsSent phone message metadata w = (Ok tt, w') ->
  file (fs w') = Some (Stored (tracker w')).
Proof.
  unfold StateTracker.markAsSent. intros H.
  apply bind_ok_inv in H as (n & w1 & _ & H).
  apply bind_ok_inv in H as ([] & w2 & _ & H).
  exact (save_persists _ _ H).
Qed.

(** Loading what is on disk gives the state that was written. *)
Lemma load_stored st w :
  file (fs w) = Some (Stored st) -> StateTracker.load w = (Ok tt, set_tracker st w).
Proof. unfold StateTracker.load, bind, gets. now intros ->. Qed.

Section SecondRun.
Variable render : string -> Contact -> Result string.
Variable this : App.t.
Hypothesis live : App.dryRun this = false.

Lemma processContact_sent_persisted template contact w :
  stats (exec (App.processContact render this template contact) w) = countSent (stats w) ->
  let w' := exec (App.processContact render this template contact) w in
  file (fs w') = Some (Stored (tracker w')).
Proof.
  pose proof (attempt_counts render this template contact w) as Hc.
  unfold App.processContact, exec, try_catch.
  destruct (App.attempt render this template contact w) as [[[]|e] w1] eqn:Ha; cbn [snd].
  - intros Hs. unfold App.attempt in Ha. cbv zeta in Ha.
    apply bind_ok_inv in Ha as (message & w0 & Hr & Ha).
    unfold lift in Hr. injection Hr as Hr <-.
    apply bind_ok_inv in Ha as (already & w0 & Hh & Ha).
    unfold StateTracker.wasMessageSent, gets in Hh. injection Hh as Hh <-.
    destruct already.
    + unfold bind, StateTracker.getMessageInfo, gets, App.skipped_incr, modify in Ha.
      injection Ha as <-. exfalso. exact (countSent_not_skipped _ _ Hs eq_refl).
    + rewrite live in Ha.
      apply bind_ok_inv in Ha as ([] & w2 & _ & Ha).
      apply bind_ok_inv in Ha as ([] & w3 & Hm & Ha).
      injection Ha as <-. exact (markAsSent_persists _ _ _ _ _ Hm).
  - intros Hs. exfalso.
    destruct (recover_counts this contact e w1) as [_ Hf]. unfold exec in Hf.
    rewrite Hc in Hf. exact (countSent_not_failed _ _ Hs Hf).
Qed.

Lemma all_sent_persisted template valid :
  valid <> [] ->
  forall w,
    let w' := exec (App.processContacts render this template valid) w in
    sent (stats w') = (sent (stats w) + List.length valid)%nat ->
    file (fs w') = Some (Stored (tracker w')).
Proof.
  induction valid as [|c rest IH]; [congruence|]. intros _ w w' Hall. subst w'.
  cbn [App.processContacts] in *. rewrite exec_bind in *.
  destruct (processContact_counts render this template c w) as [He Hs].
  rewrite He in *.
  set (w1 := exec (App.processContact render this template c) w) in *.
  pose proof (processContacts_sent_bound render this template rest w1) as Hb.
  cbn [List.length] in Hall.
  assert (Hc : stats w1 = countSent (stats w)).
  { destruct Hs as [Hs|[Hs|Hs]]; [exact Hs| |]; rewrite Hs in Hb; cbn in Hb; lia. }
  destruct rest as [|c' rest'].
  - cbn. apply processContact_sent_persisted, Hc.
  - apply IH; [discriminate|]. rewrite Hall, Hc. cbn. lia.
Qed.

End SecondRun.

(** C6. If a live run over the valid contacts counted every one of them as
    sent, then a run over the same contacts with the same template that
    starts from the ledger this run left behind (in memory or, loaded back,
    on disk) counts every one of them as skipped,
    [{total: n, sent: 0, skipped: n, failed: 0}], and changes nothing else:
    no ledger entry, no file, no transport call, no pacing. *)
Theorem second_run_skips_everything :
  forall (render : string -> Contact -> Result string) (first second : App.t)
         (template : string) (valid : list Contact) (w : World),
    App.dryRun first = false ->
    let w1 := exec (App.processAll render first template valid) w in
    sent (stats w1) = List.length valid ->
    (forall w2,
        ledger w2 = ledger w1 ->
        let w3 := exec (App.processAll render second template valid) w2 in
        stats w3 = mkStats (List.length valid) 0 (List.length valid) 0
        /\ surroundings w3 = surroundings w2)
    /\ (valid <> [] ->
        forall w2, file (fs w2) = file (fs w1) ->
                   eval StateTracker.load w2 = Ok tt
                   /\ ledger (exec StateTracker.load w2) = ledger w1).
Proof.
  intros render first second template valid w Hlive w1 Hall. subst w1.
  unfold App.processAll in *. rewrite exec_bind in *. cbn [eval modify fst exec snd] in *.
  set (w0 := set_stats (mkStats (List.length valid) 0 0 0) w) in *.
  fold (exec (App.processContacts render first template valid) w0) in *.
  set (w1 := exec (App.processContacts render first template valid) w0) in *.
  assert (Hall' : sent (stats w1) = (sent (stats w0) + List.length valid)%nat) by exact Hall.
  split.
  - intros w2 Hledger. rewrite exec_bind. cbn [eval modify fst exec snd].
    fold (exec (App.processContacts render second template valid)
            (set_stats (mkStats (List.length valid) 0 0 0) w2)).
    destruct (processContacts_skips render second template valid
                (set_stats (mkStats (List.length valid) 0 0 0) w2)) as [Hf Hs].
    { intros contact Hin.
      destruct (all_sent_recorded render first template valid Hlive w0 Hall' contact Hin)
        as (message & Hr & Hh).
      exists message. split; [exact Hr|].
      change (ledger (set_stats (mkStats (List.length valid) 0 0 0) w2)) with (ledger w2).
      rewrite Hledger. exact Hh. }
    cbv zeta in Hf, Hs. rewrite Hf, Hs. split; reflexivity.
  - intros Hne w2 Hfile.
    pose proof (all_sent_persisted render first Hlive template valid Hne w0 Hall') as Hp.
    fold w1 in Hp. rewrite <- Hfile in Hp.
    unfold eval, exec. rewrite (load_stored _ _ Hp). split; reflexivity.
Qed.

Lemma second_run_skips_everything_witness :
  App.dryRun liveApp = false
  /\ sent (stats (exec (App.processAll renderTemplate liveApp "Hello {{name}}" [ann; bob])
                    liveWorld)) = 2%nat
  /\ stats (exec (App.processAll renderTemplate liveApp "Hello {{name}}" [ann; bob])
             (exec (App.processAll renderTemplate liveApp "Hello {{name}}" [ann; bob])
                liveWorld))
     = mkStats 2 0 2 0.
Proof.
  assert (H1 : App.dryRun liveApp = false) by reflexivity.
  assert (H2 : sent (stats (exec (App.processAll renderTemplate liveApp "Hello {{name}}"
                                    [ann; bob]) liveWorld)) = List.length [ann; bob])
    by (vm_compute; reflexivity).
  split; [exact H1|]. split; [exact H2|].
  exact (proj1 (proj1 (second_run_skips_everything renderTemplate liveApp liveApp
                         "Hello {{name}}" [ann; bob] liveWorld H1 H2) _ eq_refl)).
Defined.

(** ** A send whose ledger write fails *)

Section WriteFailure.
Variable render : string -> Contact -> Result string.
Variable this : App.t.
Hypothesis live : App.dryRun this = false.

Lemma send_file contact message :
  preserves (fun w => file (fs w)) (App.send render this contact message).
Proof.
  unfold App.send, RateLimiter.wait. frame.
  apply retryWithBackoff_preserves;
    [unfold App.on_whatsapp, WhatsAppAutomation.sendMessage; frame | intro; frame].
Qed.

Lemma recover_file contact error :
  preserves (fun w => file (fs w)) (App.recover this contact error).
Proof. unfold App.recover, WhatsAppAutomation.takeScreenshot. frame. Qed.

(** The [try] block at a contact that is not in the ledger. *)
Lemma attempt_live template contact message w :
  render template contact = Ok message ->
  Obj.has (ledger w) (StateTracker.generateHash (phoneOf contact) message) = false ->
  App.attempt render this template contact w
  = bind (App.send render this contact message)
      (fun _ => bind (StateTracker.markAsSent (phoneOf contact) message
                        [("contact", VObj contact)])
                  (fun _ => App.sent_incr)) w.
Proof.
  intros Hr Hnew. unfold App.attempt. cbv zeta.
  rewrite bind_run. unfold eval at 1, exec at 1, lift. cbn [fst snd]. rewrite Hr.
  rewrite bind_run. unfold eval at 1, exec at 1, StateTracker.wasMessageSent, gets.
  cbn [fst snd]. unfold ledger in Hnew. rewrite Hnew, live. reflexivity.
Qed.

(** What the loop body comes to when the send succeeds and the write does
    not. *)
Lemma processContact_write_failure template contact message w e :
  render template contact = Ok message ->
  Obj.has (ledger w) (StateTracker.generateHash (phoneOf contact) message) = false ->
  eval (App.send render this contact message) w = Ok tt ->
  eval (StateTracker.markAsSent (phoneOf contact) message [("contact", VObj contact)])
       (exec (App.send render this contact message) w) = Err e ->
  App.processContact render this template contact w
  = App.recover this contact e
      (exec (StateTracker.markAsSent (phoneOf contact) message [("contact", VObj contact)])
         (exec (App.send render this contact message) w)).
Proof.
  intros Hr Hnew Hsend Hmark.
  unfold App.processContact, try_catch.
  rewrite (attempt_live template contact message w Hr Hnew).
  rewrite bind_run, Hsend, bind_run, Hmark. reflexivity.
Qed.

End WriteFailure.

(** C10, as the code has it.  When the transport send for a contact succeeds
    and the [markAsSent] that follows throws, the contact is counted as
    failed and not as sent, and the loop goes on with the next contact.  The
    entry, assigned before the write was tried, stays in the ledger in
    memory: the same message is skipped if it comes again in this run, and
    the next [markAsSent] that succeeds writes the entry to disk with its
    own, where a later run finds it and skips the contact. *)
Theorem write_failure_counts_failed_keeps_entry :
  forall (render : string -> Contact -> Result string) (this : App.t)
         (template : string) (contact : Contact) (message : string) (w : World) (e : Error),
    let hash := StateTracker.generateHash (phoneOf contact) message in
    let metadata := [("contact", VObj contact)] in
    App.dryRun this = false ->
    render template contact = Ok message ->
    Obj.has (ledger w) hash = false ->
    eval (App.send render this contact message) w = Ok tt ->
    eval (StateTracker.markAsSent (phoneOf contact) message metadata)
         (exec (App.send render this contact message) w) = Err e ->
    let w' := exec (App.processContact render this template contact) w in
    eval (App.processContact render this template contact) w = Ok tt
    /\ stats w' = countFailed (stats w)
    /\ (forall rest,
          App.processContacts render this template (contact :: rest) w
          = App.processContacts render this template rest w')
    /\ Obj.has (ledger w') hash = true
    /\ App.processContact render this template contact w'
       = (Ok tt, set_stats (countSkipped (stats w')) w')
    /\ (forall phone' message' metadata' w2 w3,
          extends w' w2 ->
          StateTracker.markAsSent phone' message' metadata' w2 = (Ok tt, w3) ->
          exists st, file (fs w3) = Some (Stored st)
                     /\ Obj.has (sentMessages st) hash = true
                     /\ forall later,
                          file (fs later) = file (fs w3) ->
                          let loaded := exec StateTracker.load later in
                          App.processContact render this template contact loaded
                          = (Ok tt, set_stats (countSkipped (stats loaded)) loaded)).
Proof.
  intros render this template contact message w e hash metadata Hlive Hr Hnew Hsend Hmark w'.
  pose proof (processContact_write_failure render this Hlive template contact message w e
                Hr Hnew Hsend Hmark) as Hpc.
  fold metadata in Hpc. subst w'.
  assert (Hstats : stats (exec (StateTracker.markAsSent (phoneOf contact) message metadata)
                            (exec (App.send render this contact message) w)) = stats w)
    by now rewrite markAsSent_stats, send_stats.
  assert (Hhas : Obj.has (ledger (exec (StateTracker.markAsSent (phoneOf contact) message metadata)
                                    (exec (App.send render this contact message) w)))
                   hash = true)
    by (rewrite markAsSent_ledger, has_set; fold hash; now rewrite String.eqb_refl).
  revert Hpc Hstats Hhas.
  generalize (exec (StateTracker.markAsSent (phoneOf contact) message metadata)
                (exec (App.send render this contact message) w)).
  intros w2 Hpc Hstats Hhas.
  destruct (recover_counts this contact e w2) as [He Hs].
  pose proof (recover_ledger this contact e w2) as Hl.
  unfold eval, exec in *. rewrite Hpc.
  destruct (App.recover this contact e w2) as [r w'] eqn:Hrec.
  cbn [fst snd] in *. subst r.
  assert (Hledger : Obj.has (ledger w') hash = true) by (rewrite Hl; exact Hhas).
  split; [reflexivity|]. split; [|split; [|split; [|split]]].
  - congruence.
  - intros rest. cbn [App.processContacts]. unfold bind at 1. rewrite Hpc. reflexivity.
  - exact Hledger.
  - apply (processContact_skips render this template contact message w' Hr Hledger).
  - intros phone' message' metadata' v2 v3 Hext Hm. exists (tracker v3).
    pose proof (markAsSent_persists _ _ _ _ _ Hm) as Hp.
    pose proof (markAsSent_extends phone' message' metadata' v2 hash (Hext hash Hledger)) as H.
    unfold exec in H. rewrite Hm in H. cbn [snd] in H.
    split; [exact Hp|]. split; [exact H|].
    intros later Hfile. cbv zeta. rewrite Hp in Hfile.
    unfold exec. rewrite (load_stored _ _ Hfile). cbn [snd].
    apply (processContact_skips render this template contact message _ Hr). exact H.
Qed.

(** C10, as stated, fails.  Ann's message is delivered and her [markAsSent]
    throws; Bob's succeeds and writes the whole ledger, Ann's entry with it;
    a later run finds it on disk and skips her. *)
Lemma write_failure_entry_reaches_disk :
  eval (App.send renderTemplate liveApp ann "Hello Ann") flakyDisk = Ok tt
  /\ eval (StateTracker.markAsSent "+15551230001" "Hello Ann" [("contact", VObj ann)])
          (exec (App.send renderTemplate liveApp ann "Hello Ann") flakyDisk)
     = Err diskFull
  /\ stats afterFlakyRun = mkStats 2 1 0 1
  /\ persisted afterFlakyRun (StateTracker.generateHash "+15551230001" "Hello Ann") = true
  /\ stats (exec (StateTracker.load ;;
                  App.processAll renderTemplate liveApp "Hello {{name}}" [ann; bob])
              laterProcess)
     = mkStats 2 0 2 0.
Proof.
  split; [vm_compute; reflexivity|]. split; [vm_compute; reflexivity|].
  split; [vm_compute; reflexivity|]. split; vm_compute; reflexivity.
Qed.

Lemma write_failure_counts_failed_keeps_entry_witness :
  App.dryRun liveApp = false
  /\ renderTemplate "Hello {{name}}" ann = Ok "Hello Ann"
  /\ Obj.has (ledger flakyDisk) (StateTracker.generateHash (phoneOf ann) "Hello Ann") = false
  /\ eval (App.send renderTemplate liveApp ann "Hello Ann") flakyDisk = Ok tt
  /\ eval (StateTracker.markAsSent (phoneOf ann) "Hello Ann" [("contact", VObj ann)])
          (exec (App.send renderTemplate liveApp ann "Hello Ann") flakyDisk)
     = Err diskFull
  /\ stats (exec (App.processContact renderTemplate liveApp "Hello {{name}}" ann) flakyDisk)
     = countFailed (stats flakyDisk)
  /\ Obj.has (ledger (exec (App.processContact renderTemplate liveApp "Hello {{name}}" ann)
                        flakyDisk))
        (StateTracker.generateHash (phoneOf ann) "Hello Ann") = true.
Proof.
  assert (H1 : App.dryRun liveApp = false) by reflexivity.
  assert (H2 : renderTemplate "Hello {{name}}" ann = Ok "Hello Ann") by (vm_compute; reflexivity).
  assert (H3 : Obj.has (ledger flakyDisk)
                 (StateTracker.generateHash (phoneOf ann) "Hello Ann") = false)
    by reflexivity.
  assert (H4 : eval (App.send renderTemplate liveApp ann "Hello Ann") flakyDisk = Ok tt)
    by (vm_compute; reflexivity).
  assert (H5 : eval (StateTracker.markAsSent (phoneOf ann) "Hello Ann" [("contact", VObj ann)])
                 (exec (App.send renderTemplate liveApp ann "Hello Ann") flakyDisk)
               = Err diskFull)
    by (vm_compute; reflexivity).
  destruct (write_failure_counts_failed_keeps_entry renderTemplate liveApp "Hello {{name}}"
              ann "Hello Ann" flakyDisk diskFull H1 H2 H3 H4 H5)
    as (_ & Hs & _ & Hh & _).
  repeat (split; [assumption|]). exact Hh.
Defined.

(** ** Start-up and exit codes *)

Lemma load_creates w :
  file (fs w) = None ->
  faultless 3 w ->
  let w' := exec (StateTracker.new ;; StateTracker.load) w in
  eval (StateTracker.new ;; StateTracker.load) w = Ok tt
  /\ tracker w' = mkTrackerState [] (Some (clock (timer w')))
  /\ file (fs w') = Some (Stored (tracker w')).
Proof.
  intros Hfile Hfaults. unfold faultless in Hfaults. cbv zeta.
  unfold StateTracker.new, StateTracker.load, StateTracker.save, exec, eval, bind, gets, modify,
    now, mkdir, writeFile, fs_mutation.
  change (fs (set_tracker StateTracker.initial w)) with (fs w). rewrite Hfile.
  cbv beta iota. change (fs (set_tracker StateTracker.initial w)) with (fs w).
  destruct (faults (fs w)) as [|[e1|] [|[e2|] [|[e3|] rest]]]; cbn in *;
    try (exfalso; eapply Hfaults; eauto; fail); repeat split.
Qed.

Lemma load_corrupt w e :
  file (fs w) = Some (Malformed e) \/ file (fs w) = Some (Unreadable e) ->
  StateTracker.load w = (Err e, w).
Proof. unfold StateTracker.load, bind, gets. now intros [-> | ->]. Qed.

Lemma shutdown_ok w : logger (refs w) = true -> eval App.shutdown w = Ok tt.
Proof.
  intros Hl.
  unfold App.shutdown, eval, bind, gets, WhatsAppAutomation.isRunning, WhatsAppAutomation.close,
    WhatsAppAutomation.record, WhatsAppAutomation.set_browser, emit, modify, bind, gets.
  rewrite Hl. cbn [negb].
  destruct (whatsapp (refs w)), (browser (refs w)) eqn:Hb; cbn; rewrite ?Hb; reflexivity.
Qed.

Lemma loadConfig_run w :
  App.loadConfig w
  = (match config_yaml (inputs w) with
     | Ok c => Ok c
     | Err e => Err (mkError ("Failed to load config from ./config.yaml: " ++ message e))
     end, w).
Proof. unfold App.loadConfig, bind, gets. now destruct (config_yaml (inputs w)). Qed.

Lemma initialize_load_failure w c e :
  config_yaml (inputs w) = Ok c ->
  file (fs w) = Some (Malformed e) \/ file (fs w) = Some (Unreadable e) ->
  App.initialize w
  = (Err e, set_tracker StateTracker.initial
              (set_refs (mkRefs true (whatsapp (refs w)) (browser (refs w))) w)).
Proof.
  intros Hc Hfile. unfold App.initialize.
  rewrite bind_run. unfold eval at 1, exec at 1. rewrite loadConfig_run, Hc. cbn [fst snd].
  rewrite bind_run. unfold eval at 1, exec at 1, App.set_logger, modify. cbn [fst snd].
  rewrite bind_run. unfold eval at 1, exec at 1, gets. cbn [fst snd].
  rewrite bind_run. unfold eval at 1, exec at 1, StateTracker.new, modify. cbn [fst snd].
  rewrite bind_run. unfold eval, exec.
  rewrite (load_corrupt _ e) by exact Hfile. cbn [fst snd]. reflexivity.
Qed.

(** A corrupt or unreadable state file ends the process with code 1 before
    anything is sent or counted. *)
Lemma main_load_failure render w c e :
  config_yaml (inputs w) = Ok c ->
  file (fs w) = Some (Malformed e) \/ file (fs w) = Some (Unreadable e) ->
  fst (App.main render w) = App.Exit 1
  /\ trace (snd (App.main render w)) = trace w
  /\ stats (snd (App.main render w)) = stats w.
Proof.
  intros Hc Hfile.
  assert (Hchain : (App.new ;; app <- App.initialize ;; App.run render app ;; App.shutdown) w
                   = (Err e, set_tracker StateTracker.initial
                               (set_refs (mkRefs true false false) w))).
  { rewrite bind_run. unfold eval, exec, App.new, modify. cbn [fst snd].
    rewrite bind_run. unfold eval, exec.
    rewrite (initialize_load_failure _ c e) by assumption. reflexivity. }
  unfold App.main. rewrite Hchain.
  unfold App.shutdown, bind, gets, WhatsAppAutomation.isRunning. cbn. auto.
Qed.

Ltac frames := repeat (frame; try (apply retryWithBackoff_preserves; [|intro])).

Lemma load_frame :
  preserves (fun w => (inputs w, transport w, refs w, trace w)) StateTracker.load.
Proof. unfold StateTracker.load, StateTracker.save. frame. Qed.

(** What a successful [initialize] leaves behind. *)
Lemma initialize_ok w app w1 :
  App.initialize w = (Ok app, w1) ->
  inputs w1 = inputs w
  /\ transport w1 = transport w
  /\ trace w1 = trace w
  /\ logger (refs w1) = true
  /\ whatsapp (refs w1) = whatsapp (refs w) || negb (dry_run_flag (inputs w))
  /\ App.dryRun app = dry_run_flag (inputs w).
Proof.
  intros H. unfold App.initialize in H.
  apply bind_ok_inv in H as (c & wa & Hcfg & H).
  apply bind_ok_inv in H as ([] & wb & Hlog & H).
  apply bind_ok_inv in H as (flag & wc & Hflag & H).
  apply bind_ok_inv in H as ([] & wd & Hnew & H).
  apply bind_ok_inv in H as ([] & we & Hload & H).
  apply bind_ok_inv in H as (rl & wf & Hrl & H).
  apply bind_ok_inv in H as ([] & wg & Hwa & H).
  injection H as <- <-.
  rewrite loadConfig_run in Hcfg. injection Hcfg as _ <-.
  unfold App.set_logger, modify in Hlog. injection Hlog as <-.
  unfold gets in Hflag. injection Hflag as <- <-.
  unfold StateTracker.new, modify in Hnew. injection Hnew as <-.
  pose proof (load_frame (set_tracker StateTracker.initial
                            (set_refs (mkRefs true (whatsapp (refs w)) (browser (refs w))) w)))
    as Hframe.
  unfold exec in Hframe. rewrite Hload in Hframe. cbn in Hframe.
  injection Hframe as Hi Ht Hr Htr.
  unfold RateLimiter.new, bind, modify, ret in Hrl. injection Hrl as _ <-.
  cbn [inputs set_refs] in Hwa |- *.
  destruct (dry_run_flag (inputs w)); cbn [negb] in Hwa;
    unfold App.set_whatsapp, modify, ret in Hwa; injection Hwa as <-;
    cbn; rewrite ?Hr, ?orb_true_r, ?orb_false_r; cbn; repeat split; assumption.
Qed.

Section Completion.
Variable render : string -> Contact -> Result string.
Variable this : App.t.

Lemma processContact_logger template contact :
  preserves (fun w => logger (refs w)) (App.processContact render this template contact).
Proof.
  unfold App.processContact, App.attempt, App.recover, App.send, App.on_whatsapp,
    RateLimiter.wait, StateTracker.markAsSent, StateTracker.save,
    StateTracker.wasMessageSent, StateTracker.getMessageInfo,
    WhatsAppAutomation.takeScreenshot, WhatsAppAutomation.sendMessage.
  cbv zeta. frames.
Qed.

Lemma processContacts_logger template valid :
  preserves (fun w => logger (refs w)) (App.processContacts render this template valid).
Proof.
  induction valid as [|contact rest IH]; cbn [App.processContacts]; [frame|].
  apply preserves_bind; [apply processContact_logger | intros _; exact IH].
Qed.

Lemma run_logger : preserves (fun w => logger (refs w)) (App.run render this).
Proof.
  unfold App.run, App.parseContactsCSV, App.loadTemplate, App.on_whatsapp,
    WhatsAppAutomation.initialize, App.processAll.
  frame; apply processContacts_logger.
Qed.

(** [run] returns once its inputs are read and the transport is up. *)
Lemma run_ok w rows text :
  contacts_rows (inputs w) = Ok rows ->
  template_text (inputs w) = Ok text ->
  App.dryRun this = true \/ (whatsapp (refs w) = true /\ launch (transport w) = None) ->
  eval (App.run render this) w = Ok tt.
Proof.
  intros Hrows Htext Hup. unfold App.run, App.parseContactsCSV, eval.
  unfold bind, gets. rewrite Hrows. unfold ret. cbv beta iota.
  destruct (fst (validateContacts rows)) as [|c0 rest]; [reflexivity|].
  assert (Hloop : forall t w0, fst (App.processAll render this t (c0 :: rest) w0) = Ok tt)
    by (intros; apply processAll_tally).
  destruct (_ && _).
  - unfold App.loadTemplate, bind, gets. rewrite Htext. unfold ret. cbv beta iota.
    destruct Hup as [Hdry | [Hwa Hlaunch]].
    + rewrite Hdry. cbn [negb]. apply Hloop.
    + destruct (App.dryRun this); cbn [negb]; [apply Hloop|].
      unfold App.on_whatsapp, WhatsAppAutomation.initialize,
        WhatsAppAutomation.record, WhatsAppAutomation.set_browser, emit, bind, gets, modify.
      cbn [refs set_trace transport]. rewrite Hwa, Hlaunch. apply Hloop.
  - destruct Hup as [Hdry | [Hwa Hlaunch]].
    + rewrite Hdry. cbn [negb]. apply Hloop.
    + destruct (App.dryRun this); cbn [negb]; [apply Hloop|].
      unfold App.on_whatsapp, WhatsAppAutomation.initialize,
        WhatsAppAutomation.record, WhatsAppAutomation.set_browser, emit, bind, gets, modify.
      cbn [refs set_trace transport]. rewrite Hwa, Hlaunch. apply Hloop.
Qed.

End Completion.

(** Once initialization has succeeded, the inputs are readable and the
    transport comes up, the process exits with code 0, whatever becomes of
    the single contacts. *)
Lemma main_completes render w app w1 rows text :
  (App.new ;; App.initialize) w = (Ok app, w1) ->
  contacts_rows (inputs w) = Ok rows ->
  template_text (inputs w) = Ok text ->
  dry_run_flag (inputs w) = true \/ launch (transport w) = None ->
  fst (App.main render w) = App.Exit 0.
Proof.
  intros Hinit Hrows Htext Hup.
  apply bind_ok_inv in Hinit as ([] & w0 & Hnew & Hinit).
  unfold App.new, modify in Hnew. injection Hnew as <-.
  destruct (initialize_ok _ _ _ Hinit) as (Hi & Ht & _ & Hl & Hwa & Hdry).
  cbn in Hi, Ht, Hwa, Hdry.
  assert (Hrun : eval (App.run render app) w1 = Ok tt).
  { apply (run_ok render app w1 rows text); rewrite ?Hi, ?Ht; auto.
    rewrite Hdry, Hwa. destruct Hup as [-> | ->]; auto.
    destruct (dry_run_flag (inputs w)); auto. }
  assert (Hshut : eval App.shutdown (exec (App.run render app) w1) = Ok tt).
  { apply shutdown_ok. rewrite (run_logger render app w1). exact Hl. }
  unfold App.main.
  rewrite bind_run. unfold eval at 1, exec at 1, App.new, modify. cbn [fst snd].
  rewrite bind_run. unfold eval at 1, exec at 1. rewrite Hinit. cbn [fst snd].
  rewrite bind_run, Hrun.
  unfold eval in Hshut. destruct (App.shutdown _) as [[[]|e] w3]; [reflexivity|discriminate].
Qed.

(** C9. [load] on a new tracker: with no state file, it returns, the ledger
    is empty and the file now holds it (the directory creation and the write
    meeting no fault); with a state file that cannot be read or parsed, it
    throws.  That throw leaves [initialize], and [main] ends the process with
    code 1 before any contact is processed; whereas once [initialize] has
    returned, the inputs are readable and the transport comes up, [main]
    runs the loop to its end and exits with code 0, whatever the deliveries
    and the writes of the single contacts meet. *)
Theorem load_failure_is_fatal_contact_failure_is_not :
  (forall w,
      file (fs w) = None -> faultless 3 w ->
      let w' := exec (StateTracker.new ;; StateTracker.load) w in
      eval (StateTracker.new ;; StateTracker.load) w = Ok tt
      /\ tracker w' = mkTrackerState [] (Some (clock (timer w')))
      /\ file (fs w') = Some (Stored (tracker w')))
  /\ (forall w e,
        file (fs w) = Some (Malformed e) \/ file (fs w) = Some (Unreadable e) ->
        eval StateTracker.load w = Err e)
  /\ (forall render w c e,
        config_yaml (inputs w) = Ok c ->
        file (fs w) = Some (Malformed e) \/ file (fs w) = Some (Unreadable e) ->
        fst (App.main render w) = App.Exit 1
        /\ trace (snd (App.main render w)) = trace w
        /\ stats (snd (App.main render w)) = stats w)
  /\ (forall render w app w1 rows text,
        (App.new ;; App.initialize) w = (Ok app, w1) ->
        contacts_rows (inputs w) = Ok rows ->
        template_text (inputs w) = Ok text ->
        dry_run_flag (inputs w) = true \/ launch (transport w) = None ->
        fst (App.main render w) = App.Exit 0).
Proof.
  split; [exact load_creates|]. split; [|split].
  - intros w e H. unfold eval. now rewrite (load_corrupt w e H).
  - exact main_load_failure.
  - exact main_completes.
Qed.

(** ** Whole runs *)

(** The digest is SHA-256: the test vectors of FIPS 180-4. *)
Example sha256_abc :
  SHA256.hex "abc" = "ba7816bf8f01cfea414140de5dae2223b00361a396177a9cb410ff61f20015ad".
Proof. vm_compute. reflexivity. Qed.

Example sha256_two_blocks :
  SHA256.hex "abcdbcdecdefdefgefghfghighijhijkijkljklmklmnlmnomnopnopq"
  = "248d6a61d20638b8e5c026930c3e6039a33ce45964ff2167f6ecedd419db06c1".
Proof. vm_compute. reflexivity. Qed.

(** The placeholder styles of the template engine; [${name}] keeps its
    dollar, the braces being replaced first. *)
Example renderTemplate_styles :
  renderTemplate "Hi {{name}}, {NAME}, ${name}!" ann = Ok "Hi Ann, Ann, $Ann!".
Proof. reflexivity. Qed.

(** Scenario A: a fresh live run; both valid contacts are sent to, one
    second apart, and recorded. *)
Example scenario_fresh_run :
  let end_ := App.main renderTemplate (processStart false []) in
  fst end_ = App.Exit 0
  /\ stats (snd end_) = mkStats 2 2 0 0
  /\ List.length (ledger (snd end_)) = 2%nat
  /\ trace (snd end_)
     = [Called CallInitialize;
        Called (CallSend "+15551230001" "Hello Ann" "" None);
        Slept 1000;
        Called (CallSend "+15551230002" "Hello Bob" "" None);
        Called CallClose].
Proof. vm_compute. repeat split. Qed.

(** Scenario C: every attempt for the first contact fails, the second is
    delivered. *)
Example scenario_one_failure :
  let end_ := App.main renderTemplate (processStart false [Some boom; Some boom; Some boom]) in
  fst end_ = App.Exit 0
  /\ stats (snd end_) = mkStats 2 1 0 1
  /\ Obj.keys (ledger (snd end_)) = [StateTracker.generateHash "+15551230002" "Hello Bob"]
  /\ trace (snd end_)
     = [Called CallInitialize;
        Called (CallSend "+15551230001" "Hello Ann" "" None);
        Slept 1000;
        Called (CallSend "+15551230001" "Hello Ann" "" None);
        Slept 2000;
        Called (CallSend "+15551230001" "Hello Ann" "" None);
        Called (CallSend "+15551230002" "Hello Bob" "" None);
        Called CallClose].
Proof. vm_compute. repeat split. Qed.

(** Scenario D: a dry run; the transport is never called and the ledger
    stays empty. *)
Example scenario_dry_run :
  let end_ := App.main renderTemplate (processStart true []) in
  fst end_ = App.Exit 0
  /\ stats (snd end_) = mkStats 2 2 0 0
  /\ ledger (snd end_) = []
  /\ trace (snd end_) = []
  /\ whatsapp (refs (snd end_)) = false.
Proof. vm_compute. repeat split. Qed.

Lemma run_statistics_invariant_witness :
  contacts_rows (inputs (set_refs (mkRefs true true false) (processStart false [Some boom])))
  = Ok exampleRows
  /\ fst (validateContacts exampleRows) <> []
  /\ eval (App.run renderTemplate liveApp)
          (set_refs (mkRefs true true false) (processStart false [Some boom])) = Ok tt
  /\ total (stats (exec (App.run renderTemplate liveApp)
                     (set_refs (mkRefs true true false) (processStart false [Some boom]))))
     = 2%nat.
Proof.
  assert (H1 : contacts_rows
                 (inputs (set_refs (mkRefs true true false) (processStart false [Some boom])))
               = Ok exampleRows) by reflexivity.
  assert (H2 : fst (validateContacts exampleRows) <> []) by (vm_compute; discriminate).
  assert (H3 : eval (App.run renderTemplate liveApp)
                 (set_refs (mkRefs true true false) (processStart false [Some boom])) = Ok tt)
    by (vm_compute; reflexivity).
  repeat (split; [assumption|]).
  exact (proj1 (proj2 (proj2 (proj2 (proj2
           (run_statistics_invariant renderTemplate liveApp "" []
              (set_refs (mkRefs true true false) (processStart false [Some boom]))))))
           exampleRows H1 H2 H3)).
Defined.

Lemma fingerprint_deterministic_separated_witness :
  colonFree "+15551230001" = true
  /\ colonFree "+15551230002" = true
  /\ ("+15551230001", "Hello: Ann") <> ("+15551230002", "Hello: Ann")
  /\ StateTracker.content "+15551230001" "Hello: Ann"
     <> StateTracker.content "+15551230002" "Hello: Ann".
Proof.
  assert (H1 : colonFree "+15551230001" = true) by reflexivity.
  assert (H2 : colonFree "+15551230002" = true) by reflexivity.
  assert (H3 : ("+15551230001", "Hello: Ann") <> ("+15551230002", "Hello: Ann"))
    by discriminate.
  repeat (split; [assumption|]).
  exact (proj1 (proj2 (proj2 (proj2
           (fingerprint_deterministic_separated "+15551230001" "Hello: Ann"
              "+15551230002" "Hello: Ann")))) H1 H2 H3).
Defined.

Lemma validateContacts_normalizes_phone_witness :
  In [("Name", FStr "Bob"); ("phone", FStr "+15551230002")] (fst (validateContacts exampleRows))
  /\ Str.startsWith (phoneOf [("Name", FStr "Bob"); ("phone", FStr "+15551230002")]) "+"%char
     = true
  /\ nth_error exampleRows 2 = Some [("Name", FStr "Cy"); ("Email", FStr "cy@example.org")]
  /\ In (mkInvalid 4 [("Name", FStr "Cy"); ("Email", FStr "cy@example.org")]
           "Missing phone number")
        (snd (validateContacts exampleRows))
  /\ In (mkInvalid 3 [("name", FStr "Dee"); ("phone", FStr "")] "Missing phone number")
        (snd (validateContacts [ann; [("name", FStr "Dee"); ("phone", FStr "")]])).
Proof.
  assert (H1 : In [("Name", FStr "Bob"); ("phone", FStr "+15551230002")]
                 (fst (validateContacts exampleRows))) by (vm_compute; auto).
  assert (H2 : nth_error exampleRows 2
               = Some [("Name", FStr "Cy"); ("Email", FStr "cy@example.org")]) by reflexivity.
  destruct (validateContacts_normalizes_phone exampleRows) as (_ & Hvalid & Hinvalid & _).
  destruct (Hvalid _ H1) as (c0 & key & v & _ & _ & _ & _ & Hplus & _).
  destruct (Hinvalid 2%nat _ H2 eq_refl) as [Hin _].
  destruct (validateContacts_normalizes_phone [ann; [("name", FStr "Dee"); ("phone", FStr "")]])
    as (_ & _ & _ & Hempty).
  destruct (Hempty 1%nat [("name", FStr "Dee"); ("phone", FStr "")] "phone" (FStr "")
              eq_refl eq_refl eq_refl eq_refl) as [Hin' _].
  split; [exact H1|]. split; [exact Hplus|]. split; [exact H2|]. split; [exact Hin | exact Hin'].
Defined.

Lemma load_failure_is_fatal_contact_failure_is_not_witness :
  faultless 3 freshWorld
  /\ ledger (exec (StateTracker.new ;; StateTracker.load) freshWorld) = []
  /\ persisted (exec (StateTracker.new ;; StateTracker.load) freshWorld) "" = false
  /\ fst (App.main renderTemplate corruptStart) = App.Exit 1
  /\ trace (snd (App.main renderTemplate corruptStart)) = []
  /\ fst (App.main renderTemplate (processStart false [Some boom; Some boom; Some boom]))
     = App.Exit 0.
Proof.
  destruct load_failure_is_fatal_contact_failure_is_not
    as (Hcreates & _ & Hfatal & Hcompletes).
  assert (Hdisk : faultless 3 freshWorld) by (intros e H; exact H).
  destruct (Hcreates freshWorld eq_refl Hdisk) as (_ & Hledger & Hfile).
  split; [exact Hdisk|].
  split; [unfold ledger; rewrite Hledger; reflexivity|].
  split; [unfold persisted; rewrite Hfile, Hledger; reflexivity|].
  destruct (Hfatal renderTemplate corruptStart exampleConfig
              (mkError "Unexpected token } in JSON at position 17") eq_refl
              (or_introl eq_refl)) as (Hcode & Htrace & _).
  split; [exact Hcode|]. split; [exact Htrace|].
  destruct ((App.new ;; App.initialize) (processStart false [Some boom; Some boom; Some boom]))
    as [[app|e] w1] eqn:Hinit.
  - exact (Hcompletes renderTemplate _ app w1 exampleRows "Hello {{name}}" Hinit
             eq_refl eq_refl (or_intror eq_refl)).
  - vm_compute in Hinit. discriminate Hinit.
Defined.

(** * Further properties of the modules *)

(** ** csvParser.js: the rows *)

Section ObjMore.
Context {V : Type}.
Implicit Types (o : JsObject V) (k : string) (v : V).

Lemma get_delete_eq o k : Obj.get (Obj.delete o k) k = None.
Proof.
  induction o as [|[k' v'] o IH]; simpl; [reflexivity|].
  destruct (String.eqb k' k) eqn:E; [exact IH|]. simpl. now rewrite E.
Qed.

Lemma get_delete_ne o k k' : k <> k' -> Obj.get (Obj.delete o k) k' = Obj.get o k'.
Proof.
  intros Hne. induction o as [|[k0 v0] o IH]; simpl; [reflexivity|].
  destruct (String.eqb_spec k0 k) as [->|Hk].
  - rewrite IH. destruct (String.eqb_spec k k'); congruence.
  - simpl. now rewrite IH.
Qed.

Lemma keys_delete o k :
  Obj.keys (Obj.delete o k) = filter (fun k' => negb (String.eqb k' k)) (Obj.keys o).
Proof.
  unfold Obj.keys. induction o as [|[k' v'] o IH]; simpl; [reflexivity|].
  destruct (String.eqb k' k); simpl; now rewrite IH.
Qed.

Lemma wf_delete o k : Obj.wf o -> Obj.wf (Obj.delete o k).
Proof. unfold Obj.wf. rewrite keys_delete. apply NoDup_filter. Qed.

Lemma set_set o k v v' : Obj.set (Obj.set o k v) k v' = Obj.set o k v'.
Proof.
  induction o as [|[k0 v0] o IH]; simpl.
  - now rewrite String.eqb_refl.
  - destruct (String.eqb k0 k) eqn:E; simpl; rewrite E; [reflexivity | now rewrite IH].
Qed.

Lemma set_same o k v : Obj.get o k = Some v -> Obj.set o k v = o.
Proof.
  induction o as [|[k0 v0] o IH]; simpl; [discriminate|].
  destruct (String.eqb_spec k0 k) as [->|Hk].
  - now intros [= ->].
  - intros H. now rewrite IH.
Qed.

Lemma find_key_get o (p : string -> bool) k :
  List.find p (Obj.keys o) = Some k -> exists v, Obj.get o k = Some v.
Proof.
  intros H. apply find_some in H as [Hin _]. apply has_In in Hin.
  unfold Obj.has in Hin. destruct (Obj.get o k) as [v|]; [eauto | discriminate].
Qed.

End ObjMore.

Lemma strip_fixed drop s :
  Str.forallb (fun c => negb (drop c)) s = true -> Str.strip drop s = s.
Proof.
  induction s as [|c s IH]; simpl; [reflexivity|].
  destruct (drop c); simpl; [discriminate|]. intros H. now rewrite IH.
Qed.

Lemma cleanPhone_normalizePhone raw : cleanPhone (normalizePhone raw) = normalizePhone raw.
Proof. apply strip_fixed, normalizePhone_clean. Qed.

Lemma normalizePhone_fixed raw : normalizePhone (normalizePhone raw) = normalizePhone raw.
Proof.
  unfold normalizePhone at 1. rewrite cleanPhone_normalizePhone, normalizePhone_plus. reflexivity.
Qed.

Lemma normalizePhone_truthy raw : Str.truthy (normalizePhone raw) = true.
Proof.
  pose proof (normalizePhone_plus raw) as H.
  destruct (normalizePhone raw); [discriminate | reflexivity].
Qed.

(** The contact [validateContacts] pushes on [valid], in one piece. *)
Lemma validateContact_shape c c' :
  validateContact c = Some c' ->
  exists key v,
    List.find isPhoneKey (Obj.keys c) = Some key
    /\ Obj.get c key = Some v
    /\ field_truthy v = true
    /\ c' = Obj.set (if String.eqb key "phone" then c
                     else Obj.delete (Obj.set c "phone" v) key)
                    "phone" (FStr (normalizePhone (field_toString v))).
Proof.
  unfold validateContact, normalizePhone.
  destruct (List.find isPhoneKey (Obj.keys c)) as [key|]; [|discriminate].
  destruct (Obj.get c key) as [v|] eqn:Hg; [|discriminate].
  destruct (field_truthy v) eqn:Ht; [|discriminate].
  intros [= <-]. exists key, v. repeat split; auto.
  destruct (Str.startsWith (cleanPhone (field_toString v)) "+"%char);
    [reflexivity | apply set_set].
Qed.

Lemma validateContact_rejects c :
  validateContact c = None
  <-> List.find isPhoneKey (Obj.keys c) = None
      \/ exists key v, List.find isPhoneKey (Obj.keys c) = Some key
                       /\ Obj.get c key = Some v /\ field_truthy v = false.
Proof.
  unfold validateContact.
  destruct (List.find isPhoneKey (Obj.keys c)) as [key|] eqn:Hf.
  - destruct (find_key_get c isPhoneKey key Hf) as [v Hv]. rewrite Hv.
    destruct (field_truthy v) eqn:Ht.
    + split; [discriminate|]. intros [H|(k & v' & [= <-] & Hg & Hfalse)]; [discriminate|].
      rewrite Hv in Hg. injection Hg as <-. congruence.
    + split; [|reflexivity]. intros _. right. exists key, v. auto.
  - split; auto.
Qed.

Lemma validateFrom_split i contacts :
  snd (validateFrom i contacts)
  = map (fun p => mkInvalid (fst p + 2) (snd p) "Missing phone number")
        (filter (fun p => rejected (snd p)) (combine (seq i (List.length contacts)) contacts)).
Proof.
  revert i. induction contacts as [|c rest IH]; intros i; simpl; [reflexivity|].
  specialize (IH (S i)). destruct (validateFrom (S i) rest) as [valid invalid].
  simpl in IH. unfold rejected at 1. simpl.
  destruct (validateContact c); simpl; now rewrite IH.
Qed.

Lemma validateFrom_lengths i contacts :
  (List.length (fst (validateFrom i contacts)) + List.length (snd (validateFrom i contacts))
   = List.length contacts)%nat.
Proof.
  revert i. induction contacts as [|c rest IH]; intros i; simpl; [reflexivity|].
  specialize (IH (S i)). destruct (validateFrom (S i) rest) as [valid invalid].
  simpl in IH. destruct (validateContact c); simpl; lia.
Qed.

Lemma filter_combine_seq_sorted {A : Type} (p : nat * A -> bool) (l : list A) i :
  StronglySorted lt (map fst (filter p (combine (seq i (List.length l)) l)))
  /\ Forall (fun n => (i <= n)%nat) (map fst (filter p (combine (seq i (List.length l)) l))).
Proof.
  revert i. induction l as [|x l IH]; intros i; simpl.
  - split; constructor.
  - destruct (IH (S i)) as [Hs Hf].
    assert (Hf' : Forall (fun n => (i <= n)%nat)
                    (map fst (filter p (combine (seq (S i) (List.length l)) l)))).
    { eapply Forall_impl; [|exact Hf]. simpl. intros; lia. }
    destruct (p (i, x)); simpl.
    + split; [constructor; [exact Hs|] | constructor; [lia | exact Hf']].
      eapply Forall_impl; [|exact Hf]. simpl. intros; lia.
    + split; assumption.
Qed.

Lemma in_combine_seq {A : Type} (l : list A) i n x :
  In (n, x) (combine (seq i (List.length l)) l) -> (i <= n)%nat /\ nth_error l (n - i) = Some x.
Proof.
  revert i. induction l as [|y l IH]; intros i; simpl; [tauto|].
  intros [[= <- <-]|H].
  - split; [lia|]. now rewrite Nat.sub_diag.
  - destruct (IH (S i) H) as [Hle Hn]. split; [lia|].
    replace (n - i)%nat with (S (n - S i)) by lia. exact Hn.
Qed.

Lemma sorted_shift (l : list nat) d :
  StronglySorted lt l -> StronglySorted lt (map (fun n => (n + d)%nat) l).
Proof.
  induction 1 as [|n l Hs IH Hall]; simpl; constructor; [exact IH|].
  rewrite Forall_map. eapply Forall_impl; [|exact Hall]. simpl. intros; lia.
Qed.

(** X1. [validateContacts] loses no row and invents none: every row is on
    exactly one of the two lists; the invalid ones are the rejected rows,
    untouched and in their order, each with its line of the file (position
    plus two, the header being line one) and the reason; and a row is
    rejected exactly when it has no phone-like column or the cell of that
    column is empty or zero. *)
Theorem validateContacts_partitions :
  forall contacts : list Contact,
    let valid := fst (validateContacts contacts) in
    let invalid := snd (validateContacts contacts) in
    (List.length valid + List.length invalid = List.length contacts)%nat
    /\ map contact invalid = filter rejected contacts
    /\ StronglySorted lt (map index invalid)
    /\ (forall inv, In inv invalid ->
          (2 <= index inv)%nat
          /\ nth_error contacts (index inv - 2) = Some (contact inv)
          /\ reason inv = "Missing phone number")
    /\ (forall c, rejected c = true
          <-> List.find isPhoneKey (Obj.keys c) = None
              \/ exists key v, List.find isPhoneKey (Obj.keys c) = Some key
                               /\ Obj.get c key = Some v /\ field_truthy v = false).
Proof.
  intros contacts valid invalid. subst valid invalid. unfold validateContacts.
  split; [apply validateFrom_lengths|].
  rewrite validateFrom_split.
  split; [|split; [|split]].
  - rewrite map_map. cbn [contact].
    generalize 0%nat. induction contacts as [|c rest IH]; intros i; simpl; [reflexivity|].
    destruct (rejected c); simpl; now rewrite IH.
  - rewrite map_map. cbn [index].
    rewrite <- (map_map fst (fun n => (n + 2)%nat)).
    apply sorted_shift, (filter_combine_seq_sorted (fun p => rejected (snd p)) contacts 0).
  - intros inv Hin. apply in_map_iff in Hin as ([n x] & <- & Hin).
    apply filter_In in Hin as [Hin _]. apply in_combine_seq in Hin as [_ Hn].
    cbn [index contact reason fst snd]. rewrite Nat.sub_0_r in Hn.
    split; [lia|]. split; [|reflexivity]. now rewrite Nat.add_sub.
  - intros c. rewrite <- validateContact_rejects. unfold rejected.
    destruct (validateContact c); split; congruence.
Qed.

Lemma validateContact_other_fields c c' :
  validateContact c = Some c' ->
  exists key,
    List.find isPhoneKey (Obj.keys c) = Some key
    /\ (forall k, k <> "phone" -> k <> key -> Obj.get c' k = Obj.get c k)
    /\ (key <> "phone" -> Obj.has c' key = false)
    /\ Obj.has c' "phone" = true
    /\ (Obj.wf c -> Obj.wf c').
Proof.
  intros Hv. destruct (validateContact_shape c c' Hv) as (key & v & Hf & Hg & Ht & ->).
  exists key. split; [exact Hf|].
  destruct (String.eqb_spec key "phone") as [->|Hne].
  - split; [|split; [|split]].
    + intros k Hk _. now rewrite get_set_ne by congruence.
    + congruence.
    + now rewrite has_set, String.eqb_refl.
    + apply wf_set.
  - split; [|split; [|split]].
    + intros k Hk Hk'. rewrite get_set_ne by congruence.
      rewrite get_delete_ne by congruence. now rewrite get_set_ne by congruence.
    + intros _. unfold Obj.has. rewrite get_set_ne by congruence.
      now rewrite get_delete_eq.
    + now rewrite has_set, String.eqb_refl.
    + intros Hwf. now apply wf_set, wf_delete, wf_set.
Qed.

Lemma valid_from contacts c' :
  In c' (fst (validateContacts contacts)) ->
  exists c, In c contacts /\ validateContact c = Some c'.
Proof.
  unfold validateContacts. rewrite validateFrom_valid. unfold passing. rewrite in_flat_map.
  intros (c & Hin & Hc). exists c. split; [exact Hin|].
  destruct (validateContact c) as [c0|]; [|contradiction]. destruct Hc as [<-|[]]. reflexivity.
Qed.

(** X2. A valid contact keeps every field of its row but the phone: the
    other cells are what they were, the phone-like column has become
    [phone] (the old name is gone), and the keys are still unique. *)
Theorem validateContacts_keeps_other_fields :
  forall (contacts : list Contact) (c' : Contact),
    In c' (fst (validateContacts contacts)) ->
    exists c key,
      In c contacts
      /\ List.find isPhoneKey (Obj.keys c) = Some key
      /\ (forall k, k <> "phone" -> k <> key -> Obj.get c' k = Obj.get c k)
      /\ (key <> "phone" -> Obj.has c' key = false)
      /\ Obj.has c' "phone" = true
      /\ (Obj.wf c -> Obj.wf c').
Proof.
  intros contacts c' Hin. destruct (valid_from contacts c' Hin) as (c & Hc & Hv).
  destruct (validateContact_other_fields c c' Hv) as (key & H).
  exists c, key. split; [exact Hc | exact H].
Qed.

Lemma find_only (p : string -> bool) (l : list string) (x : string) :
  In x l -> p x = true -> (forall k, In k l -> p k = true -> k = x) -> List.find p l = Some x.
Proof.
  intros Hin Hp Hall. destruct (List.find p l) as [y|] eqn:E.
  - apply find_some in E as [Hy Hpy]. f_equal. now apply Hall.
  - exfalso. pose proof (find_none _ _ E x Hin). congruence.
Qed.

Lemma isPhoneKey_phone : isPhoneKey "phone" = true.
Proof. reflexivity. Qed.

Lemma validateContact_fixed c c' :
  phoneColumnSettled c -> validateContact c = Some c' -> validateContact c' = Some c'.
Proof.
  intros Hone Hv. destruct (validateContact_shape c c' Hv) as (key & v & Hf & Hg & Ht & Hc').
  set (np := normalizePhone (field_toString v)) in *.
  assert (Hget : Obj.get c' "phone" = Some (FStr np)) by (subst c'; apply get_set_eq).
  assert (Hfind : List.find isPhoneKey (Obj.keys c') = Some "phone").
  { apply find_only; [apply has_In; unfold Obj.has; now rewrite Hget | reflexivity |].
    intros k Hk Hp. destruct (String.eqb_spec k "phone") as [|Hne]; [assumption|exfalso].
    assert (Hkc : In k (Obj.keys c) /\ k <> key).
    { subst c'. apply has_In in Hk. unfold Obj.has in Hk.
      rewrite get_set_ne in Hk by congruence.
      destruct (String.eqb_spec key "phone") as [->|Hkey].
      - split; [|congruence]. apply has_In. exact Hk.
      - destruct (String.eqb_spec key k) as [->|Hkk].
        + now rewrite get_delete_eq in Hk.
        + rewrite get_delete_ne in Hk by assumption.
          rewrite get_set_ne in Hk by congruence.
          split; [|congruence]. apply has_In. exact Hk. }
    destruct Hkc as [Hin Hkk]. destruct (Hone k Hin Hp) as [|Hfk]; [contradiction|].
    rewrite Hf in Hfk. congruence. }
  pose proof (cleanPhone_normalizePhone (field_toString v)) as Hclean.
  pose proof (normalizePhone_plus (field_toString v)) as Hplus.
  pose proof (normalizePhone_truthy (field_toString v)) as Htruthy.
  fold np in Hclean, Hplus, Htruthy. clearbody np. clear Hc'.
  unfold validateContact. rewrite Hfind, Hget. cbn [field_truthy field_toString].
  rewrite Htruthy, String.eqb_refl, Hclean, Hplus.
  now rewrite set_same.
Qed.

(** X3. Validating the valid contacts again changes nothing and rejects
    none, provided no row had a second phone-like column besides [phone]. *)
Theorem validateContacts_revalidates :
  forall contacts : list Contact,
    Forall phoneColumnSettled contacts ->
    validateContacts (fst (validateContacts contacts)) = (fst (validateContacts contacts), []).
Proof.
  intros contacts Hall. unfold validateContacts at 2 3. rewrite validateFrom_valid.
  unfold validateContacts. generalize 0%nat.
  induction Hall as [|c rest Hc _ IH]; intros i; [reflexivity|].
  cbn [passing flat_map]. destruct (validateContact c) as [c'|] eqn:Hv; [|apply IH].
  cbn [app validateFrom]. fold (passing rest). rewrite (IH (S i)).
  now rewrite (validateContact_fixed c c' Hc Hv).
Qed.

Lemma has_string_In (s : list string) (x : string) : JsSet.has String.eqb s x = true <-> In x s.
Proof.
  unfold JsSet.has. rewrite existsb_exists. split.
  - intros (y & Hy & E). apply String.eqb_eq in E. now subst.
  - intros H. exists x. split; [exact H | apply String.eqb_refl].
Qed.

Lemma add_string_In (s : list string) (x y : string) :
  In y (JsSet.add String.eqb s x) <-> In y s \/ y = x.
Proof.
  unfold JsSet.add. destruct (JsSet.has String.eqb s x) eqn:E.
  - apply has_string_In in E. split; [auto | intros [H| ->]; assumption].
  - rewrite in_app_iff. simpl. intuition congruence.
Qed.

Lemma add_string_NoDup (s : list string) (x : string) :
  NoDup s -> NoDup (JsSet.add String.eqb s x).
Proof.
  intros Hs. unfold JsSet.add. destruct (JsSet.has String.eqb s x) eqn:E; [exact Hs|].
  apply NoDup_app; [exact Hs | repeat constructor; simpl; tauto |].
  intros y Hy [<-|[]]. apply has_string_In in Hy. congruence.
Qed.

Lemma addAll_In (l s : list string) (y : string) :
  In y (fold_left (JsSet.add String.eqb) l s) <-> In y s \/ In y l.
Proof.
  revert s. induction l as [|x l IH]; intros s; simpl; [tauto|].
  rewrite IH, add_string_In. intuition congruence.
Qed.

Lemma addAll_NoDup (l s : list string) :
  NoDup s -> NoDup (fold_left (JsSet.add String.eqb) l s).
Proof.
  revert s. induction l as [|x l IH]; intros s Hs; simpl; [exact Hs|].
  apply IH, add_string_NoDup, Hs.
Qed.

Lemma addAll_fresh (l s : list string) :
  NoDup (s ++ l) -> fold_left (JsSet.add String.eqb) l s = s ++ l.
Proof.
  revert s. induction l as [|x l IH]; intros s Hnd; simpl; [now rewrite app_nil_r|].
  unfold JsSet.add. destruct (JsSet.has String.eqb s x) eqn:E.
  - exfalso. apply has_string_In in E. apply NoDup_remove_2 in Hnd.
    apply Hnd, in_or_app. now left.
  - rewrite IH; rewrite <- app_assoc; [reflexivity | exact Hnd].
Qed.

(** A set only grows, at its end. *)
Lemma addAll_prefix (l s : list string) :
  exists more, fold_left (JsSet.add String.eqb) l s = s ++ more.
Proof.
  revert s. induction l as [|x l IH]; intros s; simpl.
  - exists []. now rewrite app_nil_r.
  - destruct (IH (JsSet.add String.eqb s x)) as [more ->].
    unfold JsSet.add. destruct (JsSet.has String.eqb s x); [eauto|].
    exists ([x] ++ more). now rewrite app_assoc.
Qed.

Lemma fields_fold_In (contacts : list Contact) (s : list string) (y : string) :
  In y (fold_left (fun fields contact =>
                     fold_left (JsSet.add String.eqb) (Obj.keys contact) fields) contacts s)
  <-> In y s \/ exists c, In c contacts /\ In y (Obj.keys c).
Proof.
  revert s. induction contacts as [|c rest IH]; intros s; simpl.
  - split; [auto | intros [H|(c & [] & _)]; exact H].
  - rewrite IH, addAll_In. split.
    + intros [[H|H]|(c' & Hc' & Hy)]; eauto.
    + intros [H|(c' & [<-|Hc'] & Hy)]; eauto.
Qed.

Lemma fields_fold_NoDup (contacts : list Contact) (s : list string) :
  NoDup s ->
  NoDup (fold_left (fun fields contact =>
                      fold_left (JsSet.add String.eqb) (Obj.keys contact) fields) contacts s).
Proof.
  revert s. induction contacts as [|c rest IH]; intros s Hs; simpl; [exact Hs|].
  apply IH, addAll_NoDup, Hs.
Qed.

Lemma fields_fold_prefix (contacts : list Contact) (s : list string) :
  exists more,
    fold_left (fun fields contact =>
                 fold_left (JsSet.add String.eqb) (Obj.keys contact) fields) contacts s
    = s ++ more.
Proof.
  revert s. induction contacts as [|c rest IH]; intros s; simpl.
  - exists []. now rewrite app_nil_r.
  - destruct (addAll_prefix (Obj.keys c) s) as [m1 ->].
    destruct (IH (s ++ m1)) as [m2 ->]. exists (m1 ++ m2). now rewrite app_assoc.
Qed.

(** X4. [getAvailableFields] returns, each once, the field names that some
    contact has, those of the first contact first; after validation [phone]
    is among them. *)
Theorem getAvailableFields_union :
  forall contacts : list Contact,
    (forall k, In k (getAvailableFields contacts)
               <-> exists c, In c contacts /\ Obj.has c k = true)
    /\ NoDup (getAvailableFields contacts)
    /\ (forall c rest, contacts = c :: rest -> Obj.wf c ->
          exists more, getAvailableFields contacts = Obj.keys c ++ more)
    /\ (forall rows, contacts = fst (validateContacts rows) -> contacts <> [] ->
          In "phone" (getAvailableFields contacts)).
Proof.
  intros contacts.
  assert (Hin : forall k, In k (getAvailableFields contacts)
                          <-> exists c, In c contacts /\ Obj.has c k = true).
  { intros k. unfold getAvailableFields. destruct contacts as [|c0 rest].
    - split; [intros [] | intros (c & [] & _)].
    - rewrite fields_fold_In. split.
      + intros [[]|(c & Hc & Hk)]. exists c. split; [exact Hc | now apply has_In].
      + intros (c & Hc & Hk). right. exists c. split; [exact Hc | now apply has_In]. }
  split; [exact Hin|]. split; [|split].
  - unfold getAvailableFields. destruct contacts; [constructor|].
    apply fields_fold_NoDup. constructor.
  - intros c rest -> Hwf. unfold getAvailableFields. cbn [fold_left].
    assert (Hk : fold_left (JsSet.add String.eqb) (Obj.keys c) [] = Obj.keys c)
      by (apply (addAll_fresh (Obj.keys c) []), Hwf).
    rewrite Hk. apply fields_fold_prefix.
  - intros rows -> Hne. apply Hin.
    destruct (fst (validateContacts rows)) as [|c rest] eqn:E; [congruence|].
    exists c. split; [now left|].
    assert (Hc : In c (passing rows)).
    { unfold validateContacts in E. rewrite validateFrom_valid in E. rewrite E. now left. }
    unfold passing in Hc. apply in_flat_map in Hc as (c0 & _ & Hc).
    destruct (validateContact c0) as [c'|] eqn:Hv; [|contradiction].
    destruct Hc as [<-|[]].
    destruct (validateContact_phone _ _ Hv) as (key & v & _ & _ & _ & Hp).
    unfold Obj.has. now rewrite Hp.
Qed.

(** ** templateRenderer.js: placeholders *)

Section Templates.
Local Open Scope string_scope.

Lemma sapp_assoc (a b c : string) : (a ++ b) ++ c = a ++ b ++ c.
Proof. induction a as [|x a IH]; simpl; [reflexivity | now rewrite IH]. Qed.


Lemma slength_app (a b : string) :
  String.length (a ++ b) = (String.length a + String.length b)%nat.
Proof. induction a as [|x a IH]; simpl; [reflexivity | now rewrite IH]. Qed.


Lemma isWordChar_plain c :
  isWordChar c = true -> c <> "{"%char /\ c <> "}"%char /\ c <> "$"%char.
Proof.
  intros H. repeat split; intros ->; discriminate H.
Qed.


Lemma dropPrefix_spec p s r : dropPrefix p s = Some r <-> s = p ++ r.
Proof.
  revert s. induction p as [|a p IH]; intros s; simpl.
  - split; [now intros [= ->] | now intros ->].
  - destruct s as [|b s]; [split; discriminate|].
    destruct (Ascii.eqb_spec a b) as [->|Hne].
    + rewrite IH. split; [now intros -> | now intros [= ->]].
    + split; [discriminate | intros [= -> _]; contradiction].
Qed.

Lemma wordRun_spec s :
  s = fst (wordRun s) ++ snd (wordRun s)
  /\ Str.forallb isWordChar (fst (wordRun s)) = true
  /\ ends (snd (wordRun s)).
Proof.
  induction s as [|c s (IH1 & IH2 & IH3)]; simpl; [auto|].
  destruct (isWordChar c) eqn:E.
  - destruct (wordRun s) as [w r]. simpl in *. rewrite E. repeat split; auto. now f_equal.
  - simpl. auto.
Qed.

Lemma wordRun_app w r :
  Str.forallb isWordChar w = true -> ends r -> wordRun (w ++ r) = (w, r).
Proof.
  induction w as [|c w IH]; simpl.
  - intros _ H. destruct r as [|x r]; [reflexivity|]. simpl in *. now rewrite H.
  - intros H Hr. apply andb_prop in H as [-> Hw]. now rewrite (IH Hw Hr).
Qed.

Lemma matchAt_sound o c s name len :
  matchAt o c s = Some (name, len) ->
  isWord name = true
  /\ (exists rest, s = o ++ name ++ c ++ rest)
  /\ len = (String.length o + String.length name + String.length c)%nat.
Proof.
  unfold matchAt. destruct (dropPrefix o s) as [rest|] eqn:Ho; [|discriminate].
  apply dropPrefix_spec in Ho. subst s.
  destruct (wordRun_spec rest) as (Hr & Hw & _).
  destruct (wordRun rest) as [w r]. simpl in *.
  destruct (Str.truthy w) eqn:Ht; [|discriminate].
  destruct (dropPrefix c r) as [rest'|] eqn:Hc; [|discriminate].
  apply dropPrefix_spec in Hc. intros [= <- <-]. subst.
  unfold isWord. rewrite Ht, Hw. repeat split. eauto.
Qed.

Lemma matchAt_complete o c name rest :
  isWord name = true -> ends c -> c <> "" ->
  matchAt o c (o ++ name ++ c ++ rest)
  = Some (name, (String.length o + String.length name + String.length c)%nat).
Proof.
  unfold isWord. intros H Hc Hne. apply andb_prop in H as [Ht Hw].
  unfold matchAt.
  assert (Ho : dropPrefix o (o ++ name ++ c ++ rest) = Some (name ++ c ++ rest))
    by now apply dropPrefix_spec.
  rewrite Ho. rewrite wordRun_app; [| exact Hw | destruct c; [congruence | exact Hc]].
  rewrite Ht.
  assert (Hd : dropPrefix c (c ++ rest) = Some rest) by now apply dropPrefix_spec.
  now rewrite Hd.
Qed.

Lemma execAll_sound o c s :
  forall skip name,
    In name (execAll o c skip s) ->
    isWord name = true /\ occursIn (o ++ name ++ c) s.
Proof.
  induction s as [|a s IH]; intros skip name; simpl; [tauto|].
  assert (Hrest : forall k, In name (execAll o c k s) ->
                            isWord name = true /\ occursIn (o ++ name ++ c) (String a s)).
  { intros k Hin. destruct (IH k name Hin) as (Hw & pre & post & ->).
    split; [exact Hw|]. now exists (String a pre), post. }
  destruct skip as [|k]; [|apply Hrest].
  destruct (matchAt o c (String a s)) as [[nm len]|] eqn:Hm; [|apply Hrest].
  intros [<-|Hin]; [|eapply Hrest, Hin].
  destruct (matchAt_sound _ _ _ _ _ Hm) as (Hw & (rest & ->) & _).
  split; [exact Hw|]. exists "", rest. simpl. now rewrite !sapp_assoc.
Qed.

Lemma clearOfOpen_word w rest :
  Str.forallb isWordChar w = true ->
  clearOfOpen (String.length w + 1) (w ++ String "}" rest).
Proof.
  induction w as [|c w IH]; simpl.
  - intros _. split; [discriminate | destruct rest; exact I].
  - intros H. apply andb_prop in H as [Hc Hw]. split; [|apply IH, Hw].
    apply isWordChar_plain in Hc. tauto.
Qed.

Lemma execAll_complete name post :
  isWord name = true ->
  forall s skip pre,
    s = pre ++ "{" ++ name ++ "}" ++ post ->
    clearOfOpen skip s ->
    In name (execAll "{" "}" skip s).
Proof.
  intros Hw. induction s as [|a s IH]; intros skip pre Hs Hclear.
  - destruct pre; discriminate.
  - simpl. destruct skip as [|k].
    + destruct pre as [|b pre].
      * rewrite Hs. cbn [append].
        pose proof (matchAt_complete "{" "}" name post Hw) as Hm.
        cbn [append String.length] in Hm. rewrite Hm; [now left | reflexivity | discriminate].
      * injection Hs as -> Hs.
        destruct (matchAt "{" "}" (String b s)) as [[nm len]|] eqn:Hm.
        -- right. apply (IH _ pre Hs).
           destruct (matchAt_sound _ _ _ _ _ Hm) as (Hnm & (rest & Hr) & ->).
           cbn [append] in Hr. injection Hr as _ ->.
           cbn [String.length]. replace (1 + String.length nm + 1 - 1)%nat
             with (String.length nm + 1)%nat by lia.
           apply clearOfOpen_word. unfold isWord in Hnm. now apply andb_prop in Hnm.
        -- apply (IH _ pre Hs). exact I.
    + destruct Hclear as [Ha Hclear]. destruct pre as [|b pre].
      * cbn [append] in Hs. injection Hs as -> _. contradiction.
      * injection Hs as -> Hs. apply (IH _ pre Hs Hclear).
Qed.

Lemma extractPlaceholders_In template name :
  In name (extractPlaceholders template)
  <-> In name (execAll "{{" "}}" 0 template)
      \/ In name (execAll "{" "}" 0 template)
      \/ In name (execAll "${" "}" 0 template).
Proof.
  unfold extractPlaceholders, patterns. cbn [fold_left fst snd].
  rewrite !addAll_In. simpl. tauto.
Qed.

Lemma extractPlaceholders_NoDup template : NoDup (extractPlaceholders template).
Proof.
  unfold extractPlaceholders, patterns. cbn [fold_left].
  repeat apply addAll_NoDup. constructor.
Qed.

Lemma extractPlaceholders_words template name :
  In name (extractPlaceholders template)
  <-> isWord name = true /\ occursIn ("{" ++ name ++ "}") template.
Proof.
  rewrite extractPlaceholders_In. split.
  - intros [H|[H|H]]; apply execAll_sound in H as (Hw & pre & post & ->);
      (split; [exact Hw|]).
    + exists (pre ++ "{"), ("}" ++ post). rewrite !sapp_assoc. reflexivity.
    + exists pre, post. reflexivity.
    + exists (pre ++ "$"), post. rewrite !sapp_assoc. reflexivity.
  - intros (Hw & pre & post & ->). right. left.
    apply (execAll_complete name post Hw _ 0%nat pre); [|exact I].
    now rewrite !sapp_assoc.
Qed.

(** X5. [extractPlaceholders] returns, each once, exactly the words that
    stand between a [{] and a [}] somewhere in the template; what the
    double-brace and the dollar pattern find, the single-brace pattern finds
    as well. *)
Theorem extractPlaceholders_braced_words :
  forall template : string,
    NoDup (extractPlaceholders template)
    /\ (forall name,
          In name (extractPlaceholders template)
          <-> isWord name = true /\ occursIn ("{" ++ name ++ "}") template)
    /\ (forall name,
          In name (execAll "{{" "}}" 0 template) \/ In name (execAll "${" "}" 0 template) ->
          In name (execAll "{" "}" 0 template)).
Proof.
  intros template. split; [apply extractPlaceholders_NoDup|].
  split; [apply extractPlaceholders_words|].
  intros name H.
  assert (Hin : In name (extractPlaceholders template))
    by (apply extractPlaceholders_In; tauto).
  apply extractPlaceholders_words in Hin as (Hw & pre & post & ->).
  apply (execAll_complete name post Hw _ 0%nat pre); [|exact I].
  now rewrite !sapp_assoc.
Qed.

Lemma includes_In l p : includes l p = true <-> In p l.
Proof.
  unfold includes. rewrite existsb_exists. split.
  - intros (y & Hy & E). apply String.eqb_eq in E. now subst.
  - intros H. exists p. split; [exact H | apply String.eqb_refl].
Qed.

(** X6. [validateTemplate] reports as missing exactly the placeholders
    that are not among the available fields, letter for letter, and calls
    the template valid exactly when every braced word of it is an available
    field. *)
Theorem validateTemplate_missing_fields :
  forall (template : string) (availableFields : list string),
    let r := validateTemplate template availableFields in
    Validation.placeholders r = extractPlaceholders template
    /\ (forall p, In p (Validation.missingFields r)
                  <-> In p (extractPlaceholders template) /\ ~ In p availableFields)
    /\ (Validation.valid r = true <-> Validation.missingFields r = [])
    /\ (Validation.valid r = true
        <-> forall name, isWord name = true ->
                         occursIn ("{" ++ name ++ "}") template ->
                         In name availableFields).
Proof.
  intros template availableFields r. subst r. unfold validateTemplate. cbn.
  assert (Hmiss : forall p,
             In p (filter (fun p => negb (includes availableFields p))
                     (extractPlaceholders template))
             <-> In p (extractPlaceholders template) /\ ~ In p availableFields).
  { intros p. rewrite filter_In, negb_true_iff, <- not_true_iff_false, includes_In. tauto. }
  assert (Hvalid : Nat.eqb (List.length (filter (fun p => negb (includes availableFields p))
                                           (extractPlaceholders template))) 0 = true
                   <-> filter (fun p => negb (includes availableFields p))
                         (extractPlaceholders template) = []).
  { rewrite Nat.eqb_eq. apply length_zero_iff_nil. }
  split; [reflexivity|]. split; [exact Hmiss|]. split; [exact Hvalid|].
  rewrite Hvalid. split.
  - intros Hnil name Hw Hocc.
    destruct (in_dec string_dec name availableFields) as [Hin|Hout]; [exact Hin|].
    exfalso. assert (H : In name []); [|destruct H].
    rewrite <- Hnil. apply Hmiss. split; [|exact Hout].
    apply extractPlaceholders_words. auto.
  - intros Hall.
    assert (Hnone : forall p,
               ~ In p (filter (fun p => negb (includes availableFields p))
                         (extractPlaceholders template))).
    { intros p Hp. apply Hmiss in Hp as [Hp Hout]. apply Hout.
      apply extractPlaceholders_words in Hp as [Hw Hocc].
      now apply Hall. }
    destruct (filter _ _) as [|p l]; [reflexivity|].
    exfalso. apply (Hnone p). now left.
Qed.

End Templates.

Section Rendering.
Local Open Scope string_scope.

Lemma renderTemplate_fold template contact :
  renderTemplate template contact = Ok (fold_left substitute contact template).
Proof. reflexivity. Qed.

Lemma lower_open c : Str.lower c = openBrace -> c = openBrace.
Proof.
  destruct c as [[] [] [] [] [] [] [] []]; vm_compute; intros H; first [reflexivity | discriminate H].
Qed.

Lemma prefix_ci_open p s :
  prefix_ci (String openBrace p) s = true -> exists s', s = String openBrace s'.
Proof.
  destruct s as [|c s]; cbn [prefix_ci]; [discriminate|]. intros H. apply andb_prop in H as [H _].
  change (Str.lower openBrace) with openBrace in H.
  apply Ascii.eqb_eq in H. symmetry in H. apply lower_open in H. subst. eauto.
Qed.

Lemma noOpen_head c s : noOpen (String c s) = true -> c <> openBrace /\ noOpen s = true.
Proof.
  unfold noOpen. simpl. intros H. apply andb_prop in H as [Hc Hs]. split; [|exact Hs].
  intros ->. discriminate Hc.
Qed.


(** Every pattern of a field has an opening brace among its first two
    characters. *)
Lemma placeholder_prefix_open field p s :
  In p (placeholders field) -> prefix_ci p s = true -> noOpen s = false.
Proof.
  unfold placeholders. intros [<-|[<-|[<-|[]]]] H.
  - apply (prefix_ci_open _ s) in H as [s' ->]. reflexivity.
  - apply (prefix_ci_open _ s) in H as [s' ->]. reflexivity.
  - destruct s as [|c s]; [discriminate|]. cbn [append prefix_ci] in H.
    apply andb_prop in H as [_ H]. apply (prefix_ci_open _ s) in H as [s' ->].
    unfold noOpen. simpl. apply andb_false_r.
Qed.

Lemma noOpen_absent field p s :
  In p (placeholders field) -> noOpen s = true -> occursCI p s = false.
Proof.
  intros Hp. induction s as [|c s IH]; intros Hs; simpl.
  - rewrite orb_false_r. destruct (prefix_ci p "") eqn:E; [|reflexivity].
    apply (placeholder_prefix_open field p "" Hp) in E. discriminate.
  - destruct (prefix_ci p (String c s)) eqn:E.
    + apply (placeholder_prefix_open field p _ Hp) in E. congruence.
    + apply noOpen_head in Hs as [_ Hs]. now apply IH.
Qed.

Lemma replaceAll_absent pat val s : occursCI pat s = false -> replaceAll pat val 0 s = s.
Proof.
  induction s as [|c s IH]; simpl; [reflexivity|].
  intros H. apply orb_false_elim in H as [Hp Hs].
  cbn [prefix_ci] in Hp. rewrite Hp. now rewrite IH.
Qed.

Lemma substitute_absent text kv : mentions text (fst kv) = false -> substitute text kv = text.
Proof.
  unfold mentions, substitute, placeholders. cbn [existsb fold_left].
  intros H. apply orb_false_elim in H as [H1 H]. apply orb_false_elim in H as [H2 H].
  apply orb_false_elim in H as [H3 _].
  rewrite (replaceAll_absent _ _ text H1), (replaceAll_absent _ _ text H2).
  apply (replaceAll_absent _ _ text H3).
Qed.

Lemma substitute_all_absent text contact :
  (forall k, In k (Obj.keys contact) -> mentions text k = false) ->
  fold_left substitute contact text = text.
Proof.
  induction contact as [|kv rest IH]; intros H; simpl; [reflexivity|].
  rewrite substitute_absent by (apply H; now left).
  apply IH. intros k Hk. apply H. now right.
Qed.

Lemma noOpen_mentions text field : noOpen text = true -> mentions text field = false.
Proof.
  intros H. unfold mentions.
  destruct (existsb _ _) eqn:E; [|reflexivity].
  apply existsb_exists in E as (p & Hp & Hocc).
  rewrite (noOpen_absent field p text Hp H) in Hocc. discriminate.
Qed.

(** X7. A template that mentions no field of the contact, in particular
    one without an opening brace, is rendered as it stands. *)
Theorem renderTemplate_verbatim :
  forall (template : string) (contact : Contact),
    literal contact = true ->
    ((forall k, In k (Obj.keys contact) -> mentions template k = false) ->
     renderTemplate template contact = Ok template)
    /\ (noOpen template = true -> renderTemplate template contact = Ok template)
    /\ renderTemplate "" contact = Ok "".
Proof.
  intros template contact _. rewrite !renderTemplate_fold.
  split; [|split].
  - intros H. now rewrite substitute_all_absent.
  - intros H. rewrite substitute_all_absent; [reflexivity|].
    intros k _. now apply noOpen_mentions.
  - rewrite substitute_all_absent; [reflexivity|]. intros k _. now apply noOpen_mentions.
Qed.

Lemma lower_openBrace : Str.lower openBrace = openBrace.
Proof. reflexivity. Qed.













Section OneField.
Variables (pre post f F : string) (v : Field).
Hypothesis Hpre : noOpen pre = true.
Hypothesis Hpost : noOpen post = true.
Hypothesis Hval : noOpen (shown v) = true.
Hypothesis Hf : noOpen f = true.
Hypothesis Hlower : Str.toLowerCase F = Str.toLowerCase f.







End OneField.



End Rendering.

(** ** retryLogic.js: attempts, delays and the gate *)

Lemma sendsAtMost_preserves {A} (m : M A) : preserves sendCalls m -> sendsAtMost 0 m.
Proof. intros H w. rewrite H. lia. Qed.

Lemma sendsAtMost_weaken {A} (m : M A) a b : (a <= b)%nat -> sendsAtMost a m -> sendsAtMost b m.
Proof. intros Hab H w. specialize (H w). lia. Qed.

Lemma sendsAtMost_bind {A B} (m : M A) (k : A -> M B) a b :
  sendsAtMost a m -> (forall x, sendsAtMost b (k x)) -> sendsAtMost (a + b) (bind m k).
Proof.
  intros Hm Hk w. rewrite exec_bind. specialize (Hm w).
  destruct (eval m w) as [x|e]; [specialize (Hk x (exec m w))|]; lia.
Qed.

Lemma sendsAtMost_try_catch {A} (m : M A) (h : Error -> M A) a b :
  sendsAtMost a m -> (forall e, sendsAtMost b (h e)) -> sendsAtMost (a + b) (try_catch m h).
Proof.
  intros Hm Hh w. specialize (Hm w). unfold exec, try_catch in *.
  destruct (m w) as [[x|e] w1]; simpl in *; [lia|].
  specialize (Hh e w1). unfold exec in Hh. lia.
Qed.

Lemma emit_sendCalls e : isSend e = false -> preserves sendCalls (emit e).
Proof.
  intros He w. unfold sendCalls, exec, emit, modify. cbn [snd trace set_trace].
  rewrite filter_app. cbn [filter]. rewrite He, app_nil_r. reflexivity.
Qed.

Lemma sleep_sendCalls ms : preserves sendCalls (sleep ms).
Proof.
  unfold sleep. apply preserves_bind; [now apply emit_sendCalls | intros _].
  intros w. reflexivity.
Qed.

Lemma trace_sendCalls {A} (m : M A) : preserves trace m -> preserves sendCalls m.
Proof. intros H w. unfold sendCalls. now rewrite H. Qed.

Lemma attempts_sendsAtMost {A} (fn : M A) max maxDelay multiplier :
  sendsAtMost 1 fn ->
  forall left attempt delay lastError,
    sendsAtMost left (attempts fn max maxDelay multiplier left attempt delay lastError).
Proof.
  intros Hfn. induction left as [|left IH]; intros attempt delay lastError.
  - simpl. destruct lastError; apply sendsAtMost_preserves, preserves_throw.
  - rewrite attempts_step. change (S left) with (1 + left)%nat.
    apply sendsAtMost_try_catch; [exact Hfn|]. intros e.
    destruct (attempt <? max)%nat; [|apply IH].
    change left with (0 + left)%nat.
    apply sendsAtMost_bind; [apply sendsAtMost_preserves, sleep_sendCalls | intros _; apply IH].
Qed.

Lemma retryWithBackoff_sendsAtMost {A} (fn : M A) config :
  sendsAtMost 1 fn -> sendsAtMost (attemptsAllowed config) (retryWithBackoff fn config).
Proof.
  intros Hfn. destruct config as [c|]; simpl.
  - now apply attempts_sendsAtMost.
  - apply sendsAtMost_preserves, preserves_throw.
Qed.

Lemma sendMessage_sendsAtMost phone message image caption :
  sendsAtMost 1 (WhatsAppAutomation.sendMessage phone message image caption).
Proof.
  intros w. unfold WhatsAppAutomation.sendMessage, exec, bind, gets.
  destruct (negb (browser (refs w))); [cbn; lia|].
  unfold WhatsAppAutomation.record, emit, modify, WhatsAppAutomation.deliver. cbn.
  destruct (pop (deliveries (transport w))) as [[[e|]|] rest]; cbn;
    unfold sendCalls; cbn; rewrite filter_app, length_app; cbn; lia.
Qed.

Section Bound.
Variable render : string -> Contact -> Result string.
Variable this : App.t.

Let allowed : nat := attemptsAllowed (retry (App.config this)).

Lemma wait_sendCalls l : preserves sendCalls (RateLimiter.wait l).
Proof.
  unfold RateLimiter.wait.
  apply preserves_bind; [apply trace_sendCalls; frame | intros n].
  apply preserves_bind; [frame | intros last].
  apply preserves_bind; [destruct (Qlt_le_dec _ _); [apply sleep_sendCalls | frame] | intros _].
  apply preserves_bind; [apply trace_sendCalls; frame | intros n'].
  apply trace_sendCalls. frame.
Qed.

Lemma send_sendsAtMost contact message :
  sendsAtMost allowed (App.send render this contact message).
Proof.
  unfold App.send. change allowed with (0 + (0 + allowed))%nat.
  apply sendsAtMost_bind; [apply sendsAtMost_preserves, wait_sendCalls | intros _].
  apply sendsAtMost_bind.
  - apply sendsAtMost_preserves, trace_sendCalls. frame.
  - intros caption. apply retryWithBackoff_sendsAtMost.
    intros w. unfold App.on_whatsapp, exec, bind, gets. cbn [fst snd].
    destruct (whatsapp (refs w)); [apply sendMessage_sendsAtMost | cbn; lia].
Qed.

Lemma markAsSent_trace phone message metadata :
  preserves trace (StateTracker.markAsSent phone message metadata).
Proof. unfold StateTracker.markAsSent, StateTracker.save. frame. Qed.

Lemma attempt_sendsAtMost template contact :
  sendsAtMost allowed (App.attempt render this template contact).
Proof.
  unfold App.attempt. cbv zeta. change allowed with (0 + (0 + allowed))%nat.
  apply sendsAtMost_bind; [apply sendsAtMost_preserves, trace_sendCalls; frame | intros message].
  apply sendsAtMost_bind;
    [apply sendsAtMost_preserves, trace_sendCalls; unfold StateTracker.wasMessageSent; frame|].
  intros [|].
  - apply (sendsAtMost_weaken _ 0); [lia|].
    apply sendsAtMost_preserves, trace_sendCalls. unfold StateTracker.getMessageInfo. frame.
  - destruct (App.dryRun this).
    + apply (sendsAtMost_weaken _ 0); [lia|]. apply sendsAtMost_preserves, trace_sendCalls. frame.
    + replace allowed with (allowed + (0 + 0))%nat by lia.
      apply sendsAtMost_bind; [apply send_sendsAtMost | intros _].
      apply sendsAtMost_bind; [apply sendsAtMost_preserves, trace_sendCalls, markAsSent_trace|].
      intros _. apply sendsAtMost_preserves, trace_sendCalls. frame.
Qed.

Lemma recover_sendCalls contact error : preserves sendCalls (App.recover this contact error).
Proof.
  unfold App.recover.
  apply preserves_bind; [apply trace_sendCalls; frame | intros _].
  apply preserves_bind; [frame | intros wa].
  destruct (wa && negb (App.dryRun this)); [|frame].
  unfold WhatsAppAutomation.takeScreenshot.
  destruct (screenshots_enabled (App.config this)); [|frame].
  now apply emit_sendCalls.
Qed.

Lemma processContact_sendsAtMost template contact :
  sendsAtMost allowed (App.processContact render this template contact).
Proof.
  unfold App.processContact. replace allowed with (allowed + 0)%nat by lia.
  apply sendsAtMost_try_catch; [apply attempt_sendsAtMost | intros e].
  apply sendsAtMost_preserves, recover_sendCalls.
Qed.

Lemma processContacts_sendsAtMost template valid :
  sendsAtMost (List.length valid * allowed) (App.processContacts render this template valid).
Proof.
  induction valid as [|contact rest IH]; cbn [App.processContacts List.length].
  - apply sendsAtMost_preserves. frame.
  - cbn [Nat.mul]. apply sendsAtMost_bind; [apply processContact_sendsAtMost | intros _; exact IH].
Qed.

End Bound.

(** X9. For one contact the transport is asked to send at most
    [max_attempts] times, for a whole run at most that many times the number
    of contacts; [retryWithBackoff] calls any operation that sends at most
    once no more often. *)
Theorem sends_bounded_by_attempts :
  forall (render : string -> Contact -> Result string) (this : App.t)
         (template : string) (valid : list Contact) (w : World),
    let allowed := attemptsAllowed (retry (App.config this)) in
    (forall contact,
        (sendCalls (exec (App.processContact render this template contact) w)
         <= sendCalls w + allowed)%nat)
    /\ (sendCalls (exec (App.processAll render this template valid) w)
        <= sendCalls w + List.length valid * allowed)%nat
    /\ (forall (A : Type) (fn : M A) config,
          sendsAtMost 1 fn -> sendsAtMost (attemptsAllowed config) (retryWithBackoff fn config)).
Proof.
  intros render this template valid w allowed. split; [|split].
  - intros contact. apply processContact_sendsAtMost.
  - unfold App.processAll. rewrite exec_bind. cbn [eval modify fst exec snd].
    apply (processContacts_sendsAtMost render this template valid
             (set_stats (mkStats (List.length valid) 0 0 0) w)).
  - intros A fn config. apply retryWithBackoff_sendsAtMost.
Qed.

Lemma retryWithBackoff_none_allowed {A : Type} (fn : M A) config w :
  attemptsAllowed config = 0%nat ->
  retryWithBackoff fn config w
  = (Err (TypeError (match config with
                     | Some _ => "Cannot read properties of undefined (reading 'message')"
                     | None => "Cannot destructure property 'max_attempts' of 'config' as it is undefined."
                     end)), w).
Proof.
  destruct config as [c|]; simpl; [|reflexivity]. intros ->. reflexivity.
Qed.

Lemma bind_throws {A B : Type} (m : M A) (k : A -> M B) w :
  (forall a w', exists e, eval (k a) w' = Err e) -> exists e, eval (bind m k) w = Err e.
Proof.
  intros Hk. rewrite eval_bind. destruct (eval m w) as [a|e]; [apply Hk | eauto].
Qed.

Section NoAttempt.
Variable render : string -> Contact -> Result string.
Variable this : App.t.
Hypothesis live : App.dryRun this = false.
Hypothesis none : attemptsAllowed (retry (App.config this)) = 0%nat.

Lemma send_throws contact message w :
  exists e, eval (App.send render this contact message) w = Err e.
Proof.
  unfold App.send. apply bind_throws. intros _ w1. apply bind_throws. intros caption w2.
  unfold eval. rewrite retryWithBackoff_none_allowed by exact none. cbn [fst]. eauto.
Qed.

Lemma send_sendCalls_none contact message :
  preserves sendCalls (App.send render this contact message).
Proof.
  unfold App.send.
  apply preserves_bind; [apply wait_sendCalls | intros _].
  apply preserves_bind; [apply trace_sendCalls; frame | intros caption].
  intros w. unfold exec. now rewrite retryWithBackoff_none_allowed by exact none.
Qed.

(** With no attempt allowed, a contact that a live run would send to is
    counted as failed, and nothing is sent or recorded. *)
Lemma processContact_none_allowed template contact message w :
  render template contact = Ok message ->
  Obj.has (ledger w) (StateTracker.generateHash (phoneOf contact) message) = false ->
  let w' := exec (App.processContact render this template contact) w in
  stats w' = countFailed (stats w)
  /\ ledger w' = ledger w
  /\ file (fs w') = file (fs w)
  /\ sendCalls w' = sendCalls w.
Proof.
  intros Hr Hnew. destruct (send_throws contact message w) as [e He].
  assert (Hpc : App.processContact render this template contact w
                = App.recover this contact e (exec (App.send render this contact message) w)).
  { unfold App.processContact, try_catch.
    rewrite (attempt_live render this live template contact message w Hr Hnew).
    rewrite bind_run, He. reflexivity. }
  cbv zeta. unfold exec at 1 2 3 4. rewrite Hpc.
  fold (exec (App.recover this contact e) (exec (App.send render this contact message) w)).
  destruct (recover_counts this contact e (exec (App.send render this contact message) w))
    as [_ Hs].
  rewrite Hs, send_stats, recover_ledger, send_ledger.
  rewrite (recover_file this contact e). rewrite (send_file render this contact message).
  rewrite recover_sendCalls, send_sendCalls_none. auto.
Qed.

End NoAttempt.

(** X10. With [max_attempts] zero, or no retry configuration at all,
    [retryWithBackoff] throws a [TypeError] without calling the operation;
    a live run then counts every contact it would send to as failed, and
    sends and records nothing. *)
Theorem no_attempt_allowed_sends_nothing :
  forall (A : Type) (fn : M A) (config : option RetryConfig) (w : World),
    attemptsAllowed config = 0%nat ->
    (exists e, retryWithBackoff fn config w = (Err e, w)
               /\ (message e = "Cannot read properties of undefined (reading 'message')"
                   \/ message e = "Cannot destructure property 'max_attempts' of 'config' as it is undefined."))
    /\ (forall render this template contact message w0,
          retry (App.config this) = config ->
          App.dryRun this = false ->
          render template contact = Ok message ->
          Obj.has (ledger w0) (StateTracker.generateHash (phoneOf contact) message) = false ->
          let w' := exec (App.processContact render this template contact) w0 in
          stats w' = countFailed (stats w0)
          /\ ledger w' = ledger w0
          /\ file (fs w') = file (fs w0)
          /\ sendCalls w' = sendCalls w0).
Proof.
  intros A fn config w Hnone. split.
  - eexists. split; [apply retryWithBackoff_none_allowed, Hnone|].
    destruct config; [now left | now right].
  - intros render this template contact message w0 Hcfg Hlive Hr Hnew.
    rewrite <- Hcfg in Hnone.
    apply (processContact_none_allowed render this Hlive Hnone template contact message w0 Hr Hnew).
Qed.

Lemma backoffFrom_capped c :
  forall k d,
    match backoffFrom c d k with
    | [] => True
    | d0 :: rest => d0 = d /\ Forall (fun x => (x <= default (max_delay_ms c) 10000)%Q) rest
    end.
Proof.
  induction k as [|k IH]; intros d; simpl; [exact I|].
  split; [reflexivity|].
  specialize (IH (Qmin (d * default (backoff_multiplier c) 2) (default (max_delay_ms c) 10000))).
  destruct (backoffFrom c _ k) as [|d1 rest]; [constructor|].
  destruct IH as [-> IH]. constructor; [apply Q.le_min_r | exact IH].
Qed.

Lemma backoffFrom_length c k : forall d, List.length (backoffFrom c d k) = k.
Proof. induction k as [|k IH]; intros d; simpl; [reflexivity | now rewrite IH]. Qed.

(** X11. Of the delays [retryWithBackoff] sleeps, the first is
    [initial_delay_ms] as configured and every later one is at most
    [max_delay_ms]; there are fewer of them than attempts allowed, and no
    more than failures met. *)
Theorem retryWithBackoff_delays_capped :
  forall (c : RetryConfig) (w : World),
    let max := default (max_attempts c) 3%nat in
    let initial := default (initial_delay_ms c) 1000 in
    let maxDelay := default (max_delay_ms c) 10000 in
    (1 <= max)%nat ->
    exists ds,
      trace (exec (retryWithBackoff invoke (Some c)) w) = trace w ++ interleave ds
      /\ (List.length ds < max)%nat
      /\ (List.length ds <= List.length (leadingErrors (outcomes w)))%nat
      /\ match ds with
         | [] => True
         | d0 :: rest => d0 = initial /\ Forall (fun d => (d <= maxDelay)%Q) rest
         end.
Proof.
  intros c w max initial maxDelay Hmax.
  destruct max as [|left] eqn:Emax; [lia|].
  pose proof (attempts_invoke c left 1 initial None w) as H.
  cbv zeta in H. fold max in H. rewrite Emax in H.
  specialize (H ltac:(lia)). destruct H as (Ht & _ & _).
  exists (backoffFrom c initial (Nat.min (List.length (leadingErrors (outcomes w))) left)).
  split; [|split; [|split]].
  - unfold retryWithBackoff. fold max. rewrite Emax. exact Ht.
  - rewrite backoffFrom_length. lia.
  - rewrite backoffFrom_length. lia.
  - apply backoffFrom_capped.
Qed.

Lemma sleep_needed_bounds (last q m : Q) :
  (last <= q -> q - last < m -> 0 < m - (q - last) /\ m - (q - last) <= m)%Q.
Proof. intros. split; lra. Qed.

Lemma since_epoch (q m : Q) : (m <= q -> m <= q - 0)%Q.
Proof. intros. lra. Qed.

(** The sleeps in a row of calls. *)
Section Gate.
Variable this : RateLimiter.t.

Lemma wait_sleep_bounded w :
  (lastMessageTime w <= clock (timer w))%Q ->
  let w' := exec (RateLimiter.wait this) w in
  (trace w' = trace w
   \/ exists d, trace w' = trace w ++ [Slept d]
                /\ (0 < d)%Q /\ (d <= RateLimiter.minDelayMs this)%Q)
  /\ lastMessageTime w' = clock (timer w').
Proof.
  intros Hlast. split; [|apply wait_records].
  destruct (Qlt_le_dec (sinceLast w) (RateLimiter.minDelayMs this)) as [Hlt|Hle].
  - right. exists (RateLimiter.minDelayMs this - sinceLast w)%Q.
    split; [apply wait_suspends, Hlt|].
    unfold sinceLast in *. apply sleep_needed_bounds; [|exact Hlt].
    eapply Qle_trans; [exact Hlast | apply elapse_monotone].
  - left. apply wait_passes, Hle.
Qed.

Lemma waits_sleep_bounded n :
  forall w,
    (lastMessageTime w <= clock (timer w))%Q ->
    exists ds,
      trace (waits this n w) = trace w ++ map Slept ds
      /\ (List.length ds <= n)%nat
      /\ Forall (fun d => (0 < d)%Q /\ (d <= RateLimiter.minDelayMs this)%Q) ds
      /\ (lastMessageTime (waits this n w) <= clock (timer (waits this n w)))%Q.
Proof.
  induction n as [|n IH]; intros w Hlast.
  - exists []. cbn. rewrite app_nil_r. repeat split; auto.
  - destruct (IH w Hlast) as (ds & Ht & Hlen & Hall & Hinv).
    change (waits this (S n) w) with (exec (RateLimiter.wait this) (waits this n w)).
    destruct (wait_sleep_bounded (waits this n w) Hinv) as [Hstep Hrec].
    cbv zeta in Hstep, Hrec.
    destruct Hstep as [Hsame|(d & Hd & Hpos & Hle)].
    + exists ds. rewrite Hsame, Hrec. repeat split; auto. apply Qle_refl.
    + exists (ds ++ [d]). rewrite Hd, Ht, Hrec, map_app, <- app_assoc.
      repeat split; auto.
      * rewrite length_app. simpl. lia.
      * apply Forall_app. split; [exact Hall | repeat constructor; assumption].
      * apply Qle_refl.
Qed.

End Gate.

(** X12. As long as the clock is not behind the recorded last call,
    [wait] never sleeps longer than [minDelayMs], however often it is
    called, and at most once per call. *)
Theorem pacing_gate_sleeps_within_minDelay :
  forall (this : RateLimiter.t) (n : nat) (w : World),
    (lastMessageTime w <= clock (timer w))%Q ->
    exists ds,
      trace (waits this n w) = trace w ++ map Slept ds
      /\ (List.length ds <= n)%nat
      /\ Forall (fun d => (0 < d)%Q /\ (d <= RateLimiter.minDelayMs this)%Q) ds.
Proof.
  intros this n w Hlast.
  destruct (waits_sleep_bounded this n w Hlast) as (ds & Ht & Hlen & Hall & _).
  exists ds. auto.
Qed.

(** X13. After [reset], and after construction, the next [wait] does not
    sleep (on any clock that reads at least [minDelayMs]). *)
Theorem pacing_gate_reset_opens :
  forall w : World,
    (forall this,
        (RateLimiter.minDelayMs this <= clock (elapse (timer w)))%Q ->
        trace (exec (RateLimiter.reset ;; RateLimiter.wait this) w) = trace w)
    /\ (forall R,
          (1000 / R <= clock (elapse (timer w)))%Q ->
          trace (exec (limiter <- RateLimiter.new R ;; RateLimiter.wait limiter) w) = trace w)
    /\ lastMessageTime (exec RateLimiter.reset w) = 0%Q.
Proof.
  intros w.
  assert (Hpass : forall l, (RateLimiter.minDelayMs l <= clock (elapse (timer w)))%Q ->
                            trace (exec (RateLimiter.wait l) (set_lastMessageTime 0 w)) = trace w).
  { intros l Hl. rewrite wait_passes; [reflexivity|].
    unfold sinceLast. cbn [timer set_lastMessageTime lastMessageTime].
    apply since_epoch, Hl. }
  split; [|split].
  - intros this Hclock. rewrite exec_bind. cbn [eval RateLimiter.reset modify fst exec snd].
    fold (exec (RateLimiter.wait this) (set_lastMessageTime 0 w)). now apply Hpass.
  - intros R HR. rewrite exec_bind.
    change (eval (RateLimiter.new R) w) with (Ok (RateLimiter.mk R (1000 / R))).
    change (exec (RateLimiter.new R) w) with (set_lastMessageTime 0 w).
    apply Hpass. exact HR.
  - reflexivity.
Qed.

(** ** stateTracker.js: statistics, clean-up, creation *)

Lemma set_length {V} (o : JsObject V) k v :
  List.length (Obj.keys (Obj.set o k v))
  = (List.length (Obj.keys o) + if Obj.has o k then 0 else 1)%nat.
Proof.
  rewrite keys_set. destruct (Obj.has o k); [lia|]. rewrite length_app. reflexivity.
Qed.

Lemma set_add_length {A} (same : A -> A -> bool) (l s : list A) :
  (List.length (fold_left (JsSet.add same) l s) <= List.length s + List.length l)%nat.
Proof.
  revert s. induction l as [|x l IH]; intros s; simpl; [lia|].
  specialize (IH (JsSet.add same s x)). unfold JsSet.add in *.
  destruct (JsSet.has same s x); [lia|]. rewrite length_app in IH. simpl in IH. lia.
Qed.

Lemma getStats_run w :
  exists r,
    StateTracker.getStats w = (Ok r, w)
    /\ StateTracker.totalMessages r = tracked w
    /\ (StateTracker.uniqueContacts r <= StateTracker.totalMessages r)%nat
    /\ StateTracker.lastUpdated r = lastUpdated (tracker w).
Proof.
  unfold StateTracker.getStats, gets, tracked, ledger.
  destruct (tracker w) as [msgs upd]. eexists. split; [reflexivity|].
  cbn [StateTracker.totalMessages StateTracker.uniqueContacts StateTracker.lastUpdated
       sentMessages lastUpdated].
  unfold Obj.keys. rewrite !length_map. split; [reflexivity|]. split; [|reflexivity].
  pose proof (set_add_length sameValueZero
                (map (fun m => member m "phone") (map snd msgs)) []) as H.
  rewrite !length_map in H. exact H.
Qed.

Section Tracked.
Variable render : string -> Contact -> Result string.
Variable this : App.t.

Lemma markAsSent_tracked phone message metadata w :
  tracked (exec (StateTracker.markAsSent phone message metadata) w)
  = (tracked w
     + if Obj.has (ledger w) (StateTracker.generateHash phone message) then 0 else 1)%nat.
Proof. unfold tracked. rewrite markAsSent_ledger. apply set_length. Qed.

Lemma recover_run contact e w :
  exists w', App.recover this contact e w = (Ok tt, w')
             /\ stats w' = countFailed (stats w) /\ ledger w' = ledger w.
Proof.
  destruct (recover_counts this contact e w) as [He Hs].
  pose proof (recover_ledger this contact e w) as Hl.
  unfold eval, exec in *. destruct (App.recover this contact e w) as [[[]|e'] w']; [|discriminate].
  exists w'. auto.
Qed.

Lemma tracked_ledger w w' : ledger w' = ledger w -> tracked w' = tracked w.
Proof. unfold tracked. now intros ->. Qed.

Lemma tracked_set_stats s w : tracked (set_stats s w) = tracked w.
Proof. reflexivity. Qed.

Lemma sent_incr_run w : App.sent_incr w = (Ok tt, set_stats (countSent (stats w)) w).
Proof. reflexivity. Qed.

(** One contact of a live run: the ledger gains an entry when the contact is
    counted as sent, gains at most one when it is counted as failed, and
    none when it is skipped. *)
Lemma processContact_tracked_run template contact w :
  App.dryRun this = false ->
  exists w',
    App.processContact render this template contact w = (Ok tt, w')
    /\ (tracked w + sent (stats w') <= tracked w' + sent (stats w))%nat
    /\ (tracked w' + sent (stats w) + failed (stats w)
        <= tracked w + sent (stats w') + failed (stats w'))%nat
    /\ (sent (stats w) <= sent (stats w'))%nat
    /\ (failed (stats w) <= failed (stats w'))%nat.
Proof.
  intros Hlive. unfold App.processContact, try_catch.
  destruct (render template contact) as [message|e0] eqn:Hr.
  - destruct (Obj.has (ledger w) (StateTracker.generateHash (phoneOf contact) message)) eqn:Hh.
    + pose proof (processContact_skips render this template contact message w Hr Hh) as Hpc.
      unfold App.processContact, try_catch in Hpc. rewrite Hpc.
      eexists. split; [reflexivity|].
      rewrite tracked_set_stats. cbn [stats set_stats countSkipped sent failed]. lia.
    + rewrite (attempt_live render this Hlive template contact message w Hr Hh).
      rewrite bind_run.
      pose proof (send_stats render this contact message w) as Hss.
      pose proof (tracked_ledger _ _ (send_ledger render this contact message w)) as Hsl.
      destruct (eval (App.send render this contact message) w) as [[]|e].
      * rewrite bind_run.
        pose proof (markAsSent_stats (phoneOf contact) message [("contact", VObj contact)]
                      (exec (App.send render this contact message) w)) as Hms.
        pose proof (markAsSent_tracked (phoneOf contact) message [("contact", VObj contact)]
                      (exec (App.send render this contact message) w)) as Hmt.
        rewrite (send_ledger render this contact message w), Hh, Hsl in Hmt.
        rewrite Hss in Hms.
        revert Hms Hmt.
        generalize (exec (StateTracker.markAsSent (phoneOf contact) message
                            [("contact", VObj contact)])
                      (exec (App.send render this contact message) w)).
        intros w2 Hms Hmt.
        destruct (eval (StateTracker.markAsSent _ _ _) _) as [[]|e].
        -- rewrite sent_incr_run. eexists. split; [reflexivity|].
           rewrite tracked_set_stats, Hms. cbn [stats set_stats countSent sent failed]. lia.
        -- destruct (recover_run contact e w2) as (w3 & -> & Hs & Hl).
           apply tracked_ledger in Hl.
           eexists. split; [reflexivity|].
           rewrite Hs, Hl, Hms. cbn [countFailed sent failed]. lia.
      * destruct (recover_run contact e (exec (App.send render this contact message) w))
          as (w3 & -> & Hs & Hl).
        apply tracked_ledger in Hl.
        eexists. split; [reflexivity|].
        rewrite Hs, Hl, Hss, Hsl. cbn [countFailed sent failed]. lia.
  - unfold App.attempt. cbv zeta. unfold bind at 1, lift at 1. rewrite Hr.
    destruct (recover_run contact e0 w) as (w3 & -> & Hs & Hl).
    apply tracked_ledger in Hl.
    eexists. split; [reflexivity|].
    rewrite Hs, Hl. cbn [countFailed sent failed]. lia.
Qed.

Lemma processContacts_tracked template valid :
  App.dryRun this = false ->
  forall w,
    let w' := exec (App.processContacts render this template valid) w in
    (tracked w + sent (stats w') <= tracked w' + sent (stats w))%nat
    /\ (tracked w' + sent (stats w) + failed (stats w)
        <= tracked w + sent (stats w') + failed (stats w'))%nat
    /\ (sent (stats w) <= sent (stats w'))%nat
    /\ (failed (stats w) <= failed (stats w'))%nat.
Proof.
  intros Hlive. induction valid as [|contact rest IH]; intros w; cbv zeta.
  - change (exec (App.processContacts render this template []) w) with w. lia.
  - destruct (processContact_tracked_run template contact w Hlive) as (w1 & Hpc & H1).
    assert (Hx : exec (App.processContacts render this template (contact :: rest)) w
                 = exec (App.processContacts render this template rest) w1).
    { cbn [App.processContacts]. unfold exec, bind. now rewrite Hpc. }
    rewrite Hx. specialize (IH w1). cbv zeta in IH. lia.
Qed.

End Tracked.

(** X14. [getStats] counts the fingerprints, and no more contacts than
    fingerprints.  Over a live run the count grows by at least the number of
    contacts sent and at most that plus the number failed; over a dry run it
    stays. *)
Theorem tracked_messages_follow_the_run :
  forall (render : string -> Contact -> Result string) (this : App.t)
         (template : string) (valid : list Contact) (w : World),
    let w' := exec (App.processAll render this template valid) w in
    (exists r, StateTracker.getStats w' = (Ok r, w')
               /\ StateTracker.totalMessages r = tracked w'
               /\ (StateTracker.uniqueContacts r <= StateTracker.totalMessages r)%nat
               /\ StateTracker.lastUpdated r = lastUpdated (tracker w'))
    /\ (App.dryRun this = true -> tracked w' = tracked w)
    /\ (App.dryRun this = false ->
        (tracked w + sent (stats w') <= tracked w')%nat
        /\ (tracked w' <= tracked w + sent (stats w') + failed (stats w'))%nat).
Proof.
  intros render this template valid w w'. split; [apply getStats_run|]. split.
  - intros Hdry. pose proof (processAll_dry render this Hdry template valid w) as H.
    unfold surroundings in H. unfold tracked, ledger. fold w' in H. congruence.
  - intros Hlive. subst w'. unfold App.processAll. rewrite exec_bind.
    cbn [eval modify fst exec snd].
    pose proof (processContacts_tracked render this template valid Hlive
                  (set_stats (mkStats (List.length valid) 0 0 0) w)) as H.
    cbv zeta in H. unfold exec in *. cbn [stats set_stats sent failed] in H.
    change (tracked (set_stats (mkStats (List.length valid) 0 0 0) w)) with (tracked w) in H.
    lia.
Qed.

Section Pruning.
Context {V : Type}.
Variable keep : V -> bool.

Lemma set_fresh (o : JsObject V) k v : ~ In k (Obj.keys o) -> Obj.set o k v = o ++ [(k, v)].
Proof.
  induction o as [|[k' v'] o IH]; simpl; [reflexivity|].
  intros H. destruct (String.eqb_spec k' k) as [->|Hne]; [tauto|].
  rewrite IH; [reflexivity | tauto].
Qed.

Lemma prune_filter (l : JsObject V) :
  forall acc,
    NoDup (Obj.keys acc ++ Obj.keys l) ->
    fold_left (fun acc kv => if keep (snd kv) then Obj.set acc (fst kv) (snd kv) else acc) l acc
    = acc ++ filter (fun kv => keep (snd kv)) l.
Proof.
  induction l as [|[k v] l IH]; intros acc Hnd; cbn [fold_left filter fst snd].
  - now rewrite app_nil_r.
  - cbn [Obj.keys map fst] in Hnd. fold (Obj.keys l) in Hnd.
    destruct (keep v).
    + rewrite set_fresh.
      * rewrite IH; [now rewrite <- app_assoc|].
        unfold Obj.keys. rewrite map_app. cbn [map fst]. rewrite <- app_assoc. exact Hnd.
      * apply NoDup_remove_2 in Hnd. intros Hin. apply Hnd, in_or_app. now left.
    + apply IH. eapply NoDup_remove_1, Hnd.
Qed.

Lemma get_filter (f : string * V -> bool) (o : JsObject V) k :
  Obj.wf o ->
  Obj.get (filter f o) k
  = match Obj.get o k with
    | Some v => if f (k, v) then Some v else None
    | None => None
    end.
Proof.
  unfold Obj.wf. induction o as [|[k' v'] o IH]; intros Hnd; cbn [filter Obj.get]; [reflexivity|].
  cbn [Obj.keys map fst] in Hnd. inversion Hnd as [|? ? Hout Hnd']; subst.
  destruct (String.eqb_spec k' k) as [->|Hne].
  - destruct (f (k, v')) eqn:Ef; cbn [Obj.get]; [now rewrite String.eqb_refl|].
    rewrite (IH Hnd'). assert (Hg : Obj.get o k = None).
    { destruct (Obj.get o k) eqn:E; [|reflexivity]. exfalso. apply Hout.
      apply has_In. unfold Obj.has. now rewrite E. }
    now rewrite Hg.
  - destruct (f (k', v')); cbn [Obj.get]; [|now apply IH].
    destruct (String.eqb_spec k' k); [contradiction | now apply IH].
Qed.

End Pruning.

Section CleanupTheory.
Variable daysBefore : Q -> Z -> Q.
Variable parseDate : string -> option Q.
Variable days : option Z.

Let kept (w : World) : JsObject Entry := survivors daysBefore parseDate days w.
Let removed (w : World) : nat :=
  (List.length (Obj.keys (ledger w)) - List.length (Obj.keys (kept w)))%nat.

(** The world when [cleanup] has replaced the ledger, before it saves. *)
Let pruned (w : World) : World :=
  set_tracker (mkTrackerState (kept w) (lastUpdated (tracker w)))
              (set_timer (elapse (timer w)) w).

Lemma cleanup_run w :
  Obj.wf (ledger w) ->
  StateTracker.cleanup daysBefore parseDate days w
  = if (0 <? removed w)%nat
    then match StateTracker.save (pruned w) with
         | (Ok _, w') => (Ok (removed w), w')
         | (Err e, w') => (Err e, w')
         end
    else (Ok (removed w), pruned w).
Proof.
  intros Hwf. unfold StateTracker.cleanup.
  rewrite bind_run. unfold eval at 1, exec at 1, now. cbn [fst snd].
  rewrite bind_run. unfold eval at 1, exec at 1, gets. cbn [fst snd tracker set_timer].
  rewrite (prune_filter _ (sentMessages (tracker w)) []) by exact Hwf.
  cbn [app]. fold (ledger w).
  change (filter _ (ledger w)) with (kept w).
  rewrite bind_run. unfold eval at 1, exec at 1, modify. cbn [fst snd tracker set_timer].
  assert (Hp : (let 'mkTrackerState _ updated := tracker w in
                set_tracker (mkTrackerState (kept w) updated) (set_timer (elapse (timer w)) w))
               = pruned w).
  { unfold pruned. now destruct (tracker w). }
  rewrite Hp. fold (removed w).
  destruct (0 <? removed w)%nat.
  - unfold bind, ret. destruct (StateTracker.save (pruned w)) as [[[]|e] w']; reflexivity.
  - reflexivity.
Qed.

End CleanupTheory.

(** X15. [cleanup] keeps exactly the entries whose timestamp is not before
    the cutoff, as they were and in their order; an entry written by
    [markAsSent] at [t] is kept exactly when the cutoff is not after [t].
    It returns the number of entries dropped and saves only if it dropped
    one; when that [save] throws, so does [cleanup], and the ledger in
    memory is pruned all the same. *)
Theorem cleanup_keeps_recent_entries :
  forall (daysBefore : Q -> Z -> Q) (parseDate : string -> option Q) (days : option Z)
         (w : World),
    Obj.wf (ledger w) ->
    let kept := survivors daysBefore parseDate days w in
    let removed := (tracked w - List.length (Obj.keys kept))%nat in
    let w' := exec (StateTracker.cleanup daysBefore parseDate days) w in
    ledger w' = kept
    /\ (forall k, Obj.has kept k = true -> Obj.get kept k = Obj.get (ledger w) k)
    /\ (forall phone message t contact cutoff,
          StateTracker.notBefore parseDate cutoff
            (entryOf phone message t [("contact", VObj contact)])
          = Qle_bool cutoff t)
    /\ (forall r, eval (StateTracker.cleanup daysBefore parseDate days) w = Ok r -> r = removed)
    /\ (removed = 0%nat ->
        eval (StateTracker.cleanup daysBefore parseDate days) w = Ok 0%nat
        /\ fs w' = fs w /\ lastUpdated (tracker w') = lastUpdated (tracker w))
    /\ ((0 < removed)%nat ->
        (eval (StateTracker.cleanup daysBefore parseDate days) w = Ok removed
         /\ file (fs w') = Some (Stored (tracker w')))
        \/ (exists e, eval (StateTracker.cleanup daysBefore parseDate days) w = Err e)).
Proof.
  intros daysBefore parseDate days w Hwf kept removed w'.
  subst w'. unfold eval, exec. rewrite (cleanup_run daysBefore parseDate days w Hwf).
  fold kept. change (List.length (Obj.keys (ledger w)) - List.length (Obj.keys kept))%nat
    with removed.
  set (w1 := set_tracker (mkTrackerState kept (lastUpdated (tracker w)))
               (set_timer (elapse (timer w)) w)).
  assert (Hget : forall k, Obj.has kept k = true -> Obj.get kept k = Obj.get (ledger w) k).
  { intros k. unfold Obj.has, kept, survivors. rewrite (get_filter _ (ledger w) k Hwf).
    destruct (Obj.get (ledger w) k) as [v|]; [|discriminate].
    destruct (StateTracker.notBefore _ _ _); [reflexivity | discriminate]. }
  destruct (0 <? removed)%nat eqn:Epos.
  - apply Nat.ltb_lt in Epos.
    pose proof (save_ledger w1) as Hl. pose proof (save_persists w1) as Hp.
    unfold exec, eval in Hl.
    destruct (StateTracker.save w1) as [[[]|e] w2]; cbn [fst snd] in *.
    + split; [exact Hl|]. split; [exact Hget|]. split; [reflexivity|].
      split; [now intros r [= <-]|].
      split; [lia|]. intros _. left. split; [reflexivity | now apply Hp].
    + split; [exact Hl|]. split; [exact Hget|]. split; [reflexivity|]. split; [discriminate|].
      split; [lia|]. intros _. right. exists e. reflexivity.
  - apply Nat.ltb_ge in Epos. cbn [fst snd].
    split; [reflexivity|]. split; [exact Hget|]. split; [reflexivity|].
    split; [now intros r [= <-]|].
    split; [|lia]. intros H0. rewrite H0. repeat split.
Qed.

Lemma load_cannot_create w f :
  file (fs w) = None ->
  firstFault 3 (faults (fs w)) = Some f ->
  eval StateTracker.load w = Err (thrown f)
  /\ (firstFault 2 (faults (fs w)) = Some f -> file (fs (exec StateTracker.load w)) = None).
Proof.
  intros Hfile Hfault.
  unfold StateTracker.load, StateTracker.save, exec, eval, bind, gets, modify,
    now, mkdir, writeFile, fs_mutation.
  rewrite Hfile. cbv beta iota.
  destruct (faults (fs w)) as [|[f1|] [|[f2|] [|[f3|] rest]]]; cbn in *;
    try discriminate; injection Hfault as <-; rewrite ?Hfile;
    (split; [reflexivity | intros H; congruence || discriminate H]).
Qed.

Lemma load_stats : preserves stats StateTracker.load.
Proof. unfold StateTracker.load, StateTracker.save. frame. Qed.

(** When [load] throws, [main] ends the process with code 1, the transport
    never called and no contact counted. *)
Lemma main_load_throws render w c e :
  config_yaml (inputs w) = Ok c ->
  eval StateTracker.load
       (set_tracker StateTracker.initial (set_refs (mkRefs true false false) w)) = Err e ->
  fst (App.main render w) = App.Exit 1
  /\ trace (snd (App.main render w)) = trace w
  /\ stats (snd (App.main render w)) = stats w.
Proof.
  intros Hc Hload.
  set (w1 := set_tracker StateTracker.initial (set_refs (mkRefs true false false) w)) in *.
  assert (Hchain : (App.new ;; app <- App.initialize ;; App.run render app ;; App.shutdown) w
                   = (Err e, exec StateTracker.load w1)).
  { rewrite bind_run. unfold eval at 1, exec at 1, App.new, modify. cbn [fst snd].
    rewrite bind_run.
    assert (Hinit : App.initialize (set_refs (mkRefs false false false) w)
                    = (Err e, exec StateTracker.load w1)).
    { unfold App.initialize.
      rewrite bind_run. unfold eval at 1, exec at 1. rewrite loadConfig_run.
      cbn [inputs set_refs]. rewrite Hc. cbn [fst snd].
      rewrite bind_run. unfold eval at 1, exec at 1, App.set_logger, modify. cbn [fst snd].
      rewrite bind_run. unfold eval at 1, exec at 1, gets. cbn [fst snd].
      rewrite bind_run. unfold eval at 1, exec at 1, StateTracker.new, modify. cbn [fst snd].
      rewrite bind_run.
      match goal with |- context [eval StateTracker.load ?x] => change x with w1 end.
      now rewrite Hload. }
    unfold eval, exec. now rewrite Hinit. }
  unfold App.main. rewrite Hchain.
  pose proof (load_frame w1) as Hframe. cbv beta in Hframe.
  injection Hframe as _ _ Hrefs Htrace.
  pose proof (load_stats w1) as Hstats.
  revert Hrefs Htrace Hstats. generalize (exec StateTracker.load w1). intros w2 Hrefs Htrace Hstats.
  unfold App.shutdown, bind, gets, WhatsAppAutomation.isRunning. cbv beta.
  repeat (rewrite Hrefs; cbn). rewrite Htrace, Hstats. auto.
Qed.

(** X16. With no state file, when one of the three calls by which [load]
    creates it fails (its [mkdir], then the [mkdir] and the [writeFile] of
    [save]), [load] throws that error; when the call is one of the two
    [mkdir], no file has been created; and [main] ends the process with
    code 1, the transport never called and no contact counted. *)
Theorem state_file_that_cannot_be_created_is_fatal :
  forall (w : World) (f : Fault),
    file (fs w) = None ->
    firstFault 3 (faults (fs w)) = Some f ->
    eval StateTracker.load w = Err (thrown f)
    /\ (firstFault 2 (faults (fs w)) = Some f -> file (fs (exec StateTracker.load w)) = None)
    /\ (forall render c,
          config_yaml (inputs w) = Ok c ->
          fst (App.main render w) = App.Exit 1
          /\ trace (snd (App.main render w)) = trace w
          /\ stats (snd (App.main render w)) = stats w).
Proof.
  intros w f Hfile Hfault.
  destruct (load_cannot_create w f Hfile Hfault) as [He Hf].
  split; [exact He|]. split; [exact Hf|].
  intros render c Hc. apply (main_load_throws render w c (thrown f) Hc).
  apply load_cannot_create; assumption.
Qed.

Section Delivered.
Variable render : string -> Contact -> Result string.
Variable this : App.t.
Hypothesis live : App.dryRun this = false.

Lemma attempts_last_call {A : Type} (fn : M A) (P : World -> Prop) max maxDelay multiplier :
  (forall w a, eval fn w = Ok a -> P (exec fn w)) ->
  forall left attempt delay lastError w a,
    eval (attempts fn max maxDelay multiplier left attempt delay lastError) w = Ok a ->
    P (exec (attempts fn max maxDelay multiplier left attempt delay lastError) w).
Proof.
  intros Hfn. induction left as [|left IH]; intros attempt delay lastError w a.
  - simpl. destruct lastError; discriminate.
  - rewrite attempts_step. unfold eval, exec, try_catch.
    specialize (Hfn w). unfold eval, exec in Hfn.
    destruct (fn w) as [[x|e] w1]; cbn [fst snd] in *.
    + intros _. now apply (Hfn x).
    + destruct (attempt <? max)%nat.
      * unfold bind. rewrite sleep_run. apply IH.
      * apply IH.
Qed.

Lemma sendMessage_last_call phone message image caption w :
  eval (App.on_whatsapp (WhatsAppAutomation.sendMessage phone message image caption)) w = Ok tt ->
  lastCallSends phone message
    (exec (App.on_whatsapp (WhatsAppAutomation.sendMessage phone message image caption)) w).
Proof.
  unfold App.on_whatsapp, WhatsAppAutomation.sendMessage, eval, exec, bind, gets.
  destruct (whatsapp (refs w)); [|discriminate].
  destruct (negb (browser (refs w))); [discriminate|].
  unfold WhatsAppAutomation.record, emit, modify, WhatsAppAutomation.deliver.
  cbn [transport set_trace].
  destruct (pop (deliveries (transport w))) as [[[e|]|] rest]; cbn [fst snd];
    try discriminate; intros _; exists (trace w), image, caption; reflexivity.
Qed.

Lemma send_last_call contact message w :
  eval (App.send render this contact message) w = Ok tt ->
  lastCallSends (phoneOf contact) message (exec (App.send render this contact message) w).
Proof.
  unfold App.send. rewrite eval_bind, exec_bind, wait_returns.
  rewrite eval_bind, exec_bind.
  destruct (eval _ (exec (RateLimiter.wait (App.rateLimiter this)) w)) as [caption|e];
    [|discriminate].
  destruct (retry (App.config this)) as [c|]; [|discriminate].
  cbn [retryWithBackoff]. intros H.
  eapply attempts_last_call; [|exact H].
  intros w0 []. apply sendMessage_last_call.
Qed.

Lemma processContact_sent_run template contact w :
  stats (exec (App.processContact render this template contact) w) = countSent (stats w) ->
  exists message w1 w2,
    render template contact = Ok message
    /\ Obj.has (ledger w) (StateTracker.generateHash (phoneOf contact) message) = false
    /\ App.send render this contact message w = (Ok tt, w1)
    /\ StateTracker.markAsSent (phoneOf contact) message [("contact", VObj contact)] w1
       = (Ok tt, w2)
    /\ exec (App.processContact render this template contact) w
       = set_stats (countSent (stats w2)) w2.
Proof.
  pose proof (attempt_counts render this template contact w) as Hc.
  unfold App.processContact, exec, try_catch.
  destruct (App.attempt render this template contact w) as [[[]|e] w'] eqn:Ha; cbn [snd].
  - intros Hs. unfold App.attempt in Ha. cbv zeta in Ha.
    apply bind_ok_inv in Ha as (message & w0 & Hr & Ha).
    unfold lift in Hr. injection Hr as Hr <-.
    apply bind_ok_inv in Ha as (already & w0 & Hh & Ha).
    unfold StateTracker.wasMessageSent, gets in Hh. injection Hh as Hh <-.
    destruct already.
    + unfold bind, StateTracker.getMessageInfo, gets, App.skipped_incr, modify in Ha.
      injection Ha as <-. exfalso. exact (countSent_not_skipped _ _ Hs eq_refl).
    + rewrite live in Ha.
      apply bind_ok_inv in Ha as ([] & w1 & Hsend & Ha).
      apply bind_ok_inv in Ha as ([] & w2 & Hm & Ha).
      injection Ha as <-. exists message, w1, w2. auto.
  - intros Hs. exfalso.
    destruct (recover_counts this contact e w') as [_ Hf]. unfold exec in Hf.
    rewrite Hc in Hf. exact (countSent_not_failed _ _ Hs Hf).
Qed.

End Delivered.

(** X17. A contact a live run counts as sent was new to the ledger; the
    last call of the transport is the send of its message to its phone; its
    entry, with phone, fingerprint, timestamp and the contact, is in the
    ledger; and the file holds the ledger as it is in memory. *)
Theorem counted_sent_was_delivered_and_recorded :
  forall (render : string -> Contact -> Result string) (this : App.t)
         (template : string) (contact : Contact) (w : World),
    App.dryRun this = false ->
    let w' := exec (App.processContact render this template contact) w in
    stats w' = countSent (stats w) ->
    exists message t,
      let hash := StateTracker.generateHash (phoneOf contact) message in
      render template contact = Ok message
      /\ Obj.has (ledger w) hash = false
      /\ lastCallSends (phoneOf contact) message w'
      /\ Obj.get (ledger w') hash
         = Some [("phone", VStr (phoneOf contact)); ("messageHash", VStr hash);
                 ("timestamp", VIso t); ("contact", VObj contact)]
      /\ file (fs w') = Some (Stored (tracker w'))
      /\ tracked w' = S (tracked w).
Proof.
  intros render this template contact w Hlive w' Hs. subst w'.
  destruct (processContact_sent_run render this Hlive template contact w Hs)
    as (message & w1 & w2 & Hr & Hnew & Hsend & Hmark & ->).
  exists message, (clock (elapse (timer w1))). cbv zeta.
  assert (Hw1 : w1 = exec (App.send render this contact message) w)
    by (unfold exec; now rewrite Hsend).
  assert (Hw2 : w2 = exec (StateTracker.markAsSent (phoneOf contact) message
                             [("contact", VObj contact)]) w1)
    by (unfold exec; now rewrite Hmark).
  split; [exact Hr|]. split; [exact Hnew|]. split; [|split; [|split]].
  - unfold lastCallSends. cbn [trace set_stats].
    rewrite Hw2, markAsSent_trace, Hw1.
    apply (send_last_call render this contact message w).
    unfold eval. now rewrite Hsend.
  - change (ledger (set_stats (countSent (stats w2)) w2)) with (ledger w2).
    rewrite Hw2, markAsSent_ledger, get_set_eq. reflexivity.
  - change (file (fs w2) = Some (Stored (tracker w2))).
    exact (markAsSent_persists _ _ _ _ _ Hmark).
  - rewrite tracked_set_stats, Hw2, markAsSent_tracked.
    rewrite Hw1, (send_ledger render this contact message w), Hnew.
    rewrite (tracked_ledger _ _ (send_ledger render this contact message w)). lia.
Qed.

(** ** index.js: start-up, the catch block, the browser session *)

(** X18. When [config.yaml] cannot be read, [main] does not reach
    [process.exit]: its [catch] block calls [shutdown], which dereferences
    the logger that was never created, and [main] rejects with that
    [TypeError]. *)
Theorem unreadable_config_is_an_unhandled_rejection :
  forall (render : string -> Contact -> Result string) (w : World) (e : Error),
    config_yaml (inputs w) = Err e ->
    eval App.loadConfig w
    = Err (mkError ("Failed to load config from ./config.yaml: " ++ message e))
    /\ App.main render w
       = (App.UnhandledRejection (TypeError "Cannot read properties of null (reading 'info')"),
          set_refs (mkRefs false false false) w).
Proof.
  intros render w e Hc. split.
  - unfold eval. now rewrite loadConfig_run, Hc.
  - unfold App.main.
    assert (Hchain : (App.new ;; app <- App.initialize ;; App.run render app ;; App.shutdown) w
                     = (Err (mkError ("Failed to load config from ./config.yaml: " ++ message e)),
                        set_refs (mkRefs false false false) w)).
    { rewrite bind_run. unfold eval at 1, exec at 1, App.new, modify. cbn [fst snd].
      assert (Hinit : App.initialize (set_refs (mkRefs false false false) w)
                      = (Err (mkError ("Failed to load config from ./config.yaml: "
                                       ++ message e)),
                         set_refs (mkRefs false false false) w)).
      { unfold App.initialize. unfold bind at 1.
        rewrite loadConfig_run. cbn [inputs set_refs]. rewrite Hc. reflexivity. }
      rewrite bind_run. unfold eval, exec. now rewrite Hinit. }
    rewrite Hchain. reflexivity.
Qed.

Lemma initialized w app w1 :
  (App.new ;; App.initialize) w = (Ok app, w1) ->
  inputs w1 = inputs w
  /\ transport w1 = transport w
  /\ trace w1 = trace w
  /\ stats w1 = stats w
  /\ refs w1 = mkRefs true (negb (dry_run_flag (inputs w))) false
  /\ App.dryRun app = dry_run_flag (inputs w)
  /\ config_yaml (inputs w) = Ok (App.config app).
Proof.
  intros H. apply bind_ok_inv in H as ([] & w0 & Hnew & H).
  unfold App.new, modify in Hnew. injection Hnew as <-.
  unfold App.initialize in H.
  apply bind_ok_inv in H as (c & wa & Hcfg & H).
  apply bind_ok_inv in H as ([] & wb & Hlog & H).
  apply bind_ok_inv in H as (flag & wc & Hflag & H).
  apply bind_ok_inv in H as ([] & wd & Hnew & H).
  apply bind_ok_inv in H as ([] & we & Hload & H).
  apply bind_ok_inv in H as (rl & wf & Hrl & H).
  apply bind_ok_inv in H as ([] & wg & Hwa & H).
  injection H as <- <-.
  rewrite loadConfig_run in Hcfg. cbn [inputs set_refs] in Hcfg.
  destruct (config_yaml (inputs w)) as [c0|e0] eqn:Hc; [|discriminate].
  injection Hcfg as <- <-.
  unfold App.set_logger, modify in Hlog. injection Hlog as <-.
  unfold gets in Hflag. injection Hflag as <- <-.
  unfold StateTracker.new, modify in Hnew. injection Hnew as <-.
  match type of Hload with StateTracker.load ?x = _ =>
    pose proof (load_frame x) as Hframe; pose proof (load_stats x) as Hstats end.
  unfold exec in Hframe, Hstats. rewrite Hload in Hframe, Hstats. cbn in Hframe, Hstats.
  injection Hframe as Hi Ht Hr Htr.
  unfold RateLimiter.new, bind, modify, ret in Hrl. injection Hrl as _ <-.
  cbn [inputs set_refs] in Hwa |- *.
  destruct (dry_run_flag (inputs w)); cbn [negb] in Hwa;
    unfold App.set_whatsapp, modify, ret in Hwa; injection Hwa as <-;
    cbn; rewrite ?Hr; cbn; repeat split; assumption.
Qed.

Lemma shutdown_idle w :
  logger (refs w) = true -> browser (refs w) = false -> App.shutdown w = (Ok tt, w).
Proof.
  intros Hl Hb. cbv [App.shutdown bind gets WhatsAppAutomation.isRunning].
  rewrite Hl. cbn [negb]. cbv beta iota. rewrite Hb, andb_false_r. reflexivity.
Qed.

(** [main], once [initialize] has returned. *)
Lemma main_after_initialize render w app w1 :
  (App.new ;; App.initialize) w = (Ok app, w1) ->
  App.main render w
  = (match eval (App.run render app) w1 with
     | Ok _ => App.Exit 0
     | Err _ => App.Exit 1
     end, exec App.shutdown (exec (App.run render app) w1)).
Proof.
  intros Hinit. destruct (initialized w app w1 Hinit) as (_ & _ & _ & _ & Hrefs & _).
  assert (Hlog : logger (refs (exec (App.run render app) w1)) = true).
  { rewrite (run_logger render app w1), Hrefs. reflexivity. }
  pose proof (shutdown_ok _ Hlog) as Hshut.
  unfold App.main.
  apply bind_ok_inv in Hinit as ([] & w0 & Hnew & Hinit).
  rewrite bind_run. unfold eval at 1, exec at 1. rewrite Hnew. cbn [fst snd].
  rewrite bind_run. unfold eval at 1, exec at 1. rewrite Hinit. cbn [fst snd].
  rewrite bind_run.
  unfold eval, exec in Hshut |- *.
  destruct (App.run render app w1) as [[[]|e] w2]; cbn [fst snd] in *;
    destruct (App.shutdown w2) as [[[]|e'] w3]; cbn [fst snd] in *;
    try discriminate; reflexivity.
Qed.

Section Inputs.
Variable render : string -> Contact -> Result string.
Variable this : App.t.

Lemma run_no_valid w rows :
  contacts_rows (inputs w) = Ok rows ->
  fst (validateContacts rows) = [] ->
  App.run render this w = (Ok tt, w).
Proof.
  intros Hrows Hnone. unfold App.run, App.parseContactsCSV.
  unfold bind, gets. rewrite Hrows. unfold ret. cbv beta iota. now rewrite Hnone.
Qed.

Lemma run_bad_csv w e :
  contacts_rows (inputs w) = Err e ->
  App.run render this w = (Err (mkError ("Failed to parse CSV: " ++ message e)), w).
Proof.
  intros Hrows. unfold App.run, App.parseContactsCSV. unfold bind, gets. now rewrite Hrows.
Qed.

Lemma run_bad_template w rows e :
  contacts_rows (inputs w) = Ok rows ->
  fst (validateContacts rows) <> [] ->
  Str.truthy (message_template (App.config this))
  && Str.nonblank (message_template (App.config this)) = true ->
  template_text (inputs w) = Err e ->
  App.run render this w
  = (Err (mkError ("Failed to load template from " ++ message_template (App.config this)
                   ++ ": " ++ message e)), w).
Proof.
  intros Hrows Hvalid Hset Htext. unfold App.run, App.parseContactsCSV, App.loadTemplate.
  unfold bind, gets. rewrite Hrows. unfold ret. cbv beta iota.
  destruct (fst (validateContacts rows)) as [|c0 rest]; [congruence|].
  rewrite Hset, Htext. reflexivity.
Qed.

Lemma run_no_browser w rows text e :
  contacts_rows (inputs w) = Ok rows ->
  fst (validateContacts rows) <> [] ->
  template_text (inputs w) = Ok text ->
  App.dryRun this = false ->
  whatsapp (refs w) = true ->
  launch (transport w) = Some e ->
  App.run render this w = (Err e, set_trace (trace w ++ [Called CallInitialize]) w).
Proof.
  intros Hrows Hvalid Htext Hlive Hwa Hlaunch.
  unfold App.run, App.parseContactsCSV, App.loadTemplate, App.on_whatsapp,
    WhatsAppAutomation.initialize, WhatsAppAutomation.record, emit.
  unfold bind, gets, modify. rewrite Hrows. unfold ret. cbv beta iota.
  destruct (fst (validateContacts rows)) as [|c0 rest]; [congruence|].
  rewrite Hlive. cbn [negb].
  destruct (_ && _); rewrite ?Htext; cbv beta iota; rewrite Hwa;
    cbn [transport set_trace]; rewrite Hlaunch; reflexivity.
Qed.

End Inputs.

(** X19. Once [initialize] has returned: a contacts file without a valid
    row ends the process with code 0, an unreadable contacts file or
    template with code 1, all three before the browser is launched and with
    nothing counted; a browser that does not launch ends it with code 1,
    nothing sent, counted or recorded. *)
Theorem inputs_that_stop_the_run :
  forall (render : string -> Contact -> Result string) (w : World) (app : App.t) (w1 : World),
    (App.new ;; App.initialize) w = (Ok app, w1) ->
    trace w1 = trace w
    /\ stats w1 = stats w
    /\ (forall rows,
          contacts_rows (inputs w) = Ok rows ->
          fst (validateContacts rows) = [] ->
          App.main render w = (App.Exit 0, w1))
    /\ (forall e,
          contacts_rows (inputs w) = Err e ->
          App.main render w = (App.Exit 1, w1))
    /\ (forall rows e,
          contacts_rows (inputs w) = Ok rows ->
          fst (validateContacts rows) <> [] ->
          Str.truthy (message_template (App.config app))
          && Str.nonblank (message_template (App.config app)) = true ->
          template_text (inputs w) = Err e ->
          App.main render w = (App.Exit 1, w1))
    /\ (forall rows text e,
          contacts_rows (inputs w) = Ok rows ->
          fst (validateContacts rows) <> [] ->
          template_text (inputs w) = Ok text ->
          dry_run_flag (inputs w) = false ->
          launch (transport w) = Some e ->
          fst (App.main render w) = App.Exit 1
          /\ sendCalls (snd (App.main render w)) = sendCalls w
          /\ stats (snd (App.main render w)) = stats w
          /\ tracker (snd (App.main render w)) = tracker w1
          /\ fs (snd (App.main render w)) = fs w1).
Proof.
  intros render w app w1 Hinit.
  destruct (initialized w app w1 Hinit) as (Hi & Ht & Htr & Hs & Hrefs & Hdry & _).
  assert (Hidle : App.shutdown w1 = (Ok tt, w1))
    by (apply shutdown_idle; rewrite Hrefs; reflexivity).
  rewrite (main_after_initialize render w app w1 Hinit).
  split; [exact Htr|]. split; [exact Hs|]. split; [|split; [|split]].
  - intros rows Hrows Hnone. rewrite <- Hi in Hrows.
    unfold eval, exec. rewrite (run_no_valid render app w1 rows Hrows Hnone). cbn [fst snd].
    now rewrite Hidle.
  - intros e Hrows. rewrite <- Hi in Hrows.
    unfold eval, exec. rewrite (run_bad_csv render app w1 e Hrows). cbn [fst snd].
    now rewrite Hidle.
  - intros rows e Hrows Hvalid Hset Htext. rewrite <- Hi in Hrows, Htext.
    unfold eval, exec.
    rewrite (run_bad_template render app w1 rows e Hrows Hvalid Hset Htext). cbn [fst snd].
    now rewrite Hidle.
  - intros rows text e Hrows Hvalid Htext Hlive Hlaunch.
    rewrite <- Hi in Hrows, Htext. rewrite <- Ht in Hlaunch.
    unfold eval, exec.
    rewrite (run_no_browser render app w1 rows text e Hrows Hvalid Htext);
      [| now rewrite Hdry | rewrite Hrefs, Hlive; reflexivity | exact Hlaunch].
    cbn [fst snd]. rewrite shutdown_idle by (cbn [refs set_trace]; rewrite Hrefs; reflexivity).
    cbn [fst snd]. split; [reflexivity|].
    unfold sendCalls. cbn [trace set_trace stats tracker fs].
    rewrite Htr, filter_app, length_app. cbn. rewrite Nat.add_0_r.
    repeat split; assumption || reflexivity.
Qed.

(** X20. A contact is counted as failed by the [catch] block only: the
    [try] block threw, having counted nothing; the block then takes the
    screenshot [error_<phone>] if the run is live, the transport exists and
    screenshots are enabled, and touches neither the ledger nor the disk. *)
Theorem failed_contact_takes_a_screenshot :
  forall (render : string -> Contact -> Result string) (this : App.t)
         (template : string) (contact : Contact) (w : World),
    let w' := exec (App.processContact render this template contact) w in
    stats w' = countFailed (stats w) ->
    exists e w1,
      App.attempt render this template contact w = (Err e, w1)
      /\ stats w1 = stats w
      /\ w' = exec (App.recover this contact e) w1
      /\ tracker w' = tracker w1
      /\ fs w' = fs w1
      /\ trace w'
         = trace w1
           ++ (if whatsapp (refs w1) && negb (App.dryRun this)
                  && screenshots_enabled (App.config this)
               then [Called (CallScreenshot ("error_" ++ phoneOf contact))]
               else [])
      /\ (forall e0, render template contact = Err e0 -> e = e0 /\ w1 = w).
Proof.
  intros render this template contact w w' Hs. subst w'.
  pose proof (attempt_counts render this template contact w) as Hc.
  unfold App.processContact, exec, try_catch in *.
  destruct (App.attempt render this template contact w) as [[[]|e] w1] eqn:Ha; cbn [snd] in *.
  - exfalso. destruct Hc as [Hc|Hc]; rewrite Hc in Hs; injection Hs; lia.
  - exists e, w1. split; [reflexivity|]. split; [exact Hc|]. split; [reflexivity|].
    assert (Hrec : App.recover this contact e w1
                   = (Ok tt,
                      (if whatsapp (refs w1) && negb (App.dryRun this)
                          && screenshots_enabled (App.config this)
                       then set_trace (trace w1 ++ [Called (CallScreenshot
                                                              ("error_" ++ phoneOf contact))])
                       else fun x => x)
                        (set_stats (countFailed (stats w1)) w1))).
    { cbv [App.recover bind App.failed_incr modify gets WhatsAppAutomation.takeScreenshot
           WhatsAppAutomation.record emit ret].
      cbn [refs set_stats].
      destruct (whatsapp (refs w1) && negb (App.dryRun this)); cbn [andb]; [|reflexivity].
      destruct (screenshots_enabled (App.config this)); reflexivity. }
    rewrite Hrec. cbn [snd].
    split; [|split; [|split]].
    + destruct (_ && _ && _); reflexivity.
    + destruct (_ && _ && _); reflexivity.
    + destruct (_ && _ && _); [reflexivity | cbn; now rewrite app_nil_r].
    + intros e0 Hr. unfold App.attempt in Ha. cbv zeta in Ha.
      unfold bind at 1, lift at 1 in Ha. rewrite Hr in Ha. now injection Ha as <- <-.
Qed.

Section Adds.
Variable P : Event -> Prop.

Lemma adds_preserves {A} (m : M A) : preserves trace m -> adds P m.
Proof. intros H w. exists []. rewrite H, app_nil_r. auto. Qed.

Lemma adds_emit e : P e -> adds P (emit e).
Proof. intros He w. exists [e]. split; [reflexivity | auto]. Qed.

Lemma adds_bind {A B} (m : M A) (k : A -> M B) :
  adds P m -> (forall a, adds P (k a)) -> adds P (bind m k).
Proof.
  intros Hm Hk w. rewrite exec_bind. destruct (Hm w) as (m1 & H1 & F1).
  destruct (eval m w) as [a|e]; [|eauto].
  destruct (Hk a (exec m w)) as (m2 & H2 & F2).
  exists (m1 ++ m2). rewrite H2, H1, app_assoc. split; [reflexivity | now apply Forall_app].
Qed.

Lemma adds_try_catch {A} (m : M A) (h : Error -> M A) :
  adds P m -> (forall e, adds P (h e)) -> adds P (try_catch m h).
Proof.
  intros Hm Hh w. destruct (Hm w) as (m1 & H1 & F1). unfold exec, try_catch in *.
  destruct (m w) as [[a|e] w1]; cbn [snd] in *; [eauto|].
  destruct (Hh e w1) as (m2 & H2 & F2). unfold exec in H2.
  exists (m1 ++ m2). rewrite H2, H1, app_assoc. split; [reflexivity | now apply Forall_app].
Qed.

Lemma adds_attempts {A} (fn : M A) max maxDelay multiplier :
  adds P fn -> (forall ms, adds P (sleep ms)) ->
  forall left attempt delay lastError,
    adds P (attempts fn max maxDelay multiplier left attempt delay lastError).
Proof.
  intros Hfn Hsleep. induction left as [|left IH]; intros attempt delay lastError.
  - simpl. destruct lastError; apply adds_preserves, preserves_throw.
  - rewrite attempts_step. apply adds_try_catch; [exact Hfn|]. intros e.
    destruct (attempt <? max)%nat; [apply adds_bind; [apply Hsleep | intros _]|]; apply IH.
Qed.

End Adds.

Lemma sleep_within ms : adds withinSession (sleep ms).
Proof.
  unfold sleep. apply adds_bind; [apply adds_emit; exact I | intros _].
  apply adds_preserves. intros w. reflexivity.
Qed.

Section Session.
Variable render : string -> Contact -> Result string.
Variable this : App.t.

Lemma wait_within l : adds withinSession (RateLimiter.wait l).
Proof.
  unfold RateLimiter.wait.
  apply adds_bind; [apply adds_preserves; frame | intros n].
  apply adds_bind; [apply adds_preserves; frame | intros last].
  apply adds_bind; [|intros _].
  - destruct (Qlt_le_dec _ _); [apply sleep_within | apply adds_preserves; frame].
  - apply adds_preserves. frame.
Qed.

Lemma sendMessage_within phone message image caption :
  adds withinSession
    (App.on_whatsapp (WhatsAppAutomation.sendMessage phone message image caption)).
Proof.
  unfold App.on_whatsapp, WhatsAppAutomation.sendMessage.
  apply adds_bind; [apply adds_preserves; frame | intros wa].
  destruct wa; [|apply adds_preserves; frame].
  apply adds_bind; [apply adds_preserves; frame | intros b].
  destruct (negb b); [apply adds_preserves; frame|].
  apply adds_bind; [apply adds_emit; exact I | intros _].
  apply adds_preserves. frame.
Qed.

Lemma send_within contact message :
  adds withinSession (App.send render this contact message).
Proof.
  unfold App.send.
  apply adds_bind; [apply wait_within | intros _].
  apply adds_bind; [apply adds_preserves; frame | intros caption].
  destruct (retry (App.config this)) as [c|]; cbn [retryWithBackoff];
    [|apply adds_preserves, preserves_throw].
  apply adds_attempts; [apply sendMessage_within | apply sleep_within].
Qed.

Lemma processContact_within template contact :
  adds withinSession (App.processContact render this template contact).
Proof.
  unfold App.processContact. apply adds_try_catch.
  - unfold App.attempt. cbv zeta.
    apply adds_bind; [apply adds_preserves; frame | intros message].
    apply adds_bind; [apply adds_preserves; unfold StateTracker.wasMessageSent; frame|].
    intros [|].
    + apply adds_preserves. unfold StateTracker.getMessageInfo. frame.
    + destruct (App.dryRun this); [apply adds_preserves; frame|].
      apply adds_bind; [apply send_within | intros _].
      apply adds_preserves.
      apply preserves_bind; [apply markAsSent_trace | intros _; frame].
  - intros e. unfold App.recover.
    apply adds_bind; [apply adds_preserves; frame | intros _].
    apply adds_bind; [apply adds_preserves; frame | intros wa].
    destruct (wa && negb (App.dryRun this)); [|apply adds_preserves; frame].
    unfold WhatsAppAutomation.takeScreenshot.
    destruct (screenshots_enabled (App.config this)); [|apply adds_preserves; frame].
    apply adds_emit. exact I.
Qed.

Lemma processAll_within template valid :
  adds withinSession (App.processAll render this template valid).
Proof.
  unfold App.processAll. apply adds_bind; [apply adds_preserves; frame | intros _].
  induction valid as [|contact rest IH]; cbn [App.processContacts].
  - apply adds_preserves. frame.
  - apply adds_bind; [apply processContact_within | intros _; exact IH].
Qed.

Lemma processContact_refs template contact :
  preserves refs (App.processContact render this template contact).
Proof.
  unfold App.processContact, App.attempt, App.recover, App.send, App.on_whatsapp,
    RateLimiter.wait, StateTracker.markAsSent, StateTracker.save,
    StateTracker.wasMessageSent, StateTracker.getMessageInfo,
    WhatsAppAutomation.takeScreenshot, WhatsAppAutomation.sendMessage.
  cbv zeta. frames.
Qed.

Lemma processAll_refs template valid :
  preserves refs (App.processAll render this template valid).
Proof.
  unfold App.processAll. apply preserves_bind; [frame | intros _].
  induction valid as [|contact rest IH]; cbn [App.processContacts]; [frame|].
  apply preserves_bind; [apply processContact_refs | intros _; exact IH].
Qed.

(** A live [run] with a valid contact, its inputs readable and a browser
    that launches: the launch, then the loop. *)
Lemma run_live w rows text :
  contacts_rows (inputs w) = Ok rows ->
  fst (validateContacts rows) <> [] ->
  template_text (inputs w) = Ok text ->
  App.dryRun this = false ->
  whatsapp (refs w) = true ->
  launch (transport w) = None ->
  exists template,
    App.run render this w
    = App.processAll render this template (fst (validateContacts rows))
        (set_refs (mkRefs (logger (refs w)) true true)
           (set_trace (trace w ++ [Called CallInitialize]) w)).
Proof.
  intros Hrows Hvalid Htext Hlive Hwa Hlaunch.
  unfold App.run, App.parseContactsCSV, App.loadTemplate, App.on_whatsapp,
    WhatsAppAutomation.initialize, WhatsAppAutomation.record,
    WhatsAppAutomation.set_browser, emit.
  unfold bind, gets, modify. rewrite Hrows. unfold ret. cbv beta iota.
  destruct (fst (validateContacts rows)) as [|c0 rest]; [congruence|].
  rewrite Hlive. cbn [negb].
  destruct (_ && _); rewrite ?Htext; cbv beta iota; rewrite Hwa;
    cbn [transport set_trace]; rewrite Hlaunch;
    change (refs (set_trace (trace w ++ [Called CallInitialize]) w)) with (refs w);
    rewrite Hwa; eexists; reflexivity.
Qed.

End Session.

Lemma shutdown_closes w :
  refs w = mkRefs true true true ->
  App.shutdown w
  = (Ok tt, set_refs (mkRefs true true false) (set_trace (trace w ++ [Called CallClose]) w)).
Proof. destruct w as [s0 t0 l0 r0 tm0 o0 tp0 f0 i0 e0]. cbn [refs]. intros ->. reflexivity. Qed.

(** X21. A run whose inputs are readable and whose browser launches exits
    with code 0 and leaves no browser running: live, the transport sees the
    launch first and the closing last, with only sleeps, sends and
    screenshots in between; dry, it sees nothing. *)
Theorem browser_session_brackets_the_run :
  forall (render : string -> Contact -> Result string) (w : World) (app : App.t) (w1 : World)
         (rows : list Contact) (text : string),
    (App.new ;; App.initialize) w = (Ok app, w1) ->
    contacts_rows (inputs w) = Ok rows ->
    fst (validateContacts rows) <> [] ->
    template_text (inputs w) = Ok text ->
    launch (transport w) = None ->
    fst (App.main render w) = App.Exit 0
    /\ browser (refs (snd (App.main render w))) = false
    /\ (dry_run_flag (inputs w) = true -> trace (snd (App.main render w)) = trace w)
    /\ (dry_run_flag (inputs w) = false ->
        exists between,
          trace (snd (App.main render w))
          = trace w ++ [Called CallInitialize] ++ between ++ [Called CallClose]
          /\ Forall withinSession between).
Proof.
  intros render w app w1 rows text Hinit Hrows Hvalid Htext Hlaunch.
  destruct (initialized w app w1 Hinit) as (Hi & Ht & Htr & Hs & Hrefs & Hdry & _).
  rewrite (main_after_initialize render w app w1 Hinit). cbn [fst snd].
  rewrite <- Hi in Hrows, Htext. rewrite <- Ht in Hlaunch.
  destruct (dry_run_flag (inputs w)) eqn:Hflag.
  - assert (Hrun : eval (App.run render app) w1 = Ok tt)
      by (apply (run_ok render app w1 rows text Hrows Htext); now left).
    pose proof (run_dry render app Hdry w1) as Hframe. unfold surroundings in Hframe.
    injection Hframe as _ _ Hr _ _ _ _ _ Htrace.
    assert (Hidle : App.shutdown (exec (App.run render app) w1)
                    = (Ok tt, exec (App.run render app) w1))
      by (apply shutdown_idle; rewrite Hr, Hrefs; reflexivity).
    rewrite Hrun. unfold exec at 1 3. rewrite Hidle. cbn [snd].
    split; [reflexivity|]. split; [now rewrite Hr, Hrefs|].
    split; [intros _; now rewrite Htrace | discriminate].
  - assert (Hwa : whatsapp (refs w1) = true) by (rewrite Hrefs; reflexivity).
    destruct (run_live render app w1 rows text Hrows Hvalid Htext Hdry Hwa Hlaunch)
      as (template & Hrun).
    set (w2 := set_refs (mkRefs (logger (refs w1)) true true)
                 (set_trace (trace w1 ++ [Called CallInitialize]) w1)) in *.
    destruct (processAll_tally render app template (fst (validateContacts rows)) w2)
      as (Hok & _).
    destruct (processAll_within render app template (fst (validateContacts rows)) w2)
      as (between & Hbetween & Hall).
    pose proof (processAll_refs render app template (fst (validateContacts rows)) w2) as Hr.
    unfold eval, exec in *. rewrite Hrun.
    destruct (App.processAll render app template (fst (validateContacts rows)) w2)
      as [r w3]. cbn [fst snd] in *. subst r.
    assert (Hshut : App.shutdown w3
                    = (Ok tt, set_refs (mkRefs true true false)
                                (set_trace (trace w3 ++ [Called CallClose]) w3))).
    { apply shutdown_closes. rewrite Hr. unfold w2. cbn [refs set_refs]. now rewrite Hrefs. }
    rewrite Hshut. cbn [snd refs set_refs browser trace set_trace].
    split; [reflexivity|]. split; [reflexivity|]. split; [discriminate|].
    intros _. exists between. split; [|exact Hall].
    rewrite Hbetween. cbn [trace set_refs set_trace w2]. rewrite Htr.
    now rewrite <- !app_assoc.
Qed.

(** ** Instances *)

Lemma validateContacts_keeps_other_fields_witness :
  In [("Name", FStr "Bob"); ("phone", FStr "+15551230002")] (fst (validateContacts exampleRows))
  /\ exists c key,
       In c exampleRows
       /\ List.find isPhoneKey (Obj.keys c) = Some key
       /\ Obj.has [("Name", FStr "Bob"); ("phone", FStr "+15551230002")] "phone" = true.
Proof.
  assert (H : In [("Name", FStr "Bob"); ("phone", FStr "+15551230002")]
                (fst (validateContacts exampleRows))) by (vm_compute; auto).
  split; [exact H|].
  destruct (validateContacts_keeps_other_fields exampleRows _ H)
    as (c & key & Hc & Hk & _ & _ & Hp & _).
  exists c, key. auto.
Defined.

Lemma validateContacts_revalidates_witness :
  Forall phoneColumnSettled exampleRows
  /\ validateContacts (fst (validateContacts exampleRows)) = (fst (validateContacts exampleRows), []).
Proof.
  assert (H : Forall phoneColumnSettled exampleRows).
  { unfold exampleRows.
    constructor; [|constructor; [|constructor; [|constructor]]];
      intros k Hk Hp; cbn in Hk;
      repeat (destruct Hk as [<-|Hk];
              [first [now right | now left | vm_compute in Hp; discriminate Hp]|]);
      destruct Hk. }
  split; [exact H | exact (validateContacts_revalidates exampleRows H)].
Defined.

Lemma renderTemplate_verbatim_witness :
  literal ann = true
  /\ noOpen "See you on Monday." = true
  /\ renderTemplate "See you on Monday." ann = Ok "See you on Monday.".
Proof.
  assert (H1 : literal ann = true) by reflexivity.
  assert (H2 : noOpen "See you on Monday." = true) by reflexivity.
  split; [exact H1|]. split; [exact H2|].
  exact (proj1 (proj2 (renderTemplate_verbatim "See you on Monday." ann H1)) H2).
Defined.


Lemma no_attempt_allowed_sends_nothing_witness :
  attemptsAllowed (retry noAttemptConfig) = 0%nat
  /\ stats (exec (App.processContact renderTemplate noAttemptApp "Hello {{name}}" ann) liveWorld)
     = countFailed (stats liveWorld)
  /\ sendCalls (exec (App.processContact renderTemplate noAttemptApp "Hello {{name}}" ann)
                  liveWorld)
     = sendCalls liveWorld.
Proof.
  assert (H : attemptsAllowed (retry noAttemptConfig) = 0%nat) by reflexivity.
  split; [exact H|].
  destruct (proj2 (no_attempt_allowed_sends_nothing JsVal invoke (retry noAttemptConfig)
                     freshWorld H)
              renderTemplate noAttemptApp "Hello {{name}}" ann "Hello Ann" liveWorld
              eq_refl eq_refl eq_refl eq_refl) as (Hs & _ & _ & Hc).
  split; [exact Hs | exact Hc].
Defined.

Lemma retryWithBackoff_delays_capped_witness :
  (1 <= 3)%nat
  /\ exists ds,
       trace (exec (retryWithBackoff invoke (Some examplePolicy)) alwaysFailing)
       = trace alwaysFailing ++ interleave ds
       /\ (List.length ds < 3)%nat.
Proof.
  assert (H : (1 <= 3)%nat) by lia.
  split; [exact H|].
  destruct (retryWithBackoff_delays_capped examplePolicy alwaysFailing H)
    as (ds & Ht & Hlen & _).
  exists ds. split; [exact Ht | exact Hlen].
Defined.

Lemma pacing_gate_sleeps_within_minDelay_witness :
  (lastMessageTime freshWorld <= clock (timer freshWorld))%Q
  /\ exists ds,
       trace (waits (RateLimiter.mk 1 (1000 / 1)) 3 freshWorld)
       = trace freshWorld ++ map Slept ds
       /\ (List.length ds <= 3)%nat.
Proof.
  assert (H : (lastMessageTime freshWorld <= clock (timer freshWorld))%Q)
    by (apply Qle_bool_imp_le; reflexivity).
  split; [exact H|].
  destruct (pacing_gate_sleeps_within_minDelay (RateLimiter.mk 1 (1000 / 1)) 3 freshWorld H)
    as (ds & Ht & Hlen & _).
  exists ds. split; [exact Ht | exact Hlen].
Defined.

Lemma pacing_gate_reset_opens_witness :
  (1000 / 1 <= clock (elapse (timer freshWorld)))%Q
  /\ trace (exec (RateLimiter.reset ;; RateLimiter.wait (RateLimiter.mk 1 (1000 / 1)))
              (waits (RateLimiter.mk 1 (1000 / 1)) 1 freshWorld))
     = [].
Proof.
  assert (H : (1000 / 1 <= clock (elapse (timer freshWorld)))%Q)
    by (apply Qle_bool_imp_le; reflexivity).
  split; [exact H|].
  apply (proj1 (pacing_gate_reset_opens (waits (RateLimiter.mk 1 (1000 / 1)) 1 freshWorld))
           (RateLimiter.mk 1 (1000 / 1))).
  apply Qle_bool_imp_le. reflexivity.
Defined.

Lemma state_file_that_cannot_be_created_is_fatal_witness :
  file (fs readOnlyDisk) = None
  /\ firstFault 3 (faults (fs readOnlyDisk)) = Some (Refused noMkdir)
  /\ eval StateTracker.load readOnlyDisk = Err noMkdir
  /\ file (fs (exec StateTracker.load readOnlyDisk)) = None
  /\ fst (App.main renderTemplate readOnlyDisk) = App.Exit 1
  /\ trace (snd (App.main renderTemplate readOnlyDisk)) = [].
Proof.
  assert (H1 : file (fs readOnlyDisk) = None) by reflexivity.
  assert (H2 : firstFault 3 (faults (fs readOnlyDisk)) = Some (Refused noMkdir))
    by reflexivity.
  split; [exact H1|]. split; [exact H2|].
  destruct (state_file_that_cannot_be_created_is_fatal readOnlyDisk (Refused noMkdir) H1 H2)
    as (Hthrows & Hnone & Hmain).
  split; [exact Hthrows|]. split; [exact (Hnone eq_refl)|].
  destruct (Hmain renderTemplate exampleConfig eq_refl) as (Hexit & Htrace & _).
  split; [exact Hexit | exact Htrace].
Defined.

Lemma cleanup_keeps_recent_entries_witness :
  Obj.wf (ledger agedLedger)
  /\ Obj.keys (ledger (exec (StateTracker.cleanup plainDaysBefore noDate None) agedLedger))
     = ["bb"].
Proof.
  assert (H : Obj.wf (ledger agedLedger)).
  { repeat constructor; simpl; intuition discriminate. }
  split; [exact H|].
  rewrite (proj1 (cleanup_keeps_recent_entries plainDaysBefore noDate None agedLedger H)).
  vm_compute. reflexivity.
Defined.

Lemma unreadable_config_is_an_unhandled_rejection_witness :
  config_yaml (inputs noConfigStart)
  = Err (mkError "ENOENT: no such file or directory, open './config.yaml'")
  /\ fst (App.main renderTemplate noConfigStart)
     = App.UnhandledRejection (TypeError "Cannot read properties of null (reading 'info')").
Proof.
  assert (H : config_yaml (inputs noConfigStart)
              = Err (mkError "ENOENT: no such file or directory, open './config.yaml'"))
    by reflexivity.
  split; [exact H|].
  rewrite (proj2 (unreadable_config_is_an_unhandled_rejection renderTemplate noConfigStart _ H)).
  reflexivity.
Defined.

Lemma inputs_that_stop_the_run_witness :
  fst (App.main renderTemplate badCsvStart) = App.Exit 1
  /\ trace (snd (App.main renderTemplate badCsvStart)) = [].
Proof.
  destruct ((App.new ;; App.initialize) badCsvStart) as [[app|e] w1] eqn:Hinit.
  - destruct (inputs_that_stop_the_run renderTemplate badCsvStart app w1 Hinit)
      as (Htrace & _ & _ & Hcsv & _).
    rewrite (Hcsv (mkError "Invalid Record Length") eq_refl). cbn [fst snd].
    split; [reflexivity | exact Htrace].
  - vm_compute in Hinit. discriminate Hinit.
Defined.

Lemma failed_contact_takes_a_screenshot_witness :
  stats (exec (App.processContact renderTemplate liveApp "Hello {{name}}" ann) deadLine)
  = countFailed (stats deadLine)
  /\ exists e w1,
       App.attempt renderTemplate liveApp "Hello {{name}}" ann deadLine = (Err e, w1)
       /\ stats w1 = stats deadLine.
Proof.
  assert (H : stats (exec (App.processContact renderTemplate liveApp "Hello {{name}}" ann)
                       deadLine)
              = countFailed (stats deadLine)) by (vm_compute; reflexivity).
  split; [exact H|].
  destruct (failed_contact_takes_a_screenshot renderTemplate liveApp "Hello {{name}}" ann
              deadLine H) as (e & w1 & Ha & Hs & _).
  exists e, w1. split; [exact Ha | exact Hs].
Defined.

Lemma counted_sent_was_delivered_and_recorded_witness :
  App.dryRun liveApp = false
  /\ stats (exec (App.processContact renderTemplate liveApp "Hello {{name}}" ann) liveWorld)
     = countSent (stats liveWorld)
  /\ lastCallSends "+15551230001" "Hello Ann"
       (exec (App.processContact renderTemplate liveApp "Hello {{name}}" ann) liveWorld).
Proof.
  assert (H1 : App.dryRun liveApp = false) by reflexivity.
  assert (H2 : stats (exec (App.processContact renderTemplate liveApp "Hello {{name}}" ann)
                        liveWorld)
               = countSent (stats liveWorld)) by (vm_compute; reflexivity).
  split; [exact H1|]. split; [exact H2|].
  destruct (counted_sent_was_delivered_and_recorded renderTemplate liveApp "Hello {{name}}" ann
              liveWorld H1 H2) as (message & t & Hr & _ & Hlast & _).
  assert (Hm : message = "Hello Ann").
  { assert (Hc : renderTemplate "Hello {{name}}" ann = Ok "Hello Ann") by (vm_compute; reflexivity).
    rewrite Hc in Hr. now injection Hr as <-. }
  rewrite Hm in Hlast. exact Hlast.
Defined.

Lemma browser_session_brackets_the_run_witness :
  fst (validateContacts exampleRows) <> []
  /\ fst (App.main renderTemplate (processStart false [])) = App.Exit 0
  /\ browser (refs (snd (App.main renderTemplate (processStart false [])))) = false.
Proof.
  assert (H : fst (validateContacts exampleRows) <> []) by (vm_compute; discriminate).
  split; [exact H|].
  destruct ((App.new ;; App.initialize) (processStart false [])) as [[app|e] w1] eqn:Hinit.
  - destruct (browser_session_brackets_the_run renderTemplate (processStart false []) app w1
                exampleRows "Hello {{name}}" Hinit eq_refl H eq_refl eq_refl)
      as (Hexit & Hclosed & _).
    split; [exact Hexit | exact Hclosed].
  - vm_compute in Hinit. discriminate Hinit.
Defined.
